(** * CASE: jury voting and advocate retrieval

    A shallow embedding of [src/case/jury.py] ([Jury.synthesize]),
    [src/case/advocate.py] ([AdvocateAgent.retrieve] and the two
    retrieval tools) and the baseline script
    [src/utils/examples/baseline_barexam_qa_openrouter.py] ([query]
    and the loop over the dataset), together with the parts of the
    Python runtime they lean on ([str.strip], [str.upper],
    [str.split], [json.loads], [json.dumps], [random.sample],
    [collections.Counter], [round]).

    Python text is a list of Unicode code points, a [dict] is an
    association list in insertion order, an exception is a value of
    [exn] carried by [result].  The language model behind
    [dspy.ChainOfThought] / [dspy.ReAct], the search indexes, the
    chat service and the random generator are oracles passed in as
    arguments. *)

From Stdlib Require Import String Ascii DecimalString.
From Stdlib Require DecimalNat DecimalFacts.
From Stdlib Require Import List NArith ZArith QArith Qround Lia Lqa Bool Permutation.
Import ListNotations.
Close Scope Q_scope.

Set Implicit Arguments.
#[local] Set Warnings "-register-all".

(* ================================================================= *)
(** ** Python text *)

(** A [str] is a sequence of code points. *)
Definition pystr := list N.

(** The text of an ASCII literal. *)
Definition str (s : string) : pystr :=
  map N_of_ascii (list_ascii_of_string s).

Fixpoint str_eqb (a b : pystr) : bool :=
  match a, b with
  | [], [] => true
  | x :: a', y :: b' => N.eqb x y && str_eqb a' b'
  | _, _ => false
  end.

(** [str.isspace] for one code point (the table of CPython's
    [_PyUnicode_IsWhitespace]). *)
Definition is_space (c : N) : bool :=
  ((9 <=? c) && (c <=? 13) || (28 <=? c) && (c <=? 32)
   || (c =? 133) || (c =? 160) || (c =? 5760)
   || (8192 <=? c) && (c <=? 8202)
   || (c =? 8232) || (c =? 8233) || (c =? 8239) || (c =? 8287)
   || (c =? 12288))%N.

Fixpoint lstrip (s : pystr) : pystr :=
  match s with
  | c :: r => if is_space c then lstrip r else s
  | [] => []
  end.

Definition rstrip (s : pystr) : pystr := rev (lstrip (rev s)).

(** [s.strip()] *)
Definition strip (s : pystr) : pystr := rstrip (lstrip s).

Definition is_ascii_lower (c : N) : bool := ((97 <=? c) && (c <=? 122))%N.

(** [s.split(sep)] for a one-character separator. *)
Fixpoint split_on (sep : N) (s : pystr) : list pystr :=
  match s with
  | [] => [[]]
  | c :: r =>
      if N.eqb c sep then [] :: split_on sep r
      else match split_on sep r with
           | h :: t => (c :: h) :: t
           | [] => [[c]]
           end
  end.

(** [sep.join(parts)] *)
Fixpoint join (sep : pystr) (parts : list pystr) : pystr :=
  match parts with
  | [] => []
  | [p] => p
  | p :: rest => p ++ sep ++ join sep rest
  end.

(** Decimal text of a natural number, as an f-string prints an [int]. *)
Definition decimal (n : nat) : pystr :=
  str (NilEmpty.string_of_uint (Nat.to_uint n)).

Definition newline : N := 10%N.
Definition dquote : N := 34%N.

(* ================================================================= *)
(** ** Python values, exceptions *)

Inductive pyfloat : Type :=
| FNum (q : Q)
| FNaN
| FInf (negative : bool).

(** The values that reach the two functions: evidence elements, decoded
    JSON, the evidence field of a prediction. *)
Inductive pyval : Type :=
| PNone
| PBool (b : bool)
| PInt (z : Z)
| PFloat (x : pyfloat)
| PStr (s : pystr)
| PList (l : list pyval)
| PDict (d : list (pystr * pyval)).

Inductive exn : Type :=
| AttributeError
| ValueError
| IndexError
| KeyError
| RecursionError.

Inductive result (A : Type) : Type :=
| Ok (a : A)
| Raise (e : exn).
Arguments Ok {A} a.
Arguments Raise {A} e.

Definition bind {A B} (r : result A) (k : A -> result B) : result B :=
  match r with
  | Ok a => k a
  | Raise e => Raise e
  end.

Notation "x <- r ;; k" := (bind r (fun x => k))
  (at level 61, r at next level, right associativity).

(** [d.get(key)] on a dict kept in insertion order. *)
Fixpoint dict_lookup {V} (d : list (pystr * V)) (key : pystr) : option V :=
  match d with
  | [] => None
  | (k, v) :: r => if str_eqb k key then Some v else dict_lookup r key
  end.

(** [d.get(key, default)] *)
Definition dict_get {V} (d : list (pystr * V)) (key : pystr) (default : V) : V :=
  match dict_lookup d key with
  | Some v => v
  | None => default
  end.

(** [key in d] *)
Definition dict_mem {V} (d : list (pystr * V)) (key : pystr) : bool :=
  match dict_lookup d key with
  | Some _ => true
  | None => false
  end.

(** [d[key] = v]: overwrite in place, or append a new entry. *)
Fixpoint dict_set {V} (d : list (pystr * V)) (key : pystr) (v : V)
  : list (pystr * V) :=
  match d with
  | [] => [(key, v)]
  | (k, w) :: r =>
      if str_eqb k key then (k, v) :: r else (k, w) :: dict_set r key v
  end.

(** The parts of the runtime that are large tables or settings of the
    interpreter: the upper-case mapping of a code point outside ASCII
    (which may give several code points), [repr] of a value that is
    not a string, the limit on the digits of an integer converted
    from text ([sys.get_int_max_str_digits()], 4300 unless it was
    changed, 0 for no limit) and the number of nested JSON containers
    that the recursion limit leaves room for where [json.loads] is
    called. *)
Class Runtime : Type := {
  unicode_upper : N -> pystr;
  py_repr : pyval -> pystr;
  int_max_str_digits : nat;
  recursion_room : nat
}.

Section Text.
Context {R : Runtime}.

Definition upper_char (c : N) : pystr :=
  if is_ascii_lower c then [(c - 32)%N]
  else if (c <? 128)%N then [c]
  else unicode_upper c.

(** [s.upper()] *)
Definition upper (s : pystr) : pystr := flat_map upper_char s.

(** [str(v)], also what an f-string field prints. *)
Definition py_str (v : pyval) : pystr :=
  match v with
  | PStr s => s
  | _ => py_repr v
  end.

End Text.

(* ================================================================= *)
(** ** [json.loads]

    The decoder of the standard library, in its default (strict)
    configuration: objects become dicts, arrays lists, the literals
    [null], [true], [false] and the constants [NaN], [Infinity],
    [-Infinity] their Python values, a number an [int] unless it has a
    fraction or an exponent.  A float is kept as the exact value of
    its literal; the code under study never looks inside one.

    Besides [JSONDecodeError] the decoder raises two exceptions that
    are not of that class: [ValueError] when an integer literal has
    more digits than the interpreter converts, and [RecursionError]
    when the containers are nested deeper than the recursion limit
    leaves room for.  The text is read from left to right and the
    first of the three that is met is the one raised. *)

Module Json.

Inductive parsed (A : Type) : Type :=
| Good (v : A) (rest : pystr)
| Bad
| NoFuel
| Stop (e : exn).
Arguments Good {A} v rest.
Arguments Bad {A}.
Arguments NoFuel {A}.
Arguments Stop {A} e.

Definition is_json_ws (c : N) : bool :=
  ((c =? 32) || (c =? 9) || (c =? 10) || (c =? 13))%N.

Fixpoint skip_ws (s : pystr) : pystr :=
  match s with
  | c :: r => if is_json_ws c then skip_ws r else s
  | [] => []
  end.

Definition is_digit (c : N) : bool := ((48 <=? c) && (c <=? 57))%N.

Definition hex_digit (c : N) : option N :=
  if is_digit c then Some (c - 48)%N
  else if ((97 <=? c) && (c <=? 102))%N then Some (c - 87)%N
  else if ((65 <=? c) && (c <=? 70))%N then Some (c - 55)%N
  else None.

Definition hex4 (a b c d : N) : option N :=
  match hex_digit a, hex_digit b, hex_digit c, hex_digit d with
  | Some x, Some y, Some z, Some w => Some (((x * 16 + y) * 16 + z) * 16 + w)%N
  | _, _, _, _ => None
  end.

Definition is_high_surrogate (u : N) : bool := ((55296 <=? u) && (u <=? 56319))%N.
Definition is_low_surrogate (u : N) : bool := ((56320 <=? u) && (u <=? 57343))%N.

Definition simple_escape (e : N) : option N :=
  if (e =? 34)%N then Some 34%N
  else if (e =? 92)%N then Some 92%N
  else if (e =? 47)%N then Some 47%N
  else if (e =? 98)%N then Some 8%N
  else if (e =? 102)%N then Some 12%N
  else if (e =? 110)%N then Some 10%N
  else if (e =? 114)%N then Some 13%N
  else if (e =? 116)%N then Some 9%N
  else None.

(** The body of a string literal, from just after its opening quote to
    just after its closing quote. *)
Fixpoint scan_string (acc : pystr) (s : pystr) : option (pystr * pystr) :=
  match s with
  | [] => None
  | c :: r =>
      if (c =? 34)%N then Some (rev acc, r)
      else if (c =? 92)%N then
        match r with
        | [] => None
        | e :: r1 =>
            if (e =? 117)%N then
              match r1 with
              | a :: b :: c1 :: d :: r2 =>
                  match hex4 a b c1 d with
                  | None => None
                  | Some u =>
                      if is_high_surrogate u then
                        match r2 with
                        | b1 :: u1 :: a2 :: b2 :: c2 :: d2 :: r3 =>
                            if ((b1 =? 92) && (u1 =? 117))%N then
                              match hex4 a2 b2 c2 d2 with
                              | None => None
                              | Some v =>
                                  if is_low_surrogate v
                                  then scan_string
                                         ((65536 + (u - 55296) * 1024 + (v - 56320))%N :: acc)
                                         r3
                                  else scan_string (u :: acc) r2
                              end
                            else scan_string (u :: acc) r2
                        | _ => scan_string (u :: acc) r2
                        end
                      else scan_string (u :: acc) r2
                  end
              | _ => None
              end
            else
              match simple_escape e with
              | Some x => scan_string (x :: acc) r1
              | None => None
              end
        end
      else if (c <? 32)%N then None
      else scan_string (c :: acc) r
  end.

Fixpoint span_digits (s : pystr) : pystr * pystr :=
  match s with
  | c :: r =>
      if is_digit c then let '(ds, rest) := span_digits r in (c :: ds, rest)
      else ([], s)
  | [] => ([], [])
  end.

Definition digits_value (ds : pystr) : Z :=
  fold_left (fun acc c => (acc * 10 + Z.of_N (c - 48))%Z) ds 0%Z.

(** The integer part: a lone zero, or a non-zero digit followed by
    digits; returns its digits and what follows. *)
Definition scan_int_part (s : pystr) : option (pystr * pystr) :=
  match s with
  | c :: r =>
      if (c =? 48)%N then Some ([c], r)
      else if is_digit c then Some (span_digits s)
      else None
  | [] => None
  end.

(** The optional fraction: a dot and at least one digit. *)
Definition scan_frac (s : pystr) : option (pystr * pystr) :=
  match s with
  | c :: r =>
      if (c =? 46)%N then
        match span_digits r with
        | ([], _) => None
        | (ds, rest) => Some (ds, rest)
        end
      else None
  | [] => None
  end.

(** The optional exponent: e or E, an optional sign, at least one digit. *)
Definition scan_exp (s : pystr) : option (Z * pystr) :=
  match s with
  | c :: r =>
      if ((c =? 101) || (c =? 69))%N then
        let '(neg, r1) :=
          match r with
          | sg :: r' =>
              if (sg =? 45)%N then (true, r')
              else if (sg =? 43)%N then (false, r')
              else (false, r)
          | [] => (false, r)
          end in
        match span_digits r1 with
        | ([], _) => None
        | (ds, rest) =>
            Some ((if neg then - digits_value ds else digits_value ds)%Z, rest)
        end
      else None
  | [] => None
  end.

Definition scale10 (m e : Z) : Q :=
  if (0 <=? e)%Z then inject_Z (m * 10 ^ e)
  else Qmake m (Z.to_pos (10 ^ (- e))).

Definition scan_number (s : pystr) : option (pyval * pystr) :=
  let '(neg, s1) :=
    match s with
    | c :: r => if (c =? 45)%N then (true, r) else (false, s)
    | [] => (false, s)
    end in
  match scan_int_part s1 with
  | None => None
  | Some (ids, r1) =>
      let sign (z : Z) := if neg then (- z)%Z else z in
      let '(fds, r2, has_frac) :=
        match scan_frac r1 with
        | Some (fds, r2) => (fds, r2, true)
        | None => ([], r1, false)
        end in
      let '(ex, r3, has_exp) :=
        match scan_exp r2 with
        | Some (ex, r3) => (ex, r3, true)
        | None => (0%Z, r2, false)
        end in
      if has_frac || has_exp then
        Some (PFloat (FNum (scale10 (sign (digits_value (ids ++ fds)))
                                    (ex - Z.of_nat (length fds)))), r3)
      else Some (PInt (sign (digits_value ids)), r3)
  end.

Fixpoint strip_prefix (p s : pystr) : option pystr :=
  match p, s with
  | [], _ => Some s
  | x :: p', y :: s' => if N.eqb x y then strip_prefix p' s' else None
  | _ :: _, [] => None
  end.

(** A value that is neither a string, an object nor an array. *)
Definition scan_atom (s : pystr) : option (pyval * pystr) :=
  match strip_prefix (str "null") s with
  | Some r => Some (PNone, r)
  | None =>
  match strip_prefix (str "true") s with
  | Some r => Some (PBool true, r)
  | None =>
  match strip_prefix (str "false") s with
  | Some r => Some (PBool false, r)
  | None =>
  match scan_number s with
  | Some vr => Some vr
  | None =>
  match strip_prefix (str "NaN") s with
  | Some r => Some (PFloat FNaN, r)
  | None =>
  match strip_prefix (str "Infinity") s with
  | Some r => Some (PFloat (FInf false), r)
  | None =>
  match strip_prefix (str "-Infinity") s with
  | Some r => Some (PFloat (FInf true), r)
  | None => None
  end end end end end end end.

(** What the decoder is in the middle of: one value, the elements of
    an array, or the members of an object (positioned just after the
    opening quote of a key). *)
Inductive mode : Type :=
| MValue
| MElems (acc : list pyval)
| MMembers (acc : list (pystr * pyval)).

(** The number of digits of the integer literal read from [s] up to
    [rest]: what was read is the digits and, before them, the sign
    if there is one. *)
Definition literal_digits (s rest : pystr) : nat :=
  length s - length rest
  - match s with
    | c :: _ => if (c =? 45)%N then 1 else 0
    | [] => 0
    end.

Section Decoder.
Context {R : Runtime}.

(** Whether the conversion of an integer literal of [digits] digits is
    refused ([_PyLong_FromString]: literals of at most 640 digits are
    never checked). *)
Definition refused (digits : nat) : bool :=
  (640 <? digits) && (0 <? int_max_str_digits) && (int_max_str_digits <? digits).

(** [room] is the number of containers that may still be opened
    inside one another. *)
Fixpoint parse (fuel : nat) (room : nat) (m : mode) (s : pystr) : parsed pyval :=
  match fuel with
  | O => NoFuel
  | S f =>
      match m with
      | MValue =>
          match s with
          | [] => Bad
          | c :: r =>
              if (c =? 34)%N then
                match scan_string [] r with
                | Some (t, r') => Good (PStr t) r'
                | None => Bad
                end
              else if (c =? 123)%N then
                match room with
                | O => Stop RecursionError
                | S room' =>
                    match skip_ws r with
                    | c1 :: r2 =>
                        if (c1 =? 125)%N then Good (PDict []) r2
                        else if (c1 =? 34)%N then parse f room' (MMembers []) r2
                        else Bad
                    | [] => Bad
                    end
                end
              else if (c =? 91)%N then
                match room with
                | O => Stop RecursionError
                | S room' =>
                    match skip_ws r with
                    | c1 :: r2 =>
                        if (c1 =? 93)%N then Good (PList []) r2
                        else parse f room' (MElems []) (c1 :: r2)
                    | [] => Bad
                    end
                end
              else
                match scan_atom s with
                | Some (PInt z, r') =>
                    if refused (literal_digits s r') then Stop ValueError
                    else Good (PInt z) r'
                | Some (v, r') => Good v r'
                | None => Bad
                end
          end
      | MElems acc =>
          match parse f room MValue s with
          | Good v r =>
              match skip_ws r with
              | c :: r2 =>
                  if (c =? 93)%N then Good (PList (rev (v :: acc))) r2
                  else if (c =? 44)%N
                  then parse f room (MElems (v :: acc)) (skip_ws r2)
                  else Bad
              | [] => Bad
              end
          | Bad => Bad
          | NoFuel => NoFuel
          | Stop e => Stop e
          end
      | MMembers acc =>
          match scan_string [] s with
          | None => Bad
          | Some (key, r) =>
              match skip_ws r with
              | c :: r2 =>
                  if (c =? 58)%N then
                    match parse f room MValue (skip_ws r2) with
                    | Good v r3 =>
                        let acc' := dict_set acc key v in
                        match skip_ws r3 with
                        | c3 :: r4 =>
                            if (c3 =? 125)%N then Good (PDict acc') r4
                            else if (c3 =? 44)%N then
                              match skip_ws r4 with
                              | c5 :: r6 =>
                                  if (c5 =? 34)%N
                                  then parse f room (MMembers acc') r6
                                  else Bad
                              | [] => Bad
                              end
                            else Bad
                        | [] => Bad
                        end
                    | Bad => Bad
                    | NoFuel => NoFuel
                    | Stop e => Stop e
                    end
                  else Bad
              | [] => Bad
              end
          end
      end
  end.

End Decoder.

(** The size of what a call of [parse] still has to do. *)
Definition weight (m : mode) (s : pystr) : nat :=
  match m with
  | MValue => 2 * length s
  | MElems _ => 2 * length s + 1
  | MMembers _ => 2 * length s + 1
  end.

(** More than the weight of a value, so that the decoder never runs
    out ([loads_fuel_enough] below). *)
Definition fuel_for (s : pystr) : nat := 2 * length s + 2.

(** What [json.loads] does: it returns a value, raises
    [JSONDecodeError], or raises another exception. *)
Inductive decoded : Type :=
| Value (v : pyval)
| JSONDecodeError
| Other (e : exn).

(** [json.loads(s)] *)
Definition loads {R : Runtime} (s : pystr) : decoded :=
  let s0 := skip_ws s in
  match parse (fuel_for s0) recursion_room MValue s0 with
  | Good v r =>
      match skip_ws r with
      | [] => Value v
      | _ :: _ => JSONDecodeError
      end
  | Bad => JSONDecodeError
  | NoFuel => JSONDecodeError
  | Stop e => Other e
  end.

End Json.

(* ================================================================= *)
(** ** [random.sample], [collections.Counter], [round] *)

(** [l[j] = x]; out of range is never reached by the callers below. *)
Fixpoint list_set {A} (l : list A) (j : nat) (x : A) : list A :=
  match l, j with
  | [], _ => []
  | _ :: r, O => x :: r
  | a :: r, S j' => a :: list_set r j' x
  end.

(** The loop of [random.sample] for a population of at most 21
    elements: [j = randbelow(n - i); result[i] = pool[j];
    pool[j] = pool[n - i - 1]].  The generator is a stream of raw
    draws, [rnd i] being reduced modulo the bound of the [i]-th call. *)
Fixpoint sample_loop {A} (rnd : nat -> nat) (n i steps : nat) (pool : list A)
  : list A :=
  match steps with
  | O => []
  | S steps' =>
      let j := rnd i mod (n - i) in
      match nth_error pool j, nth_error pool (n - i - 1) with
      | Some x, Some y =>
          x :: sample_loop rnd n (S i) steps' (list_set pool j y)
      | _, _ => []
      end
  end.

(** [random.sample(population, k)] *)
Definition random_sample {A} (rnd : nat -> nat) (population : list A) (k : Z)
  : result (list A) :=
  let n := length population in
  if ((0 <=? k) && (k <=? Z.of_nat n))%Z
  then Ok (sample_loop rnd n 0 (Z.to_nat k) population)
  else Raise ValueError.

(** [cnt[key] += 1] *)
Fixpoint counter_incr (cnt : list (pystr * nat)) (key : pystr)
  : list (pystr * nat) :=
  match cnt with
  | [] => [(key, 1)]
  | (k, n) :: r =>
      if str_eqb k key then (k, S n) :: r else (k, n) :: counter_incr r key
  end.

(** [Counter(votes)] *)
Definition Counter (votes : list pystr) : list (pystr * nat) :=
  fold_left counter_incr votes [].

(** [max(items, key=itemgetter(1))]: a later item replaces the best
    one only when its count is strictly larger. *)
Fixpoint max_item (best : pystr * nat) (items : list (pystr * nat))
  : pystr * nat :=
  match items with
  | [] => best
  | it :: r => if snd best <? snd it then max_item it r else max_item best r
  end.

(** [cnt.most_common(1)], which is [heapq.nlargest(1, ...)], which is
    [max] over the items in insertion order. *)
Definition most_common_1 (cnt : list (pystr * nat)) : list (pystr * nat) :=
  match cnt with
  | [] => []
  | it :: r => [max_item it r]
  end.

(** Rounding to the nearest integer, halves to the even neighbour. *)
Definition round_half_even (q : Q) : Z :=
  let f := Qfloor q in
  match Qcompare (q - inject_Z f)%Q (1 # 2)%Q with
  | Lt => f
  | Gt => (f + 1)%Z
  | Eq => if Z.even f then f else (f + 1)%Z
  end.

(** [round(x, 2)].  A Python float is modelled by the rational it
    approximates. *)
Definition round2 (q : Q) : Q := Qmake (round_half_even (q * 100)%Q) 100.

(** [lst[:k]] *)
Definition slice_to {A} (l : list A) (k : Z) : list A :=
  if (0 <=? k)%Z then firstn (Z.to_nat k) l
  else firstn (length l - Z.to_nat (- k)) l.

(* ================================================================= *)
(** ** [jury.py] *)

Local Open Scope string_scope.
Local Open Scope list_scope.

Definition LEGAL_PERSONAS : list (pystr * pystr) :=
  [ (str "The Strict Textualist",
     str "You are a Strict Textualist following the motto that the text is the law. Analyze provided evidence only. Do not use outside knowledge. If evidence does not explicitly state the answer, reject the option. Catch 'hallucinations' where the model invents rules not found in text.");
    (str "The Devil's Advocate",
     str "You are a Devil's Advocate. Your goal is to find loopholes in the argument. Look for exceptions, loopholes, or missing conditions in evidence. Be highly skeptical. If an answer looks too simple, check for missing conditions.");
    (str "The Equity Advocate",
     str "You are an Equity Advocate. You view law as a tool for fairness. In housing/tort cases, consider the vulnerable party for e.g., the tenant. Interpret ambiguities to prevent unjust outcomes for the vulnerable party.");
    (str "The Legal Realist",
     str "You are a Legal Realist (Pragmatist). You care about practical consequences. If literal text leads to absurd results, reject it. Choose the option that represents a workable, sensible application of rules.");
    (str "The Precedent Loyalist",
     str "You are a Precedent Loyalist. You care about consistency. Compare facts in 'Question' strictly against facts in 'Evidence' (Case Law). If facts don't match, the rule does not apply. Prevent false analogies.") ].

(** One entry of [juror_deliberations]. *)
Record Ballot : Type := {
  persona : pystr;
  vote : option pystr;
  reasoning : pystr
}.

(** The dict [synthesize] returns. *)
Record Verdict : Type := {
  final_verdict : option pystr;
  confidence : Q;
  vote_breakdown : list (pystr * nat);
  juror_deliberations : list Ballot
}.

(** What one call of the predictor does inside the [try]: it raises
    (also when [pred.vote] is not a string), or it answers with a
    reasoning and a raw vote. *)
Inductive outcome : Type :=
| Raised
| Answered (reasoning raw_vote : pystr).

(** [predictor(persona_description, question, options, evidence)] *)
Definition LM : Type := pystr -> pystr -> pystr -> pystr -> outcome.

Section Jury.
Context {R : Runtime}.

(** The text shown for one evidence element (lines 85-95). *)
Definition evidence_content (ev : pyval) : result pyval :=
  match ev with
  | PStr s =>
      match Json.loads s with
      | Json.JSONDecodeError => Ok (PStr s)
      | Json.Value (PDict d) => Ok (dict_get d (str "contents") (PStr s))
      | Json.Value _ => Raise AttributeError
      | Json.Other e => Raise e
      end
  | PDict d =>
      Ok (dict_get d (str "contents")
            (dict_get d (str "text") (PStr (py_str ev))))
  | _ => Ok (PStr [])
  end.

(** The body of the formatting loop for the element of index [i]. *)
Definition document_line (i : nat) (content : pyval) : pystr :=
  str "[Document " ++ decimal (i + 1) ++ str "] " ++ py_str content ++ [newline].

Fixpoint format_evidence_from (i : nat) (evidence_list : list pyval)
    (evidence_text : pystr) : result pystr :=
  match evidence_list with
  | [] => Ok evidence_text
  | ev :: rest =>
      content <- evidence_content ev ;;
      format_evidence_from (S i) rest (evidence_text ++ document_line i content)
  end.

Definition format_evidence (evidence_list : list pyval) : result pystr :=
  format_evidence_from 0 evidence_list (newline :: str " Evidence - ").

Definition format_options (choices : list (pystr * pystr)) : pystr :=
  join [newline] (map (fun kv => fst kv ++ str ": " ++ snd kv) choices).

(** [for char in raw_vote: if char in choices: ...; break] *)
Fixpoint first_valid (choices : list (pystr * pystr)) (raw_vote : pystr)
  : option pystr :=
  match raw_vote with
  | [] => None
  | c :: r => if dict_mem choices [c] then Some [c] else first_valid choices r
  end.

(** Lines 127-134. *)
Definition extract_vote (choices : list (pystr * pystr)) (vote_text : pystr)
  : option pystr :=
  first_valid choices (upper (strip vote_text)).

(** One turn of the deliberation loop on the state [(votes, logs)]. *)
Definition juror_turn (lm : LM) (question options_text evidence_text : pystr)
    (choices : list (pystr * pystr))
    (st : list pystr * list Ballot) (name : pystr)
  : result (list pystr * list Ballot) :=
  match dict_lookup LEGAL_PERSONAS name with
  | None => Raise KeyError
  | Some desc =>
      match lm desc question options_text evidence_text with
      | Raised => Ok st
      | Answered why raw =>
          let clean_vote := extract_vote choices raw in
          let votes :=
            match clean_vote with
            | Some v => fst st ++ [v]
            | None => fst st
            end in
          Ok (votes,
              snd st ++ [{| persona := name; vote := clean_vote; reasoning := why |}])
      end
  end.

Fixpoint deliberate (lm : LM) (question options_text evidence_text : pystr)
    (choices : list (pystr * pystr))
    (selected_names : list pystr) (st : list pystr * list Ballot)
  : result (list pystr * list Ballot) :=
  match selected_names with
  | [] => Ok st
  | name :: rest =>
      st' <- juror_turn lm question options_text evidence_text choices st name ;;
      deliberate lm question options_text evidence_text choices rest st'
  end.

(** Lines 149-166. *)
Definition tally (votes : list pystr) (logs : list Ballot) : result Verdict :=
  match votes with
  | [] =>
      Ok {| final_verdict := None; confidence := 0%Q;
            vote_breakdown := []; juror_deliberations := logs |}
  | _ :: _ =>
      let vote_counts := Counter votes in
      match most_common_1 vote_counts with
      | [] => Raise IndexError
      | (winner, win_count) :: _ =>
          let conf := Qmake (Z.of_nat win_count) (Pos.of_nat (length votes)) in
          Ok {| final_verdict := Some winner; confidence := round2 conf;
                vote_breakdown := vote_counts; juror_deliberations := logs |}
      end
  end.

(** The jury selection, lines 102-104. *)
Definition select_jury (rnd : nat -> nat) (num_arbiters : Z)
  : result (list pystr) :=
  let available_keys := map fst LEGAL_PERSONAS in
  let k := Z.min num_arbiters (Z.of_nat (length available_keys)) in
  random_sample rnd available_keys k.

(** [Jury.synthesize].  The two [print] calls and the construction of
    the predictor have no part in the result and are left out. *)
Definition synthesize (lm : LM) (rnd : nat -> nat)
    (question : pystr) (choices : list (pystr * pystr))
    (evidence_list : list pyval) (num_arbiters : Z) : result Verdict :=
  evidence_text <- format_evidence evidence_list ;;
  let options_text := format_options choices in
  selected_names <- select_jury rnd num_arbiters ;;
  st <- deliberate lm question options_text evidence_text choices
          selected_names ([], []) ;;
  tally (fst st) (snd st).

End Jury.

(* ================================================================= *)
(** ** [advocate.py] *)

(** [self.react_agent(hypothesis=...)] followed by [prediction.evidence]:
    [None] when either raises. *)
Definition ReAct : Type := pystr -> option pyval.

(** The one attribute of the agent that [retrieve] reads. *)
Record AdvocateAgent : Type := {
  react_agent : option ReAct
}.

Section Advocate.
Context {R : Runtime}.

Definition is_blank (p : pystr) : bool :=
  match strip p with
  | [] => true
  | _ :: _ => false
  end.

(** Lines 164-169. *)
Definition passages_of (evidence_text : pyval) : list pyval :=
  match evidence_text with
  | PStr s => map PStr (filter (fun p => negb (is_blank p)) (split_on newline s))
  | PList l => l
  | other => [PStr (py_str other)]
  end.

Definition evidence_item (p : pyval) : pyval :=
  PDict [ (str "text", p);
          (str "source", PStr (str "dspy_react"));
          (str "score", PFloat (FNum 1)) ].

(** [AdvocateAgent.retrieve]; every exception raised inside the [try]
    is caught there, so the result is always a list. *)
Definition retrieve (self : AdvocateAgent) (hypothesis : pystr) (k : Z)
  : list pyval :=
  match react_agent self with
  | None => []
  | Some agent =>
      match agent hypothesis with
      | None => []
      | Some evidence_text =>
          map evidence_item (slice_to (passages_of evidence_text) k)
      end
  end.

End Advocate.

(* ================================================================= *)
(** ** The retrieval tools of [advocate.py] *)

(** What the body of a tool's [try] block observes: the search (or
    reading a hit) raises an exception with some text, or it gives the
    texts of the hits. *)
Inductive search_outcome : Type :=
| SearchRaised (message : pystr)
| SearchHits (texts : list pystr).

(** [searcher.search(query, k=3)] with the text of every hit read. *)
Definition Searcher : Type := pystr -> Z -> search_outcome.

(** [text[:300]] followed by the dots, under the tool's tag. *)
Definition tagged_preview (tag text : pystr) : pystr :=
  tag ++ firstn 300 text ++ str "...".

(** [AdvocateAgent._bm25_tool], given [self.bm25_searcher]. *)
Definition _bm25_tool (bm25_searcher : option Searcher) (query : pystr) : pystr :=
  match bm25_searcher with
  | None => str "BM25 search not available."
  | Some searcher =>
      match searcher query 3%Z with
      | SearchHits hits =>
          join [newline; newline] (map (tagged_preview (str "[BM25] ")) hits)
      | SearchRaised e => str "Error in BM25 search: " ++ e
      end
  end.

(** [AdvocateAgent._dense_tool], given [self.rag_indexer]. *)
Definition _dense_tool (rag_indexer : option Searcher) (query : pystr) : pystr :=
  match rag_indexer with
  | None => str "Dense search not available."
  | Some indexer =>
      match indexer query 3%Z with
      | SearchHits results =>
          join [newline; newline] (map (tagged_preview (str "[Dense] ")) results)
      | SearchRaised e => str "Error in Dense search: " ++ e
      end
  end.

(* ================================================================= *)
(** ** [json.dumps] and writing text

    The encoder of the standard library as the baseline script calls
    it ([ensure_ascii=False], no indentation): the separators are a
    comma and a space between items and a colon and a space after a
    key; a string is quoted, with the quote, the backslash and the
    control characters below U+0020 escaped and every other character
    kept; an [int] is printed in decimal; a finite float is printed
    by [float.__repr__], a table of the runtime. *)

(** One hexadecimal digit, in lower case. *)
Definition hex_char (d : N) : N :=
  if (d <? 10)%N then (48 + d)%N else (87 + d)%N.

(** [ESCAPE_DCT] of [json.encoder], completed by the identity. *)
Definition escape_char (c : N) : pystr :=
  if (c =? 34)%N then [92; 34]%N
  else if (c =? 92)%N then [92; 92]%N
  else if (c =? 10)%N then [92; 110]%N
  else if (c =? 13)%N then [92; 114]%N
  else if (c =? 9)%N then [92; 116]%N
  else if (c =? 8)%N then [92; 98]%N
  else if (c =? 12)%N then [92; 102]%N
  else if (c <? 32)%N then
    [92; 117; 48; 48; hex_char (c / 16); hex_char (c mod 16)]%N
  else [c].

(** [encode_basestring] *)
Definition encode_basestring (s : pystr) : pystr :=
  dquote :: flat_map escape_char s ++ [dquote].

(** [int.__repr__] *)
Definition decimal_Z (z : Z) : pystr :=
  if (z <? 0)%Z then 45%N :: decimal (Z.to_nat (- z)) else decimal (Z.to_nat z).

Section Encoder.
Context {R : Runtime}.

(** [json.dumps(v, ensure_ascii=False)] *)
Fixpoint dumps (v : pyval) : pystr :=
  match v with
  | PNone => str "null"
  | PBool true => str "true"
  | PBool false => str "false"
  | PInt z => decimal_Z z
  | PFloat FNaN => str "NaN"
  | PFloat (FInf false) => str "Infinity"
  | PFloat (FInf true) => str "-Infinity"
  | PFloat (FNum _) => py_repr v
  | PStr s => encode_basestring s
  | PList l => str "[" ++ join (str ", ") (map dumps l) ++ str "]"
  | PDict d =>
      str "{"
      ++ join (str ", ")
           (map (fun kv => match kv with
                           | (k, x) => encode_basestring k ++ str ": " ++ dumps x
                           end) d)
      ++ str "}"
  end.

End Encoder.

(** A code point that UTF-8 refuses to encode. *)
Definition is_surrogate (c : N) : bool := ((55296 <=? c) && (c <=? 57343))%N.

(** Whether [f.write(text)] on a file opened with [encoding="utf-8"]
    goes through; otherwise it raises [UnicodeEncodeError] and writes
    nothing.  The text of the file is kept as code points, a line
    break being the single character it is on POSIX. *)
Definition utf8_encodable (text : pystr) : bool :=
  forallb (fun c => negb (is_surrogate c)) text.

(* ================================================================= *)
(** ** [baseline_barexam_qa_openrouter.py] *)

(** What the [try] block of [query] observes of the network:
    [requests.post], [raise_for_status] or [response.json] raises an
    exception with some text, or the decoded body comes back. *)
Inductive http_outcome : Type :=
| HttpRaised (message : pystr)
| HttpJson (data : pyval).

(** The service, queried with the question put in the payload. *)
Definition Api : Type := pyval -> http_outcome.

(** A row of the dataset. *)
Definition Row : Type := list (pystr * pyval).

(** What the script has built so far: the list [results] and the text
    of [OUTPUT_FILE]. *)
Record Session : Type := {
  results : list pyval;
  output_file : pystr
}.

Section Baseline.
Context {R : Runtime}.

(** The text of the exception that reading the answer out of a body
    raises, as [str(e)] gives it. *)
Variable exception_text : pyval -> pystr.

(** [v[key]] for a string key; [None] when it raises. *)
Definition subscript (v : pyval) (key : pystr) : option pyval :=
  match v with
  | PDict d => dict_lookup d key
  | _ => None
  end.

(** [v[0]]; [None] when it raises. *)
Definition first_item (v : pyval) : option pyval :=
  match v with
  | PList (x :: _) => Some x
  | PStr (c :: _) => Some (PStr [c])
  | _ => None
  end.

(** [data["choices"][0]["message"]["content"].strip()]; [None] when
    one of the steps raises. *)
Definition answer_of (data : pyval) : option pystr :=
  match subscript data (str "choices") with
  | None => None
  | Some choices =>
      match first_item choices with
      | None => None
      | Some choice =>
          match subscript choice (str "message") with
          | None => None
          | Some message =>
              match subscript message (str "content") with
              | Some (PStr content) => Some (strip content)
              | _ => None
              end
          end
      end
  end.

(** [query]: the answer of the model, or a text that starts with
    "Error: ".  Printing the payload, the first statement of the
    [try] block, has no part in the result. *)
Definition query (api : Api) (question : pyval) : pystr :=
  match api question with
  | HttpRaised e => str "Error: " ++ e
  | HttpJson data =>
      match answer_of data with
      | Some answer => answer
      | None => str "Error: " ++ exception_text data
      end
  end.

(** The dict [result] of one turn of the loop. *)
Definition result_of (i : nat) (row : Row) (model_response : pystr) : pyval :=
  PDict [ (str "id", PInt (Z.of_nat i));
          (str "question", dict_get row (str "question") (PStr []));
          (str "gold_answer", dict_get row (str "answer") (PStr []));
          (str "model_response", PStr model_response) ].

(** The loop over the dataset from row [i] on, [api i] being the
    service at the time of the [i]-th call.  It runs to the end
    ([None]), or the write of some row raises ([Some] of its index)
    and the script stops there.  The progress bar and the pause
    between two rows are left out. *)
Fixpoint main_loop (api : nat -> Api) (i : nat) (rows : list Row) (st : Session)
  : Session * option nat :=
  match rows with
  | [] => (st, None)
  | row :: rest =>
      let question := dict_get row (str "question") (PStr []) in
      let model_response := query (api i) question in
      let result := result_of i row model_response in
      let results' := results st ++ [result] in
      let line := dumps result ++ [newline] in
      if utf8_encodable line
      then main_loop api (S i) rest
             {| results := results'; output_file := output_file st ++ line |}
      else ({| results := results'; output_file := output_file st |}, Some i)
  end.

End Baseline.

(* ================================================================= *)
(** ** Vocabulary of the properties *)

(** How many ballots were cast for [key]. *)
Definition count_of (key : pystr) (votes : list pystr) : nat :=
  length (filter (str_eqb key) votes).

(** The distinct votes, in the order of their first appearance. *)
Fixpoint first_occ (votes : list pystr) : list pystr :=
  match votes with
  | [] => []
  | v :: r => v :: filter (fun k => negb (str_eqb v k)) (first_occ r)
  end.

(** Position of the first ballot cast for [key] (the number of ballots
    when there is none). *)
Fixpoint index_of (key : pystr) (votes : list pystr) : nat :=
  match votes with
  | [] => 0
  | v :: r => if str_eqb v key then 0 else S (index_of key r)
  end.

(** The non-empty votes of a transcript, in ballot order. *)
Definition votes_of (logs : list Ballot) : list pystr :=
  flat_map (fun b => match vote b with Some v => [v] | None => [] end) logs.

Section EvidenceExceptions.
Context {R : Runtime}.

(** The exception that lines 89 and 90 raise on an evidence element,
    if any: what [json.loads] raises other than [JSONDecodeError],
    or [AttributeError] when the text decodes to JSON that is not an
    object. *)
Definition evidence_exception (ev : pyval) : option exn :=
  match ev with
  | PStr s =>
      match Json.loads s with
      | Json.Value (PDict _) => None
      | Json.Value _ => Some AttributeError
      | Json.JSONDecodeError => None
      | Json.Other e => Some e
      end
  | _ => None
  end.

(** The first exception met along the evidence list. *)
Fixpoint first_exception (evidence_list : list pyval) : option exn :=
  match evidence_list with
  | [] => None
  | ev :: rest =>
      match evidence_exception ev with
      | Some e => Some e
      | None => first_exception rest
      end
  end.

End EvidenceExceptions.

(** Whether a ballot carries a vote. *)
Definition has_vote (b : Ballot) : bool :=
  match vote b with
  | Some _ => true
  | None => false
  end.

Section Survivors.
Context {R : Runtime}.

(** The ballot a selected persona contributes: none when its predictor
    call raises. *)
Definition juror_ballot (lm : LM) (question options_text evidence_text : pystr)
    (choices : list (pystr * pystr)) (name : pystr) : list Ballot :=
  match dict_lookup LEGAL_PERSONAS name with
  | Some desc =>
      match lm desc question options_text evidence_text with
      | Answered why raw =>
          [{| persona := name; vote := extract_vote choices raw; reasoning := why |}]
      | Raised => []
      end
  | None => []
  end.

(** Whether the predictor call for a persona raises. *)
Definition juror_fails (lm : LM) (question options_text evidence_text : pystr)
    (name : pystr) : bool :=
  match dict_lookup LEGAL_PERSONAS name with
  | Some desc =>
      match lm desc question options_text evidence_text with
      | Raised => true
      | Answered _ _ => false
      end
  | None => false
  end.

End Survivors.

(** What may follow a value inside a JSON text: nothing, a comma, a
    closing bracket or a closing brace. *)
Definition closes (rest : pystr) : Prop :=
  match rest with
  | [] => True
  | c :: _ => c = 44%N \/ c = 93%N \/ c = 125%N
  end.

(** Keys that are pairwise different. *)
Fixpoint distinct_keys (keys : list pystr) : bool :=
  match keys with
  | [] => true
  | k :: rest => negb (existsb (str_eqb k) rest) && distinct_keys rest
  end.

(** Data in which no dict repeats a key and no finite float occurs
    (the text of a finite float is left to the runtime). *)
Fixpoint json_data (v : pyval) : bool :=
  match v with
  | PFloat (FNum _) => false
  | PList l => forallb json_data l
  | PDict d =>
      distinct_keys (map fst d)
      && forallb (fun kv => match kv with (_, x) => json_data x end) d
  | _ => true
  end.

(** Data that [json.loads] takes back: every integer has no more
    digits than the interpreter converts, and the containers are
    nested no deeper than [room]. *)
Fixpoint readable {R : Runtime} (room : nat) (v : pyval) {struct v} : bool :=
  match v with
  | PInt z => negb (Json.refused (length (decimal (Z.abs_nat z))))
  | PList l =>
      match room with
      | O => false
      | S room' => forallb (readable room') l
      end
  | PDict d =>
      match room with
      | O => false
      | S room' =>
          forallb (fun kv => match kv with (_, x) => readable room' x end) d
      end
  | _ => true
  end.

(** Whether [str] returns on an evidence element that is a mapping,
    which line 94 prints before it looks for the keys.  Like the
    decoder, [str] raises [ValueError] on an integer of more digits
    than the interpreter converts and [RecursionError] on containers
    nested too deep, and it has more room than the decoder has.  An
    element that is a string always prints, and so does what was
    decoded from it. *)
Definition prints {R : Runtime} (ev : pyval) : bool :=
  match ev with
  | PDict _ => readable recursion_room ev
  | _ => true
  end.

(** The rows whose question and answer are such data. *)
Definition row_data (row : Row) : bool :=
  json_data (dict_get row (str "question") (PStr []))
  && json_data (dict_get row (str "answer") (PStr [])).

(** A body of the shape the script reads: an object whose [choices]
    is a list that starts with an object whose [message] is an
    object whose [content] is the string [content]. *)
Definition chat_body (data : pyval) (content : pystr) : Prop :=
  exists d choice others message,
    data = PDict d /\
    dict_lookup d (str "choices") = Some (PList (PDict choice :: others)) /\
    dict_lookup choice (str "message") = Some (PDict message) /\
    dict_lookup message (str "content") = Some (PStr content).

Section BaselineRecords.
Context {R : Runtime}.
Variable exception_text : pyval -> pystr.

(** The dicts the loop builds for [rows], the first of them numbered
    [i]. *)
Fixpoint records_from (api : nat -> Api) (i : nat) (rows : list Row)
  : list pyval :=
  match rows with
  | [] => []
  | row :: rest =>
      result_of i row
        (query exception_text (api i) (dict_get row (str "question") (PStr [])))
      :: records_from api (S i) rest
  end.

(** The line of a record in [OUTPUT_FILE]. *)
Definition line_of (record : pyval) : pystr := dumps record ++ [newline].

End BaselineRecords.

(* ================================================================= *)
(** ** A runtime and collaborators to run the model on *)

(** A runtime whose two tables are the identity and a fixed text (the
    ASCII inputs below never consult either), with the default limit
    on the digits of an integer and room for 900 nested containers. *)
Definition plain_runtime : Runtime :=
  {| unicode_upper := fun c => [c];
     py_repr := fun _ => str "<object>";
     int_max_str_digits := 4300;
     recursion_room := 900 |}.

(** The choices of the two mock trials: keys A to D. *)
Definition abcd : list (pystr * pystr) :=
  [ (str "A", str "Involuntary manslaughter");
    (str "B", str "Voluntary manslaughter");
    (str "C", str "Murder");
    (str "D", str "None of the above") ].

(** A generator whose raw draws are 0, 1, 2, ... *)
Definition counting_rnd : nat -> nat := fun i => i.

(** A predictor scripted by the 11th character of the persona
    description: the textualist ("S") votes "B", the devil's advocate
    ("D") answers "  b) because...", the equity advocate (the space
    after "an") votes "A", the precedent loyalist ("P") answers
    "Not sure", and the call for the legal realist ("L") raises. *)
Definition scripted_lm : LM :=
  fun desc _ _ _ =>
    match skipn 10 desc with
    | c :: _ =>
        if (c =? 83)%N then Answered (str "the text says so") (str "B")
        else if (c =? 68)%N then
          Answered (str "no loophole found") (str "  b) because..." ++ [newline])
        else if (c =? 32)%N then Answered (str "fairness") (str "A")
        else if (c =? 80)%N then Answered (str "facts differ") (str "Not sure")
        else Raised
    | [] => Raised
    end.

(** A predictor that always answers with the same raw vote. *)
Definition constant_lm (raw : pystr) : LM :=
  fun _ _ _ _ => Answered (str "because") raw.




(** The JSON text of an object with one string member, as the dataset
    stores a passage. *)
Definition json_object_1 (key value : pystr) : pystr :=
  str "{" ++ [dquote] ++ key ++ [dquote] ++ str ": "
  ++ [dquote] ++ value ++ [dquote] ++ str "}".

(** A ReAct agent that returns a block of three passages separated by
    newlines, with a blank line in between. *)
Definition block_agent : ReAct :=
  fun _ =>
    Some (PStr (str "first passage" ++ [newline] ++ str "   " ++ [newline]
                ++ str "second passage" ++ [newline] ++ str "third passage")).

(** The inputs of the trials below. *)
Definition trial_question : pystr := str "Which crime?".
Definition trial_evidence : list pyval := [PStr (str "a passage")].


(** What [synthesize] returns, or the no-votes verdict when it raises. *)
Definition verdict_or_empty (r : result Verdict) : Verdict :=
  match r with
  | Ok v => v
  | Raise _ =>
      {| final_verdict := None; confidence := 0%Q;
         vote_breakdown := []; juror_deliberations := [] |}
  end.

(** The evidence block of the trials. *)
Definition trial_evidence_text : pystr :=
  Eval vm_compute in
    match format_evidence (R := plain_runtime) trial_evidence with
    | Ok t => t
    | Raise _ => []
    end.

(** The verdict of a trial of three jurors with [scripted_lm]. *)
Definition scripted_verdict : Verdict :=
  Eval vm_compute in
    verdict_or_empty
      (synthesize (R := plain_runtime) scripted_lm counting_rnd
         trial_question abcd trial_evidence 3).

(** The jury drawn for five arbiters, and for two. *)
Definition jury_of_five : list pystr :=
  Eval vm_compute in
    match select_jury counting_rnd 5 with
    | Ok names => names
    | Raise _ => []
    end.

Definition jury_of_two : list pystr :=
  Eval vm_compute in
    match select_jury counting_rnd 2 with
    | Ok names => names
    | Raise _ => []
    end.

(** A body of the shape of a chat completion with one choice. *)
Definition chat_completion (content : pystr) : pyval :=
  PDict [ (str "id", PStr (str "gen-1"));
          (str "choices",
           PList [ PDict [ (str "index", PInt 0);
                           (str "message",
                            PDict [ (str "role", PStr (str "assistant"));
                                    (str "content", PStr content) ]) ] ]) ].

(** A service that answers the first call, times out on the second
    and answers the later ones with a text that holds a lone
    surrogate. *)
Definition flaky_api : nat -> Api :=
  fun i _ =>
    match i with
    | 0 => HttpJson (chat_completion (str "  The answer is B." ++ [newline]))
    | 1 => HttpRaised (str "Read timed out.")
    | _ => HttpJson (chat_completion (str "C " ++ [55357%N]))
    end.

(** Rows of the dataset; the question of the second one spans two
    lines. *)
Definition bar_rows : list Row :=
  [ [ (str "question", PStr (str "Is the contract void?"));
      (str "answer", PStr (str "B")) ];
    [ (str "question", PStr (str "Who prevails?" ++ [newline] ++ str "Explain."));
      (str "answer", PStr (str "A")) ];
    [ (str "question", PStr (str "Which crime?"));
      (str "answer", PStr (str "C")) ] ].

(** The text of the exception raised on a body of another shape. *)
Definition key_error_text : pyval -> pystr := fun _ => str "'choices'".

(** The script before its first row: nothing collected, and a file
    left by an earlier run. *)
Definition fresh_session : Session :=
  {| results := []; output_file := str "{}" ++ [newline] |}.

(* ================================================================= *)
(** * Properties *)

Local Close Scope string_scope.

(** ** Text and dicts *)

Lemma str_eqb_eq (a b : pystr) : str_eqb a b = true <-> a = b.
Proof.
  revert b; induction a as [|x a IH]; intros [|y b]; simpl; split;
    try discriminate; try reflexivity.
  - rewrite andb_true_iff, N.eqb_eq, IH. intros [-> ->]. reflexivity.
  - intros [= -> ->]. rewrite N.eqb_refl. simpl. apply IH. reflexivity.
Qed.

Lemma str_eqb_refl (a : pystr) : str_eqb a a = true.
Proof. apply str_eqb_eq. reflexivity. Qed.

Lemma str_eqb_neq (a b : pystr) : str_eqb a b = false <-> a <> b.
Proof.
  rewrite <- str_eqb_eq. destruct (str_eqb a b); split; congruence.
Qed.

Lemma dict_lookup_In {V} (d : list (pystr * V)) key v :
  dict_lookup d key = Some v -> In (key, v) d.
Proof.
  induction d as [|[k w] d IH]; simpl; [discriminate|].
  destruct (str_eqb k key) eqn:E.
  - apply str_eqb_eq in E. intros [= ->]. left. congruence.
  - intros H. right. auto.
Qed.

Lemma dict_mem_key {V} (d : list (pystr * V)) key :
  dict_mem d key = true <-> In key (map fst d).
Proof.
  unfold dict_mem. induction d as [|[k w] d IH]; simpl.
  - split; [discriminate | tauto].
  - destruct (str_eqb k key) eqn:E.
    + apply str_eqb_eq in E. tauto.
    + apply str_eqb_neq in E. rewrite IH. tauto.
Qed.

Lemma dict_lookup_key {V} (d : list (pystr * V)) key :
  In key (map fst d) -> exists v, dict_lookup d key = Some v.
Proof.
  intros H. apply dict_mem_key in H. unfold dict_mem in H.
  destruct (dict_lookup d key) as [v|]; [eauto | discriminate].
Qed.

(** ** The decoder never runs out of fuel *)

Section DecoderFuel.
Context {R : Runtime}.
Import Json.

Lemma skip_ws_length s : length (skip_ws s) <= length s.
Proof.
  induction s as [|c r IH]; simpl; [lia|].
  destruct (is_json_ws c); simpl; lia.
Qed.

Lemma strip_prefix_rest p : forall s r,
  strip_prefix p s = Some r -> length r <= length s.
Proof.
  induction p as [|x p IH]; intros [|y s] r; simpl; try discriminate.
  - intros [= <-]. simpl. lia.
  - intros [= <-]. simpl. lia.
  - destruct (N.eqb x y); [|discriminate]. intros H. apply IH in H. lia.
Qed.

Lemma span_digits_rest s : length (snd (span_digits s)) <= length s.
Proof.
  induction s as [|c r IH]; simpl; [lia|].
  destruct (is_digit c); simpl; [|lia].
  destruct (span_digits r); simpl in *. lia.
Qed.

Lemma scan_int_part_rest s ds r :
  scan_int_part s = Some (ds, r) -> length r <= length s.
Proof.
  destruct s as [|c s']; simpl; [discriminate|].
  destruct (c =? 48)%N; [intros [= _ <-]; lia|].
  destruct (is_digit c); [|discriminate].
  pose proof (span_digits_rest s') as H.
  destruct (span_digits s'); simpl in *. intros [= _ <-]. lia.
Qed.

Lemma scan_frac_rest s ds r :
  scan_frac s = Some (ds, r) -> length r <= length s.
Proof.
  destruct s as [|c s']; simpl; [discriminate|].
  destruct (c =? 46)%N; [|discriminate].
  pose proof (span_digits_rest s') as H.
  destruct (span_digits s') as [[|d ds'] rest]; [discriminate|].
  simpl in *. intros [= _ <-]. lia.
Qed.

Lemma scan_exp_rest s z r :
  scan_exp s = Some (z, r) -> length r <= length s.
Proof.
  destruct s as [|c s']; simpl; [discriminate|].
  destruct ((c =? 101) || (c =? 69))%N; [|discriminate].
  destruct s' as [|sg s'']; simpl; [discriminate|].
  destruct (sg =? 45)%N.
  - pose proof (span_digits_rest s'') as H.
    destruct (span_digits s'') as [[|d ds'] rest]; [discriminate|].
    simpl in *. intros [= _ <-]. lia.
  - destruct (sg =? 43)%N.
    + pose proof (span_digits_rest s'') as H.
      destruct (span_digits s'') as [[|d ds'] rest]; [discriminate|].
      simpl in *. intros [= _ <-]. lia.
    + pose proof (span_digits_rest (sg :: s'')) as H.
      destruct (span_digits (sg :: s'')) as [[|d ds'] rest]; [discriminate|].
      simpl in *. intros [= _ <-]. lia.
Qed.

Lemma scan_number_rest s v r :
  scan_number s = Some (v, r) -> length r <= length s.
Proof.
  unfold scan_number.
  set (p := match s with
            | [] => (false, s)
            | c :: r0 => if (c =? 45)%N then (true, r0) else (false, s)
            end).
  assert (Hp : length (snd p) <= length s).
  { subst p. destruct s as [|c r0]; simpl; [lia|].
    destruct (c =? 45)%N; simpl; lia. }
  destruct p as [neg s1]. simpl in Hp.
  destruct (scan_int_part s1) as [[ids r1]|] eqn:Ei; [|discriminate].
  apply scan_int_part_rest in Ei.
  destruct (scan_frac r1) as [[fds r2]|] eqn:Ef.
  - apply scan_frac_rest in Ef.
    destruct (scan_exp r2) as [[ex r3]|] eqn:Ee.
    + apply scan_exp_rest in Ee. simpl. intros [= _ <-]. lia.
    + simpl. intros [= _ <-]. lia.
  - destruct (scan_exp r1) as [[ex r3]|] eqn:Ee.
    + apply scan_exp_rest in Ee. simpl. intros [= _ <-]. lia.
    + simpl. intros [= _ <-]. lia.
Qed.

Lemma scan_atom_rest s v r :
  scan_atom s = Some (v, r) -> length r <= length s.
Proof.
  unfold scan_atom.
  destruct (strip_prefix (str "null") s) eqn:E1.
  { apply strip_prefix_rest in E1. intros [= _ <-]. exact E1. }
  destruct (strip_prefix (str "true") s) eqn:E2.
  { apply strip_prefix_rest in E2. intros [= _ <-]. exact E2. }
  destruct (strip_prefix (str "false") s) eqn:E3.
  { apply strip_prefix_rest in E3. intros [= _ <-]. exact E3. }
  destruct (scan_number s) as [[v' r']|] eqn:E4.
  { apply scan_number_rest in E4. intros [= _ <-]. exact E4. }
  destruct (strip_prefix (str "NaN") s) eqn:E5.
  { apply strip_prefix_rest in E5. intros [= _ <-]. exact E5. }
  destruct (strip_prefix (str "Infinity") s) eqn:E6.
  { apply strip_prefix_rest in E6. intros [= _ <-]. exact E6. }
  destruct (strip_prefix (str "-Infinity") s) eqn:E7.
  { apply strip_prefix_rest in E7. intros [= _ <-]. exact E7. }
  discriminate.
Qed.

(** A string literal ends strictly after where its body starts. *)
Lemma scan_string_rest n : forall s acc t r,
  length s <= n -> scan_string acc s = Some (t, r) -> length r < length s.
Proof.
  induction n as [|n IH]; intros s acc t r Hn H.
  - destruct s; [discriminate | simpl in Hn; lia].
  - destruct s as [|c s']; [discriminate|]. cbn [length] in Hn.
    cbn [scan_string] in H.
    repeat match type of H with
           | context [match hex4 ?a ?b ?c ?d with _ => _ end] =>
               destruct (hex4 a b c d)
           | context [match simple_escape ?e with _ => _ end] =>
               destruct (simple_escape e)
           | context [match ?x with [] => _ | _ :: _ => _ end] =>
               is_var x; destruct x
           | context [if ?b then _ else _] =>
               match type of b with bool => destruct b end
           end;
      try discriminate;
      try (injection H as _ <-; cbn [length]; lia);
      try (apply IH in H; cbn [length] in *; lia).
Qed.

Ltac decoder_step IH H :=
  repeat match type of H with
         | context [match skip_ws ?r with _ => _ end] =>
             let E := fresh "E" in
             pose proof (skip_ws_length r) as E;
             destruct (skip_ws r); cbn [length] in E
         | context [match scan_string ?a ?s with _ => _ end] =>
             let E := fresh "E" in
             destruct (scan_string a s) as [[? ?]|] eqn:E;
             [apply (@scan_string_rest (length s) s) in E; [|lia]|]
         | context [match scan_atom ?s with _ => _ end] =>
             let E := fresh "E" in
             let v0 := fresh "v" in
             destruct (scan_atom s) as [[v0 ?]|] eqn:E;
             [apply scan_atom_rest in E; destruct v0|]
         | context [match parse ?f ?d ?m ?s with _ => _ end] =>
             let E := fresh "E" in
             destruct (parse f d m s) eqn:E; [apply IH in E| | |]
         | context [match ?d with O => _ | S _ => _ end] =>
             is_var d; destruct d
         | context [if ?b then _ else _] =>
             match type of b with bool => destruct b end
         end.

Ltac ws_facts :=
  repeat match goal with
         | H : context [skip_ws ?l] |- _ =>
             lazymatch goal with
             | _ : length (skip_ws l) <= length l |- _ => fail
             | _ => pose proof (skip_ws_length l)
             end
         | |- context [skip_ws ?l] =>
             lazymatch goal with
             | _ : length (skip_ws l) <= length l |- _ => fail
             | _ => pose proof (skip_ws_length l)
             end
         end.

Ltac lengths := ws_facts; cbn [weight length] in *; lia.

(** What is left after a value is no longer than what came before. *)
Lemma parse_rest fuel : forall room m s v r,
  parse fuel room m s = Good v r -> length r <= length s.
Proof.
  induction fuel as [|f IH]; intros room m s v r H; [discriminate|].
  destruct m; cbn [parse] in H;
    [destruct s as [|c s']; [discriminate|] | |];
    decoder_step IH H; try discriminate;
    try (injection H as _ <-; lengths);
    try (apply IH in H; lengths).
Qed.

Ltac fuel_step IH H :=
  repeat match type of H with
         | context [match skip_ws ?r with _ => _ end] =>
             let E := fresh "E" in
             pose proof (skip_ws_length r) as E;
             destruct (skip_ws r); cbn [length] in E
         | context [match scan_string ?a ?s with _ => _ end] =>
             let E := fresh "E" in
             destruct (scan_string a s) as [[? ?]|] eqn:E;
             [apply (@scan_string_rest (length s) s) in E; [|lia]|]
         | context [match scan_atom ?s with _ => _ end] =>
             let v0 := fresh "v" in
             destruct (scan_atom s) as [[v0 ?]|]; [destruct v0|]
         | context [match parse ?f ?d ?m ?s with _ => _ end] =>
             let E := fresh "E" in
             destruct (parse f d m s) eqn:E;
             [apply parse_rest in E | | exfalso; revert E; apply IH |]
         | context [match ?d with O => _ | S _ => _ end] =>
             is_var d; destruct d
         | context [if ?b then _ else _] =>
             match type of b with bool => destruct b end
         end.

(** With more fuel than its weight, [parse] never runs out. *)
Lemma parse_fuel_enough fuel : forall room m s,
  weight m s < fuel -> parse fuel room m s <> NoFuel.
Proof.
  induction fuel as [|f IH]; intros room m s Hw H; [lia|].
  destruct m; cbn [parse] in H;
    [destruct s as [|c s']; [discriminate|] | |];
    fuel_step IH H; try discriminate;
    try lengths;
    try (revert H; apply IH; lengths).
Qed.

(** [json.loads] decides every text: the fuel it gives the decoder is
    never used up. *)
Lemma loads_fuel_enough s :
  parse (fuel_for (skip_ws s)) recursion_room MValue (skip_ws s) <> NoFuel.
Proof. apply parse_fuel_enough. unfold fuel_for, weight. lia. Qed.

End DecoderFuel.

(** ** Vote extraction *)

Section ExtractionFacts.
Context {R : Runtime}.

(** [first_valid] returns the first character that is a key. *)
Lemma first_valid_some choices s v :
  first_valid choices s = Some v <->
  exists pre c post,
    s = pre ++ c :: post /\ v = [c] /\ dict_mem choices [c] = true /\
    Forall (fun x => dict_mem choices [x] = false) pre.
Proof.
  induction s as [|a s IH]; simpl.
  - split; [discriminate|]. intros (pre & c & post & H & _).
    destruct pre; discriminate.
  - destruct (dict_mem choices [a]) eqn:E.
    + split.
      * intros [= <-]. exists [], a, s. auto.
      * intros (pre & c & post & H & -> & Hc & Hpre).
        destruct pre as [|p pre]; simpl in H; injection H as -> ->.
        -- reflexivity.
        -- inversion Hpre; congruence.
    + rewrite IH. split.
      * intros (pre & c & post & -> & -> & Hc & Hpre).
        exists (a :: pre), c, post. auto.
      * intros (pre & c & post & H & -> & Hc & Hpre).
        destruct pre as [|p pre]; simpl in H; injection H as -> ->.
        -- congruence.
        -- inversion Hpre; subst. exists pre, c, post. auto.
Qed.

Lemma first_valid_none choices s :
  first_valid choices s = None <->
  Forall (fun x => dict_mem choices [x] = false) s.
Proof.
  induction s as [|a s IH]; simpl.
  - split; auto.
  - destruct (dict_mem choices [a]) eqn:E.
    + split; [discriminate|]. intros H; inversion H; congruence.
    + rewrite IH. split; intros H; [auto | inversion H; auto].
Qed.

Lemma extract_vote_key choices raw v :
  extract_vote choices raw = Some v -> In v (map fst choices).
Proof.
  unfold extract_vote. intros H. apply first_valid_some in H.
  destruct H as (pre & c & post & _ & -> & Hc & _).
  apply dict_mem_key. exact Hc.
Qed.

Lemma extract_vote_char choices raw v :
  extract_vote choices raw = Some v ->
  exists c, v = [c] /\ In c (upper (strip raw)).
Proof.
  unfold extract_vote. intros H. apply first_valid_some in H.
  destruct H as (pre & c & post & E & -> & _ & _).
  exists c. split; [reflexivity|]. rewrite E. apply in_elt.
Qed.


End ExtractionFacts.

(** ** Sampling without replacement *)

Section SamplingFacts.
Variable A : Type.

Lemma list_set_length (l : list A) j x : length (list_set l j x) = length l.
Proof.
  revert j; induction l as [|a l IH]; intros [|j]; simpl; auto.
Qed.

Lemma firstn_snoc (l : list A) k y :
  nth_error l k = Some y -> firstn (S k) l = firstn k l ++ [y].
Proof.
  revert k; induction l as [|a l IH]; intros [|k]; simpl; try discriminate.
  - intros [= ->]. reflexivity.
  - intros H. f_equal. apply IH. exact H.
Qed.

(** One turn of the loop takes [x = pool[j]] out of the live prefix of
    the pool: the prefix before the turn is [x] plus the prefix after. *)
Lemma pool_turn (pool : list A) j m x y :
  j < m ->
  nth_error pool j = Some x ->
  nth_error pool (m - 1) = Some y ->
  Permutation (firstn m pool) (x :: firstn (m - 1) (list_set pool j y)).
Proof.
  revert j m; induction pool as [|a pool IH]; intros j m Hj Hx Hy.
  - destruct j; discriminate.
  - destruct m as [|m]; [lia|].
    replace (S m - 1) with m in * by lia.
    rewrite firstn_cons.
    destruct j as [|j]; simpl in Hx.
    + injection Hx as ->. simpl list_set.
      destruct m as [|m].
      * apply Permutation_refl.
      * simpl in Hy. rewrite firstn_cons, (firstn_snoc _ _ Hy).
        apply perm_skip. apply Permutation_sym, Permutation_cons_append.
    + destruct m as [|m]; [lia|]. simpl in Hy.
      simpl list_set. rewrite firstn_cons.
      eapply perm_trans; [|apply perm_swap]. apply perm_skip.
      specialize (IH j (S m)). replace (S m - 1) with m in IH by lia.
      apply IH; [lia | exact Hx | exact Hy].
Qed.

Lemma sample_loop_spec (rnd : nat -> nat) n steps :
  forall i (pool : list A),
    length pool = n -> i + steps <= n -> NoDup (firstn (n - i) pool) ->
    let res := sample_loop rnd n i steps pool in
    length res = steps /\ NoDup res /\ incl res (firstn (n - i) pool).
Proof.
  induction steps as [|steps IH]; intros i pool Hlen Hi Hnd; simpl.
  - repeat split; [constructor | intros x []].
  - assert (Hm : 0 < n - i) by lia.
    assert (Hj : rnd i mod (n - i) < n - i) by (apply Nat.mod_upper_bound; lia).
    destruct (nth_error pool (rnd i mod (n - i))) as [x|] eqn:Ex.
    2:{ apply nth_error_None in Ex. lia. }
    destruct (nth_error pool (n - i - 1)) as [y|] eqn:Ey.
    2:{ apply nth_error_None in Ey. lia. }
    pose proof (pool_turn pool Hj Ex Ey) as Hperm.
    assert (Hnd' : NoDup (x :: firstn (n - i - 1) (list_set pool (rnd i mod (n - i)) y))).
    { eapply Permutation_NoDup; [exact Hperm | exact Hnd]. }
    apply NoDup_cons_iff in Hnd' as [Hnotin Hrest].
    destruct (IH (S i) (list_set pool (rnd i mod (n - i)) y)) as (L & N & I).
    + rewrite list_set_length. exact Hlen.
    + lia.
    + replace (n - S i) with (n - i - 1) by lia. exact Hrest.
    + replace (n - S i) with (n - i - 1) in I by lia.
      simpl. repeat split.
      * f_equal. exact L.
      * constructor; [|exact N]. intros Hin. apply Hnotin, I, Hin.
      * intros z [<-|Hz].
        -- eapply Permutation_in; [apply Permutation_sym, Hperm | left; reflexivity].
        -- eapply Permutation_in; [apply Permutation_sym, Hperm | right; apply I, Hz].
Qed.

(** [random.sample] on a population without repeats: [k] distinct
    members when [0 <= k <= n], [ValueError] otherwise. *)
Lemma random_sample_spec (rnd : nat -> nat) (population : list A) (k : Z) :
  NoDup population ->
  (0 <= k <= Z.of_nat (length population))%Z ->
  exists res,
    random_sample rnd population k = Ok res /\
    Z.of_nat (length res) = k /\ NoDup res /\ incl res population.
Proof.
  intros Hnd Hk. unfold random_sample.
  replace ((0 <=? k)%Z && (k <=? Z.of_nat (length population))%Z) with true.
  2:{ symmetry. apply andb_true_iff. split; apply Z.leb_le; lia. }
  destruct (@sample_loop_spec rnd (length population) (Z.to_nat k) 0 population)
    as (L & N & I); [reflexivity | lia | |].
  - rewrite Nat.sub_0_r, firstn_all. exact Hnd.
  - rewrite Nat.sub_0_r, firstn_all in I.
    eexists. split; [reflexivity|]. repeat split; try assumption. lia.
Qed.

Lemma random_sample_negative (rnd : nat -> nat) (population : list A) (k : Z) :
  (k < 0)%Z -> random_sample rnd population k = Raise ValueError.
Proof.
  intros Hk. unfold random_sample.
  replace (0 <=? k)%Z with false; [reflexivity|].
  symmetry. apply Z.leb_gt. exact Hk.
Qed.

End SamplingFacts.

Lemma personas_distinct : NoDup (map fst LEGAL_PERSONAS).
Proof.
  vm_compute. repeat constructor; simpl; intuition discriminate.
Qed.

Lemma personas_count : length LEGAL_PERSONAS = 5.
Proof. reflexivity. Qed.

Lemma select_jury_spec (rnd : nat -> nat) (num_arbiters : Z) :
  (0 <= num_arbiters)%Z ->
  exists names,
    select_jury rnd num_arbiters = Ok names /\
    Z.of_nat (length names) = Z.min num_arbiters 5 /\
    NoDup names /\ incl names (map fst LEGAL_PERSONAS).
Proof.
  intros Hn. unfold select_jury.
  rewrite length_map, personas_count.
  apply random_sample_spec; [apply personas_distinct|].
  rewrite length_map, personas_count. lia.
Qed.

(** ** Counting votes *)

Lemma count_of_app key a b :
  count_of key (a ++ b) = count_of key a + count_of key b.
Proof. unfold count_of. rewrite filter_app, length_app. reflexivity. Qed.

Lemma count_of_single key v :
  count_of key [v] = if str_eqb key v then 1 else 0.
Proof. unfold count_of. simpl. destruct (str_eqb key v); reflexivity. Qed.

Lemma count_of_absent key votes : ~ In key votes -> count_of key votes = 0.
Proof.
  unfold count_of. induction votes as [|v r IH]; simpl; intros H; [reflexivity|].
  destruct (str_eqb key v) eqn:E.
  - apply str_eqb_eq in E. subst. tauto.
  - apply IH. tauto.
Qed.

Lemma count_of_present key votes : In key votes -> 0 < count_of key votes.
Proof.
  unfold count_of. induction votes as [|v r IH]; simpl; intros H; [tauto|].
  destruct (str_eqb key v) eqn:E; simpl; [lia|].
  apply str_eqb_neq in E. destruct H as [H|H]; [congruence | auto].
Qed.

Lemma first_occ_In votes k : In k (first_occ votes) <-> In k votes.
Proof.
  induction votes as [|v r IH]; simpl; [tauto|].
  rewrite filter_In, IH, negb_true_iff, str_eqb_neq.
  destruct (list_eq_dec N.eq_dec v k); tauto.
Qed.

Lemma first_occ_NoDup votes : NoDup (first_occ votes).
Proof.
  induction votes as [|v r IH]; simpl; constructor.
  - rewrite filter_In, negb_true_iff, str_eqb_neq. tauto.
  - apply NoDup_filter. exact IH.
Qed.

Lemma first_occ_snoc votes v :
  first_occ (votes ++ [v]) =
  first_occ votes ++ (if dict_mem (map (fun k => (k, tt)) votes) v then [] else [v]).
Proof.
  induction votes as [|x r IH]; simpl; [reflexivity|].
  rewrite IH, filter_app. f_equal. f_equal. unfold dict_mem. simpl.
  destruct (str_eqb x v) eqn:E; simpl.
  - destruct (dict_lookup _ v); simpl; [reflexivity | rewrite E; reflexivity].
  - destruct (dict_lookup _ v); simpl; [reflexivity | rewrite E; reflexivity].
Qed.

Lemma dict_mem_units votes v :
  dict_mem (map (fun k => (k, tt)) votes) v = true <-> In v votes.
Proof. rewrite dict_mem_key, map_map, map_id. tauto. Qed.

(** [cnt[key] += 1] on a counter whose keys are distinct. *)
Lemma counter_incr_present (f : pystr -> nat) ks v :
  NoDup ks -> In v ks ->
  counter_incr (map (fun k => (k, f k)) ks) v =
  map (fun k => (k, if str_eqb k v then S (f k) else f k)) ks.
Proof.
  induction ks as [|k ks IH]; simpl; intros Hnd Hin; [tauto|].
  apply NoDup_cons_iff in Hnd as [Hk Hnd].
  destruct (str_eqb k v) eqn:E.
  - f_equal. apply map_ext_in. intros k' Hk'.
    apply str_eqb_eq in E. subst v.
    destruct (str_eqb k' k) eqn:E'; [|reflexivity].
    apply str_eqb_eq in E'. congruence.
  - f_equal. apply IH; [exact Hnd|].
    apply str_eqb_neq in E. destruct Hin; [congruence | assumption].
Qed.

Lemma counter_incr_absent (f : pystr -> nat) ks v :
  ~ In v ks ->
  counter_incr (map (fun k => (k, f k)) ks) v =
  map (fun k => (k, f k)) ks ++ [(v, 1)].
Proof.
  induction ks as [|k ks IH]; simpl; intros Hin; [reflexivity|].
  destruct (str_eqb k v) eqn:E.
  - apply str_eqb_eq in E. tauto.
  - f_equal. apply IH. tauto.
Qed.

(** [Counter(votes)] in closed form: one entry per distinct vote, in
    the order of first appearance, with its number of ballots. *)
Lemma Counter_closed votes :
  Counter votes = map (fun k => (k, count_of k votes)) (first_occ votes).
Proof.
  unfold Counter. induction votes as [|v vs IH] using rev_ind; [reflexivity|].
  rewrite fold_left_app. simpl. rewrite IH, first_occ_snoc.
  destruct (dict_mem (map (fun k => (k, tt)) vs) v) eqn:E.
  - apply dict_mem_units in E. rewrite app_nil_r.
    rewrite counter_incr_present;
      [| apply first_occ_NoDup | apply first_occ_In; exact E].
    apply map_ext. intros k. f_equal.
    rewrite count_of_app, count_of_single.
    destruct (str_eqb k v); lia.
  - assert (Hv : ~ In v vs).
    { intros H. apply dict_mem_units in H. congruence. }
    rewrite counter_incr_absent by (rewrite first_occ_In; exact Hv).
    rewrite map_app. simpl. f_equal.
    + apply map_ext_in. intros k Hk. f_equal.
      rewrite count_of_app, count_of_single.
      destruct (str_eqb k v) eqn:Ek; [|lia].
      apply str_eqb_eq in Ek. subst k.
      apply (proj1 (first_occ_In _ _)) in Hk. tauto.
    + f_equal. f_equal.
      rewrite count_of_app, (@count_of_absent v vs Hv), count_of_single, str_eqb_refl.
      reflexivity.
Qed.

Lemma counter_incr_sum cnt v :
  list_sum (map snd (counter_incr cnt v)) = S (list_sum (map snd cnt)).
Proof.
  induction cnt as [|[k n] cnt IH]; simpl; [reflexivity|].
  destruct (str_eqb k v); simpl; [reflexivity|]. rewrite IH. lia.
Qed.

(** The counts add up to the number of votes. *)
Lemma Counter_sum votes : list_sum (map snd (Counter votes)) = length votes.
Proof.
  unfold Counter. induction votes as [|v vs IH] using rev_ind; [reflexivity|].
  rewrite fold_left_app. simpl. rewrite counter_incr_sum, IH, length_app.
  simpl. lia.
Qed.

(** [max] keeps the first item whose count no other item exceeds. *)
Lemma max_item_spec items :
  forall best,
  exists pre post,
    best :: items = pre ++ max_item best items :: post /\
    Forall (fun it => snd it < snd (max_item best items)) pre /\
    Forall (fun it => snd it <= snd (max_item best items)) post.
Proof.
  induction items as [|it r IH]; intros best; simpl.
  - exists [], []. repeat split; constructor.
  - destruct (snd best <? snd it) eqn:E.
    + apply Nat.ltb_lt in E.
      destruct (IH it) as (pre & post & Heq & Hpre & Hpost).
      exists (best :: pre), post. rewrite Heq. repeat split; auto.
      constructor; [|exact Hpre].
      destruct pre as [|p pre]; simpl in Heq; injection Heq as Hhd _.
      * rewrite <- Hhd. exact E.
      * inversion Hpre; subst. lia.
    + apply Nat.ltb_ge in E.
      destruct (IH best) as (pre & post & Heq & Hpre & Hpost).
      destruct pre as [|p pre]; simpl in Heq; injection Heq as Hhd Htl.
      * exists [], (it :: r). simpl. rewrite <- Hhd. repeat split; auto.
        constructor; [lia|]. rewrite Htl, Hhd. exact Hpost.
      * subst p. exists (best :: it :: pre), post.
        inversion Hpre as [|? ? H1 H2]; subst. split; [|split].
        -- simpl. f_equal. f_equal. exact Htl.
        -- constructor; [assumption|]. constructor; [lia | assumption].
        -- exact Hpost.
Qed.

Lemma filter_split {A} (f : A -> bool) l a w b :
  filter f l = a ++ w :: b ->
  exists a' b', l = a' ++ w :: b' /\ filter f a' = a /\ filter f b' = b.
Proof.
  revert a; induction l as [|x l IH]; intros a; simpl.
  - destruct a; discriminate.
  - destruct (f x) eqn:E.
    + destruct a as [|y a]; simpl; intros [= -> H].
      * exists [], l. simpl. auto.
      * destruct (IH _ H) as (a' & b' & -> & Ha & Hb).
        exists (y :: a'), b'. simpl. rewrite E, Ha. auto.
    + intros H. destruct (IH _ H) as (a' & b' & -> & Ha & Hb).
      exists (x :: a'), b'. simpl. rewrite E. auto.
Qed.

(** A vote listed earlier among the distinct votes was cast earlier. *)
Lemma first_occ_order votes :
  forall pk w qk c,
    first_occ votes = pk ++ w :: qk -> In c qk ->
    index_of w votes < index_of c votes.
Proof.
  induction votes as [|x r IH]; intros pk w qk c; simpl.
  - destruct pk; discriminate.
  - destruct pk as [|p pk]; simpl; intros [= -> H] Hc.
    + rewrite str_eqb_refl. subst qk.
      apply filter_In in Hc as [_ Hc]. apply negb_true_iff in Hc.
      rewrite Hc. lia.
    + destruct (@filter_split _ _ _ _ _ _ H) as (a' & b' & Hr & Ha & Hb).
      assert (Hw : str_eqb p w = false).
      { assert (Hin : In w (filter (fun k => negb (str_eqb p k)) (first_occ r))).
        { rewrite H. apply in_elt. }
        apply filter_In in Hin as [_ Hin]. apply negb_true_iff. exact Hin. }
      assert (Hcx : str_eqb p c = false /\ In c b').
      { rewrite <- Hb in Hc. apply filter_In in Hc as [Hc1 Hc2].
        split; [apply negb_true_iff; exact Hc2 | exact Hc1]. }
      destruct Hcx as [Hcx Hcb]. rewrite Hw, Hcx.
      apply -> Nat.succ_lt_mono. eapply IH; eassumption.
Qed.

(** ** Rounding *)

Lemma round_half_even_close (x : Q) :
  (inject_Z (round_half_even x) - x <= 1 # 2 /\
   x - inject_Z (round_half_even x) <= 1 # 2)%Q.
Proof.
  unfold round_half_even.
  pose proof (Qfloor_le x) as Hlo. pose proof (Qlt_floor x) as Hhi.
  rewrite inject_Z_plus in Hhi. change (inject_Z 1) with 1%Q in Hhi.
  destruct (Qcompare (x - inject_Z (Qfloor x)) (1 # 2)) eqn:C.
  - apply Qeq_alt in C. destruct (Z.even (Qfloor x)).
    + split; lra.
    + rewrite inject_Z_plus. change (inject_Z 1) with 1%Q. split; lra.
  - apply Qlt_alt in C. split; lra.
  - apply Qgt_alt in C. rewrite inject_Z_plus. change (inject_Z 1) with 1%Q.
    split; lra.
Qed.

(** [round2 q] is a whole number of hundredths, at most half a
    hundredth away from [q]. *)
Lemma round2_close (q : Q) :
  (round2 q - q <= 1 # 200 /\ q - round2 q <= 1 # 200)%Q.
Proof.
  unfold round2. destruct (round_half_even_close (q * 100)) as [H1 H2].
  rewrite (Qmake_Qdiv (round_half_even (q * 100)) 100).
  unfold Qdiv. change (/ inject_Z (Zpos 100))%Q with (1 # 100)%Q.
  split; lra.
Qed.

(** ** The tally *)

Lemma votes_of_app a b : votes_of (a ++ b) = votes_of a ++ votes_of b.
Proof. unfold votes_of. apply flat_map_app. Qed.

Lemma Counter_head v r :
  exists rest, Counter (v :: r) = (v, count_of v (v :: r)) :: rest.
Proof. rewrite Counter_closed. simpl. eexists. reflexivity. Qed.

(** With at least one vote, the tally elects the vote with the most
    ballots, the earliest cast among equals. *)
Lemma tally_nonempty votes logs :
  votes <> [] ->
  exists w,
    tally votes logs =
      Ok {| final_verdict := Some w;
            confidence :=
              round2 (Qmake (Z.of_nat (count_of w votes))
                            (Pos.of_nat (length votes)));
            vote_breakdown := Counter votes;
            juror_deliberations := logs |} /\
    In w votes /\
    (forall c, count_of c votes <= count_of w votes) /\
    (forall c, In c votes -> count_of c votes = count_of w votes ->
               index_of w votes <= index_of c votes).
Proof.
  intros Hne. destruct votes as [|v r]; [congruence|]. clear Hne.
  unfold tally. set (vs := v :: r).
  destruct (Counter_head v r) as [rest EC]. fold vs in EC.
  rewrite EC. simpl most_common_1.
  destruct (max_item_spec rest (v, count_of v vs))
    as (pre & post & Heq & Hpre & Hpost).
  destruct (max_item (v, count_of v vs) rest) as [w n] eqn:EM.
  rewrite <- EC, Counter_closed in Heq.
  apply map_eq_app in Heq. destruct Heq as (pk & tl & Hocc & Hpk & Htl).
  apply map_eq_cons in Htl. destruct Htl as (w' & qk & -> & Hw & Hqk).
  injection Hw as -> <-. simpl in Hpre, Hpost.
  assert (Hbound : forall c, count_of c vs <= count_of w vs).
  { intros c. destruct (in_dec (list_eq_dec N.eq_dec) c vs) as [Hc|Hc].
    - apply first_occ_In in Hc. rewrite Hocc in Hc.
      apply in_app_or in Hc. destruct Hc as [Hc|[Hc|Hc]].
      + rewrite <- Hpk in Hpre. rewrite Forall_map, Forall_forall in Hpre.
        specialize (Hpre c Hc). simpl in Hpre. lia.
      + subst c. lia.
      + rewrite <- Hqk in Hpost. rewrite Forall_map, Forall_forall in Hpost.
        specialize (Hpost c Hc). simpl in Hpost. lia.
    - rewrite (@count_of_absent c vs Hc). lia. }
  exists w. split; [reflexivity|]. split; [|split].
  - apply first_occ_In. rewrite Hocc. apply in_elt.
  - exact Hbound.
  - intros c Hc Heqc.
    apply first_occ_In in Hc. rewrite Hocc in Hc.
    apply in_app_or in Hc. destruct Hc as [Hc|[Hc|Hc]].
    + rewrite <- Hpk in Hpre. rewrite Forall_map, Forall_forall in Hpre.
      specialize (Hpre c Hc). simpl in Hpre. lia.
    + subst c. lia.
    + apply Nat.lt_le_incl. eapply first_occ_order; eassumption.
Qed.

Lemma tally_empty logs :
  tally [] logs =
    Ok {| final_verdict := None; confidence := 0%Q;
          vote_breakdown := []; juror_deliberations := logs |}.
Proof. reflexivity. Qed.

(** ** The deliberation loop *)

Section LoopFacts.
Context {R : Runtime}.
Variables (lm : LM) (question options_text evidence_text : pystr).
Variable choices : list (pystr * pystr).

Local Abbreviation ballot := (juror_ballot lm question options_text evidence_text choices).
Local Abbreviation turn := (juror_turn lm question options_text evidence_text choices).
Local Abbreviation loop := (deliberate lm question options_text evidence_text choices).
Local Abbreviation fails := (juror_fails lm question options_text evidence_text).

Lemma juror_turn_closed st name :
  In name (map fst LEGAL_PERSONAS) ->
  turn st name = Ok (fst st ++ votes_of (ballot name), snd st ++ ballot name).
Proof.
  intros Hin. destruct (dict_lookup_key _ _ Hin) as [desc Hd].
  unfold juror_turn, juror_ballot. rewrite Hd.
  destruct st as [votes logs].
  destruct (lm desc question options_text evidence_text) as [|why raw]; simpl.
  - rewrite !app_nil_r. reflexivity.
  - destruct (extract_vote choices raw); simpl;
      rewrite ?app_nil_r; reflexivity.
Qed.

(** The loop in closed form: the ballots of the selected personas, in
    selection order, appended to the state. *)
Lemma deliberate_closed names :
  forall st,
    incl names (map fst LEGAL_PERSONAS) ->
    loop names st =
      Ok (fst st ++ votes_of (flat_map ballot names),
          snd st ++ flat_map ballot names).
Proof.
  induction names as [|name rest IH]; intros st Hincl; simpl.
  - rewrite !app_nil_r. destruct st; reflexivity.
  - rewrite juror_turn_closed by (apply Hincl; left; reflexivity).
    simpl. rewrite IH by (intros x Hx; apply Hincl; right; exact Hx).
    simpl. rewrite votes_of_app, !app_assoc. reflexivity.
Qed.

Lemma ballot_of_failed name : fails name = true -> ballot name = [].
Proof.
  unfold juror_fails, juror_ballot.
  destruct (dict_lookup LEGAL_PERSONAS name); [|reflexivity].
  destruct (lm _ _ _ _); [reflexivity | discriminate].
Qed.

Lemma ballot_of_survivor name :
  In name (map fst LEGAL_PERSONAS) -> fails name = false ->
  exists b, ballot name = [b] /\ persona b = name.
Proof.
  intros Hin. destruct (dict_lookup_key _ _ Hin) as [desc Hd].
  unfold juror_fails, juror_ballot. rewrite Hd.
  destruct (lm _ _ _ _); [discriminate|].
  intros _. eexists. split; reflexivity.
Qed.

(** A persona whose call raises leaves no ballot; the others leave one. *)
Lemma ballots_of_survivors names :
  incl names (map fst LEGAL_PERSONAS) ->
  flat_map ballot names = flat_map ballot (filter (fun n => negb (fails n)) names)
  /\ map persona (flat_map ballot names) = filter (fun n => negb (fails n)) names.
Proof.
  induction names as [|name rest IH]; intros Hincl; [split; reflexivity|].
  destruct IH as [IH1 IH2]; [intros x Hx; apply Hincl; right; exact Hx|].
  cbn [flat_map filter].
  destruct (fails name) eqn:F; cbn [negb].
  - rewrite (ballot_of_failed _ F). cbn [app map]. auto.
  - destruct (@ballot_of_survivor name) as (b & Hb & Hp);
      [apply Hincl; left; reflexivity | exact F |].
    cbn [flat_map]. rewrite Hb. cbn [app map]. rewrite Hp.
    split; f_equal; assumption.
Qed.

Lemma ballots_votes_valid names :
  Forall (fun v => In v (map fst choices)) (votes_of (flat_map ballot names)).
Proof.
  induction names as [|name rest IH]; simpl; [constructor|].
  rewrite votes_of_app. apply Forall_app. split; [|exact IH].
  unfold juror_ballot. destruct (dict_lookup LEGAL_PERSONAS name); [|constructor].
  destruct (lm _ _ _ _) as [|why raw]; [constructor|].
  unfold votes_of. simpl.
  destruct (extract_vote choices raw) eqn:E; [|constructor].
  constructor; [|constructor]. eapply extract_vote_key. exact E.
Qed.

End LoopFacts.

(** ** [synthesize] as a whole *)

Lemma select_jury_inv (rnd : nat -> nat) (num_arbiters : Z) names :
  select_jury rnd num_arbiters = Ok names ->
  (0 <= num_arbiters)%Z /\
  Z.of_nat (length names) = Z.min num_arbiters 5 /\
  NoDup names /\ incl names (map fst LEGAL_PERSONAS).
Proof.
  intros H. destruct (Z.lt_ge_cases num_arbiters 0) as [Hneg|Hpos].
  - unfold select_jury in H. rewrite random_sample_negative in H; [discriminate|].
    rewrite length_map, personas_count. lia.
  - destruct (select_jury_spec rnd Hpos) as (names' & E & P).
    rewrite E in H. injection H as ->. split; [exact Hpos | exact P].
Qed.


Lemma votes_of_length logs :
  length (votes_of logs) = length (filter has_vote logs).
Proof.
  induction logs as [|b logs IH]; [reflexivity|].
  unfold votes_of, has_vote in *. simpl.
  destruct (vote b); simpl; rewrite ?IH; reflexivity.
Qed.

Lemma tally_total votes logs :
  exists v, tally votes logs = Ok v /\ juror_deliberations v = logs.
Proof.
  destruct votes as [|x r] eqn:E.
  - eexists. split; reflexivity.
  - destruct (@tally_nonempty (x :: r) logs) as (w & Hw & _); [discriminate|].
    eexists. split; [exact Hw | reflexivity].
Qed.

Section SynthesizeFacts.
Context {R : Runtime}.
Variables (lm : LM) (rnd : nat -> nat) (question : pystr).
Variable choices : list (pystr * pystr).
Variable evidence_list : list pyval.
Variable num_arbiters : Z.

Local Abbreviation ballots_for evidence_text names :=
  (flat_map
     (juror_ballot lm question (format_options choices) evidence_text choices)
     names).

Lemma synthesize_closed evidence_text names :
  format_evidence evidence_list = Ok evidence_text ->
  select_jury rnd num_arbiters = Ok names ->
  synthesize lm rnd question choices evidence_list num_arbiters =
    tally (votes_of (ballots_for evidence_text names))
          (ballots_for evidence_text names).
Proof.
  intros Hf Hs. unfold synthesize. rewrite Hf. cbn [bind]. rewrite Hs. cbn [bind].
  rewrite deliberate_closed by (apply (select_jury_inv _ _ Hs)).
  reflexivity.
Qed.

Lemma synthesize_inv v :
  synthesize lm rnd question choices evidence_list num_arbiters = Ok v ->
  exists evidence_text names,
    format_evidence evidence_list = Ok evidence_text /\
    select_jury rnd num_arbiters = Ok names /\
    tally (votes_of (ballots_for evidence_text names))
          (ballots_for evidence_text names) = Ok v.
Proof.
  intros H.
  destruct (format_evidence evidence_list) as [txt|e] eqn:Hf.
  2:{ unfold synthesize in H. rewrite Hf in H. discriminate. }
  destruct (select_jury rnd num_arbiters) as [names|e] eqn:Hs.
  2:{ unfold synthesize in H. rewrite Hf in H. cbn [bind] in H.
      rewrite Hs in H. discriminate. }
  exists txt, names. rewrite (synthesize_closed Hf Hs) in H. auto.
Qed.

Lemma synthesize_logs v :
  synthesize lm rnd question choices evidence_list num_arbiters = Ok v ->
  Forall (fun k => In k (map fst choices)) (votes_of (juror_deliberations v)).
Proof.
  intros H. destruct (synthesize_inv H) as (txt & names & _ & _ & Ht).
  destruct (tally_total (votes_of (ballots_for txt names)) (ballots_for txt names))
    as (v' & Hv & Hlogs).
  rewrite Hv in Ht. injection Ht as <-. rewrite Hlogs.
  apply ballots_votes_valid.
Qed.


End SynthesizeFacts.

(* ================================================================= *)
(** * The claims *)

Lemma scripted_trial :
  synthesize (R := plain_runtime) scripted_lm counting_rnd
    trial_question abcd trial_evidence 3 = Ok scripted_verdict.
Proof. vm_compute. reflexivity. Qed.

Lemma trial_evidence_formats :
  format_evidence (R := plain_runtime) trial_evidence = Ok trial_evidence_text.
Proof. vm_compute. reflexivity. Qed.

(** C1.  Whenever [synthesize] returns a verdict whose [final_verdict]
    is present, that verdict is a key of [choices]: for every
    question, choices, evidence list, number of arbiters, predictor
    and random draws. *)
Theorem final_verdict_is_a_choice {R : Runtime} (lm : LM) (rnd : nat -> nat)
    (question : pystr) (choices : list (pystr * pystr))
    (evidence_list : list pyval) (num_arbiters : Z) (v : Verdict) (w : pystr) :
  synthesize lm rnd question choices evidence_list num_arbiters = Ok v ->
  final_verdict v = Some w ->
  In w (map fst choices).
Proof.
  intros H Hw.
  pose proof (synthesize_logs _ _ _ _ _ _ H) as Hvalid.
  destruct (synthesize_inv _ _ _ _ _ _ H) as (txt & names & _ & _ & Ht).
  set (B := flat_map _ names) in Ht.
  destruct (tally_total (votes_of B) B) as (v' & Hv' & Hlogs).
  rewrite Hv' in Ht. injection Ht as ->.
  rewrite Hlogs in Hvalid.
  destruct (votes_of B) as [|x r] eqn:E.
  - rewrite tally_empty in Hv'. injection Hv' as <-. discriminate.
  - destruct (@tally_nonempty (x :: r) B) as (w' & Hw' & Hin & _); [discriminate|].
    rewrite Hw' in Hv'. injection Hv' as <-. simpl in Hw. injection Hw as <-.
    rewrite Forall_forall in Hvalid. apply Hvalid. exact Hin.
Qed.

Lemma final_verdict_is_a_choice_witness :
  synthesize (R := plain_runtime) scripted_lm counting_rnd
    trial_question abcd trial_evidence 3 = Ok scripted_verdict /\
  final_verdict scripted_verdict = Some (str "B") /\
  In (str "B") (map fst abcd).
Proof.
  split; [exact scripted_trial|]. split; [reflexivity|].
  exact (@final_verdict_is_a_choice plain_runtime scripted_lm counting_rnd
           trial_question abcd trial_evidence 3 scripted_verdict (str "B")
           scripted_trial eq_refl).
Defined.

(** C2.  In every verdict returned with at least one non-empty vote:
    [final_verdict] is the key with the highest count, the earliest
    cast among those of equal count; [vote_breakdown] lists every
    distinct vote with its count, and its values sum to the number of
    ballots that carry a vote; [confidence] is the winning count
    divided by the number of non-empty votes, rounded to two decimal
    places (a whole number of hundredths within half a hundredth of
    the quotient). *)
Theorem majority_tally {R : Runtime} (lm : LM) (rnd : nat -> nat)
    (question : pystr) (choices : list (pystr * pystr))
    (evidence_list : list pyval) (num_arbiters : Z) (v : Verdict) :
  synthesize lm rnd question choices evidence_list num_arbiters = Ok v ->
  votes_of (juror_deliberations v) <> [] ->
  let votes := votes_of (juror_deliberations v) in
  exists w,
    final_verdict v = Some w /\
    (forall c, count_of c votes <= count_of w votes) /\
    (forall c, In c votes -> count_of c votes = count_of w votes ->
               index_of w votes <= index_of c votes) /\
    vote_breakdown v = map (fun k => (k, count_of k votes)) (first_occ votes) /\
    list_sum (map snd (vote_breakdown v)) =
      length (filter has_vote (juror_deliberations v)) /\
    let quotient :=
      Qmake (Z.of_nat (count_of w votes)) (Pos.of_nat (length votes)) in
    confidence v = round2 quotient /\
    (exists hundredths, confidence v = Qmake hundredths 100) /\
    (confidence v - quotient <= 1 # 200)%Q /\
    (quotient - confidence v <= 1 # 200)%Q.
Proof.
  intros H Hne votes.
  destruct (synthesize_inv _ _ _ _ _ _ H) as (txt & names & _ & _ & Ht).
  set (B := flat_map _ names) in Ht.
  destruct (tally_total (votes_of B) B) as (v' & Hv' & Hlogs).
  rewrite Hv' in Ht. injection Ht as ->.
  subst votes. rewrite Hlogs in *.
  destruct (@tally_nonempty (votes_of B) B Hne) as (w & Hw & Hin & Hmax & Htie).
  rewrite Hw in Hv'. injection Hv' as <-. cbn [final_verdict vote_breakdown
    confidence juror_deliberations].
  exists w. split; [reflexivity|]. split; [exact Hmax|]. split; [exact Htie|].
  split; [apply Counter_closed|].
  split; [rewrite Counter_sum; apply votes_of_length|].
  split; [reflexivity|]. split; [eexists; reflexivity|].
  apply round2_close.
Qed.

Lemma majority_tally_witness :
  let votes := votes_of (juror_deliberations scripted_verdict) in
  exists w,
    final_verdict scripted_verdict = Some w /\
    (forall c, count_of c votes <= count_of w votes) /\
    (forall c, In c votes -> count_of c votes = count_of w votes ->
               index_of w votes <= index_of c votes) /\
    vote_breakdown scripted_verdict =
      map (fun k => (k, count_of k votes)) (first_occ votes) /\
    list_sum (map snd (vote_breakdown scripted_verdict)) =
      length (filter has_vote (juror_deliberations scripted_verdict)) /\
    let quotient :=
      Qmake (Z.of_nat (count_of w votes)) (Pos.of_nat (length votes)) in
    confidence scripted_verdict = round2 quotient /\
    (exists hundredths, confidence scripted_verdict = Qmake hundredths 100) /\
    (confidence scripted_verdict - quotient <= 1 # 200)%Q /\
    (quotient - confidence scripted_verdict <= 1 # 200)%Q.
Proof.
  apply (@majority_tally plain_runtime scripted_lm counting_rnd
           trial_question abcd trial_evidence 3 scripted_verdict scripted_trial).
  vm_compute. discriminate.
Defined.

(** The end-to-end scenario of the specification: votes B, B, A give
    verdict B with confidence 0.67 and breakdown B: 2, A: 1. *)
Example scripted_verdict_value :
  final_verdict scripted_verdict = Some (str "B") /\
  confidence scripted_verdict = Qmake 67 100 /\
  vote_breakdown scripted_verdict = [(str "B", 2); (str "A", 1)] /\
  votes_of (juror_deliberations scripted_verdict) = [str "B"; str "B"; str "A"].
Proof. repeat split. Qed.

(** Ties: the vote cast first among the most frequent ones wins. *)
Example tie_goes_to_first_cast :
  option_map final_verdict
    (match tally [str "A"; str "B"] [] with Ok v => Some v | Raise _ => None end)
    = Some (Some (str "A")) /\
  option_map final_verdict
    (match tally [str "B"; str "A"; str "A"; str "B"] [] with
     | Ok v => Some v
     | Raise _ => None
     end)
    = Some (Some (str "B")) /\
  option_map final_verdict
    (match tally [str "C"; str "A"; str "A"; str "B"; str "B"] [] with
     | Ok v => Some v
     | Raise _ => None
     end)
    = Some (Some (str "A")).
Proof. repeat split. Qed.

Lemma no_votes_of_ballots {R : Runtime} (lm : LM) (q o e : pystr)
    (choices : list (pystr * pystr)) names :
  (forall name, In name names ->
     votes_of (juror_ballot lm q o e choices name) = []) ->
  votes_of (flat_map (juror_ballot lm q o e choices) names) = [].
Proof.
  induction names as [|name rest IH]; intros H; [reflexivity|].
  cbn [flat_map]. rewrite votes_of_app, H by (left; reflexivity).
  apply IH. intros n Hn. apply H. right. exact Hn.
Qed.

(** C4.  If no selected juror produces a valid vote (each one raises
    or abstains), [synthesize] returns the verdict with no
    [final_verdict], confidence 0.0, an empty [vote_breakdown] and the
    whole transcript: one ballot for every juror whose call returned. *)
Theorem no_votes_verdict {R : Runtime} (lm : LM) (rnd : nat -> nat)
    (question : pystr) (choices : list (pystr * pystr))
    (evidence_list : list pyval) (num_arbiters : Z)
    (evidence_text : pystr) (names : list pystr) :
  format_evidence evidence_list = Ok evidence_text ->
  select_jury rnd num_arbiters = Ok names ->
  (forall name, In name names ->
     votes_of (juror_ballot lm question (format_options choices)
                 evidence_text choices name) = []) ->
  synthesize lm rnd question choices evidence_list num_arbiters =
    Ok {| final_verdict := None;
          confidence := 0%Q;
          vote_breakdown := [];
          juror_deliberations :=
            flat_map (juror_ballot lm question (format_options choices)
                        evidence_text choices) names |}
  /\ map persona
       (flat_map (juror_ballot lm question (format_options choices)
                    evidence_text choices) names)
     = filter (fun n => negb (juror_fails lm question (format_options choices)
                                evidence_text n)) names.
Proof.
  intros Hf Hs Hnone. split.
  - rewrite (@synthesize_closed R lm rnd question choices evidence_list
               num_arbiters _ _ Hf Hs).
    rewrite (@no_votes_of_ballots R _ _ _ _ _ _ Hnone). apply tally_empty.
  - apply ballots_of_survivors. apply (select_jury_inv _ _ Hs).
Qed.

Lemma jury_of_two_selected : select_jury counting_rnd 2 = Ok jury_of_two.
Proof. vm_compute. reflexivity. Qed.

Lemma jury_of_five_selected : select_jury counting_rnd 5 = Ok jury_of_five.
Proof. vm_compute. reflexivity. Qed.

Lemma no_votes_verdict_witness :
  let lm := constant_lm (str "Not sure") in
  synthesize (R := plain_runtime) lm counting_rnd trial_question abcd
    trial_evidence 2 =
    Ok {| final_verdict := None;
          confidence := 0%Q;
          vote_breakdown := [];
          juror_deliberations :=
            flat_map (juror_ballot (R := plain_runtime) lm trial_question (format_options abcd)
                        trial_evidence_text abcd) jury_of_two |}
  /\ map persona
       (flat_map (juror_ballot (R := plain_runtime) lm trial_question (format_options abcd)
                    trial_evidence_text abcd) jury_of_two)
     = filter (fun n => negb (juror_fails lm trial_question (format_options abcd)
                                trial_evidence_text n)) jury_of_two.
Proof.
  apply (@no_votes_verdict plain_runtime (constant_lm (str "Not sure"))
           counting_rnd trial_question abcd trial_evidence 2
           trial_evidence_text jury_of_two
           trial_evidence_formats jury_of_two_selected).
  intros name [<-|[<-|[]]]; vm_compute; reflexivity.
Defined.



(** With five arbiters the scripted trial loses the legal realist,
    whose call raises, and keeps the other four. *)
Example scripted_trial_of_five :
  filter (fun n => juror_fails scripted_lm trial_question
                     (format_options abcd) trial_evidence_text n) jury_of_five
    = [str "The Legal Realist"] /\
  map persona
    (juror_deliberations
       (verdict_or_empty
          (synthesize (R := plain_runtime) scripted_lm counting_rnd
             trial_question abcd trial_evidence 5)))
    = filter (fun n => negb (str_eqb n (str "The Legal Realist"))) jury_of_five.
Proof. split; vm_compute; reflexivity. Qed.

(** C5 (amended).  For every [num_arbiters >= 0] the jury selection
    draws exactly [min(num_arbiters, 5)] names from the registry of
    exactly five distinct personas, and no name twice. *)
Theorem select_jury_distinct (rnd : nat -> nat) (num_arbiters : Z) :
  (0 <= num_arbiters)%Z ->
  length LEGAL_PERSONAS = 5 /\
  NoDup (map fst LEGAL_PERSONAS) /\
  exists names,
    select_jury rnd num_arbiters = Ok names /\
    Z.of_nat (length names) = Z.min num_arbiters 5 /\
    NoDup names /\
    (forall name, In name names -> In name (map fst LEGAL_PERSONAS)).
Proof.
  intros Hn. split; [reflexivity|]. split; [apply personas_distinct|].
  destruct (select_jury_spec rnd Hn) as (names & Hs & Hlen & Hnd & Hincl).
  exists names. auto.
Qed.

Lemma select_jury_distinct_witness :
  (0 <= 3)%Z /\
  length LEGAL_PERSONAS = 5 /\
  NoDup (map fst LEGAL_PERSONAS) /\
  exists names,
    select_jury counting_rnd 3 = Ok names /\
    Z.of_nat (length names) = Z.min 3 5 /\
    NoDup names /\
    (forall name, In name names -> In name (map fst LEGAL_PERSONAS)).
Proof.
  split; [lia|]. apply (@select_jury_distinct counting_rnd 3%Z). lia.
Defined.

(** C5 as stated fails for a negative [num_arbiters]: [random.sample]
    raises [ValueError] and [synthesize] with it, so no jury of
    [min(-1, 5)] names is drawn. *)
Lemma negative_arbiters_raise :
  select_jury counting_rnd (-1) = Raise ValueError /\
  synthesize (R := plain_runtime) scripted_lm counting_rnd trial_question
    abcd trial_evidence (-1) = Raise ValueError.
Proof. split; vm_compute; reflexivity. Qed.

(** C3 (amended).  Vote extraction is a function of the raw vote text
    and the choices: the text is trimmed and upper-cased, and the
    first of its characters that is a key of [choices] is the vote;
    when no character is a key the ballot's vote is empty, and the
    ballot is recorded with its reasoning either way.  With keys A to
    D, "  b) because..." gives B, "Not sure" gives nothing, and
    "I choose option D." gives C, the C of CHOOSE coming first. *)
Theorem vote_extraction_first_key {R : Runtime} (lm : LM)
    (question options_text evidence_text : pystr)
    (choices : list (pystr * pystr)) (st : list pystr * list Ballot)
    (name desc why raw : pystr) :
  dict_lookup LEGAL_PERSONAS name = Some desc ->
  lm desc question options_text evidence_text = Answered why raw ->
  let text := upper (strip raw) in
  (forall v,
     extract_vote choices raw = Some v <->
     exists pre c post,
       text = pre ++ c :: post /\ v = [c] /\ In [c] (map fst choices) /\
       Forall (fun x => ~ In [x] (map fst choices)) pre) /\
  (extract_vote choices raw = None <->
   Forall (fun x => ~ In [x] (map fst choices)) text) /\
  juror_turn lm question options_text evidence_text choices st name =
    Ok (fst st ++ match extract_vote choices raw with
                  | Some v => [v]
                  | None => []
                  end,
        snd st ++ [{| persona := name;
                      vote := extract_vote choices raw;
                      reasoning := why |}]) /\
  extract_vote abcd (str "  b) because..." ++ [newline]) = Some (str "B") /\
  extract_vote abcd (str "Not sure") = None /\
  extract_vote abcd (str "I choose option D.") = Some (str "C").
Proof.
  intros Hd Hlm text.
  assert (Hkey : forall x, dict_mem choices [x] = false <-> ~ In [x] (map fst choices)).
  { intros x. rewrite <- dict_mem_key. destruct (dict_mem choices [x]); split;
      congruence. }
  assert (Hall : forall l,
            Forall (fun x => dict_mem choices [x] = false) l <->
            Forall (fun x => ~ In [x] (map fst choices)) l).
  { intros l. rewrite !Forall_forall. split; intros H x Hx; apply Hkey, H, Hx. }
  split; [|split; [|split]].
  - intros v. unfold extract_vote. fold text. rewrite first_valid_some.
    split; intros (pre & c & post & E & Ev & Hc & Hpre);
      exists pre, c, post; repeat split; try assumption.
    + apply dict_mem_key. exact Hc.
    + apply Hall. exact Hpre.
    + apply dict_mem_key. exact Hc.
    + apply Hall. exact Hpre.
  - unfold extract_vote. fold text. rewrite first_valid_none. apply Hall.
  - unfold juror_turn. rewrite Hd, Hlm.
    destruct (extract_vote choices raw); rewrite ?app_nil_r; reflexivity.
  - repeat split.
Qed.

Lemma vote_extraction_first_key_witness :
  let name := str "The Strict Textualist" in
  let raw := str "B" in
  exists desc,
    dict_lookup LEGAL_PERSONAS name = Some desc /\
    scripted_lm desc trial_question (format_options abcd) trial_evidence_text
      = Answered (str "the text says so") raw /\
    juror_turn (R := plain_runtime) scripted_lm trial_question
      (format_options abcd) trial_evidence_text abcd ([], []) name =
      Ok ([str "B"],
          [{| persona := name; vote := Some (str "B");
              reasoning := str "the text says so" |}]).
Proof.
  intros name raw.
  destruct (dict_lookup LEGAL_PERSONAS name) as [desc|] eqn:Hd;
    [|vm_compute in Hd; discriminate].
  assert (Hlm : scripted_lm desc trial_question (format_options abcd)
                  trial_evidence_text = Answered (str "the text says so") raw).
  { vm_compute in Hd. injection Hd as <-. vm_compute. reflexivity. }
  exists desc. split; [reflexivity|]. split; [exact Hlm|].
  exact (proj1 (proj2 (proj2
           (@vote_extraction_first_key plain_runtime scripted_lm trial_question
              (format_options abcd) trial_evidence_text abcd ([], [])
              name desc (str "the text says so") raw Hd Hlm)))).
Defined.

(** C3 as stated fails on its second example: the vote extracted from
    "I choose option D." is C, which is not D. *)
Lemma choose_extracts_C :
  extract_vote (R := plain_runtime) abcd (str "I choose option D.")
    = Some (str "C") /\
  upper (R := plain_runtime) (strip (str "I choose option D."))
    = str "I CHOOSE OPTION D." /\
  str_eqb (str "C") (str "D") = false.
Proof. repeat split. Qed.




(** ** Evidence formatting *)

Section EvidenceFacts.
Context {R : Runtime}.

Lemma evidence_content_not_json s :
  Json.loads s = Json.JSONDecodeError -> evidence_content (PStr s) = Ok (PStr s).
Proof. intros H. unfold evidence_content. rewrite H. reflexivity. Qed.

Lemma evidence_content_json_object s d :
  Json.loads s = Json.Value (PDict d) ->
  evidence_content (PStr s) =
    Ok (match dict_lookup d (str "contents") with
        | Some c => c
        | None => PStr s
        end).
Proof. intros H. unfold evidence_content. rewrite H. reflexivity. Qed.

Lemma evidence_content_json_other s v :
  Json.loads s = Json.Value v -> (forall d, v <> PDict d) ->
  evidence_content (PStr s) = Raise AttributeError.
Proof.
  intros H Hv. unfold evidence_content. rewrite H.
  destruct v; try reflexivity. exfalso. eapply Hv. reflexivity.
Qed.

Lemma evidence_content_mapping d :
  evidence_content (PDict d) =
    Ok (match dict_lookup d (str "contents") with
        | Some c => c
        | None =>
            match dict_lookup d (str "text") with
            | Some t => t
            | None => PStr (py_str (PDict d))
            end
        end).
Proof. reflexivity. Qed.

Lemma format_evidence_from_raises i ev rest acc e :
  evidence_content ev = Raise e ->
  format_evidence_from i (ev :: rest) acc = Raise e.
Proof. intros H. simpl. rewrite H. reflexivity. Qed.

(** Formatting succeeds when every element has a content. *)
Lemma format_evidence_from_ok evidence_list :
  Forall (fun ev => exists c, evidence_content ev = Ok c) evidence_list ->
  forall i acc, exists txt, format_evidence_from i evidence_list acc = Ok txt.
Proof.
  induction 1 as [|ev rest [c Hc] _ IH]; intros i acc; simpl.
  - eexists. reflexivity.
  - rewrite Hc. cbn [bind]. apply IH.
Qed.

End EvidenceFacts.

(** The two examples of the specification: a JSON string with a
    [contents] member and a mapping with a [text] member both surface
    their text; a string that is not JSON surfaces itself. *)
Example evidence_surfaces_foo :
  evidence_content (R := plain_runtime)
    (PStr (json_object_1 (str "contents") (str "foo"))) = Ok (PStr (str "foo")) /\
  evidence_content (R := plain_runtime)
    (PDict [(str "text", PStr (str "foo"))]) = Ok (PStr (str "foo")) /\
  evidence_content (R := plain_runtime)
    (PStr (str "not a JSON text")) = Ok (PStr (str "not a JSON text")) /\
  format_evidence (R := plain_runtime)
    [PStr (json_object_1 (str "contents") (str "foo"));
     PDict [(str "text", PStr (str "foo"))]]
  = Ok ([newline] ++ str " Evidence - [Document 1] foo" ++ [newline]
        ++ str "[Document 2] foo" ++ [newline]).
Proof. repeat split. Qed.

(** C6 (the code departs from the claim).  An evidence string that is
    valid JSON but not an object, such as "42", is decoded to a value
    without a [get] method: the lookup raises [AttributeError], which
    the [except json.JSONDecodeError] clause does not catch, and
    [synthesize] raises with it, whatever the other arguments. *)
Theorem json_scalar_evidence_raises {R : Runtime} (lm : LM) (rnd : nat -> nat)
    (question : pystr) (choices : list (pystr * pystr))
    (rest : list pyval) (num_arbiters : Z) :
  Json.loads (str "42") = Json.Value (PInt 42) /\
  evidence_content (PStr (str "42")) = Raise AttributeError /\
  synthesize lm rnd question choices (PStr (str "42") :: rest) num_arbiters
    = Raise AttributeError.
Proof. repeat split. Qed.

(** ** Retrieval *)

Lemma split_on_nonempty sep s : split_on sep s <> [].
Proof.
  destruct s as [|c r]; simpl; [discriminate|].
  destruct (N.eqb c sep); [discriminate|].
  destruct (split_on sep r); discriminate.
Qed.

(** Joining the pieces with the separator gives the text back. *)
Lemma split_on_join sep s : join [sep] (split_on sep s) = s.
Proof.
  induction s as [|c r IH]; [reflexivity|]. simpl.
  destruct (N.eqb c sep) eqn:E.
  - apply N.eqb_eq in E. subst c.
    destruct (split_on sep r) as [|h t] eqn:Es.
    + exfalso. eapply split_on_nonempty. exact Es.
    + simpl in *. rewrite IH. reflexivity.
  - destruct (split_on sep r) as [|h t] eqn:Es.
    + exfalso. eapply split_on_nonempty. exact Es.
    + destruct t as [|h' t']; simpl in *; rewrite <- IH; reflexivity.
Qed.

(** No piece contains the separator. *)
Lemma split_on_pieces sep s :
  Forall (fun p => ~ In sep p) (split_on sep s).
Proof.
  induction s as [|c r IH]; simpl.
  - constructor; [intros [] | constructor].
  - destruct (N.eqb c sep) eqn:E.
    + constructor; [intros [] | exact IH].
    + apply N.eqb_neq in E.
      destruct (split_on sep r) as [|h t]; [repeat constructor; simpl; tauto|].
      inversion IH; subst. constructor; [|assumption].
      simpl. tauto.
Qed.

Lemma lstrip_nil s : lstrip s = [] <-> forallb is_space s = true.
Proof.
  induction s as [|c r IH]; simpl; [tauto|].
  destruct (is_space c); simpl; [exact IH|]. split; discriminate.
Qed.

Lemma lstrip_head s c r : lstrip s = c :: r -> is_space c = false.
Proof.
  induction s as [|x s IH]; simpl; [discriminate|].
  destruct (is_space x) eqn:E; [exact IH|]. intros [= <- _]. exact E.
Qed.

(** A line is blank exactly when it holds nothing but whitespace. *)
Lemma is_blank_spec p : is_blank p = true <-> forallb is_space p = true.
Proof.
  unfold is_blank, strip, rstrip.
  destruct (lstrip p) as [|c r] eqn:E.
  - simpl. rewrite <- lstrip_nil, E. tauto.
  - assert (Hc : is_space c = false) by (eapply lstrip_head; exact E).
    assert (Hp : forallb is_space p = false).
    { destruct (forallb is_space p) eqn:F; [|reflexivity].
      apply lstrip_nil in F. congruence. }
    rewrite Hp.
    destruct (rev (lstrip (rev (c :: r)))) as [|y l] eqn:El;
      [|split; discriminate].
    exfalso.
    assert (Hl : lstrip (rev (c :: r)) = []).
    { destruct (lstrip (rev (c :: r))) as [|z zs]; [reflexivity|].
      apply (f_equal (@length N)) in El. rewrite length_rev in El.
      discriminate. }
    apply lstrip_nil in Hl. rewrite forallb_forall in Hl.
    specialize (Hl c). rewrite <- in_rev in Hl.
    rewrite Hl in Hc by (left; reflexivity). discriminate.
Qed.

Lemma firstn_In {A} n (l : list A) x : In x (firstn n l) -> In x l.
Proof.
  intros H. rewrite <- (firstn_skipn n l). apply in_or_app. left. exact H.
Qed.

(** C8.  Without a ReAct agent, [retrieve] returns the empty list, for
    every hypothesis and every [k]; that branch holds a [print] and
    the [return] only, so nothing in it can raise. *)
Theorem retrieve_without_agent {R : Runtime} (self : AdvocateAgent)
    (hypothesis : pystr) (k : Z) :
  react_agent self = None ->
  retrieve self hypothesis k = [].
Proof. intros H. unfold retrieve. rewrite H. reflexivity. Qed.

Lemma retrieve_without_agent_witness :
  retrieve (R := plain_runtime) {| react_agent := None |}
    (str "a hypothesis") 3 = [].
Proof.
  exact (@retrieve_without_agent plain_runtime {| react_agent := None |}
           (str "a hypothesis") 3 eq_refl).
Defined.

(** C9 (amended).  When the agent returns evidence and [k >= 0], the
    list [retrieve] returns has at most [k] items: the first [k]
    passages, each wrapped with the source tag "dspy_react" and score
    1.0.  The passages of a string are the pieces between its
    newlines (joined by newlines they give the string back, and none
    contains a newline) that are not whitespace only. *)
Theorem retrieve_items {R : Runtime} (agent : ReAct) (hypothesis : pystr)
    (k : Z) (evidence : pyval) :
  agent hypothesis = Some evidence ->
  (0 <= k)%Z ->
  let items := retrieve {| react_agent := Some agent |} hypothesis k in
  (Z.of_nat (length items) <= k)%Z /\
  items = map evidence_item (firstn (Z.to_nat k) (passages_of evidence)) /\
  (forall item, In item items ->
     exists p,
       In p (passages_of evidence) /\
       item = PDict [ (str "text", p);
                      (str "source", PStr (str "dspy_react"));
                      (str "score", PFloat (FNum 1)) ]) /\
  (forall s, evidence = PStr s ->
     let pieces := split_on newline s in
     join [newline] pieces = s /\
     Forall (fun p => ~ In newline p) pieces /\
     passages_of evidence =
       map PStr (filter (fun p => negb (forallb is_space p)) pieces)).
Proof.
  intros Ha Hk items.
  assert (Hitems : items = map evidence_item (firstn (Z.to_nat k) (passages_of evidence))).
  { subst items. unfold retrieve. cbn [react_agent]. rewrite Ha.
    unfold slice_to.
    replace (0 <=? k)%Z with true by (symmetry; apply Z.leb_le; exact Hk).
    reflexivity. }
  split; [|split; [exact Hitems|split]].
  - rewrite Hitems, length_map, length_firstn. lia.
  - intros item Hin. rewrite Hitems in Hin. apply in_map_iff in Hin.
    destruct Hin as (p & <- & Hp). exists p. split; [|reflexivity].
    eapply firstn_In. exact Hp.
  - intros s -> pieces. split; [apply split_on_join|].
    split; [apply split_on_pieces|].
    unfold passages_of. f_equal. apply filter_ext. intros p. f_equal.
    destruct (is_blank p) eqn:B.
    + symmetry. apply is_blank_spec. exact B.
    + destruct (forallb is_space p) eqn:F; [|reflexivity].
      apply is_blank_spec in F. congruence.
Qed.

Lemma retrieve_items_witness :
  let evidence :=
    PStr (str "first passage" ++ [newline] ++ str "   " ++ [newline]
          ++ str "second passage" ++ [newline] ++ str "third passage") in
  block_agent (str "a hypothesis") = Some evidence /\
  (0 <= 2)%Z /\
  retrieve (R := plain_runtime) {| react_agent := Some block_agent |}
    (str "a hypothesis") 2
  = map evidence_item [PStr (str "first passage"); PStr (str "second passage")].
Proof.
  intros evidence. split; [reflexivity|]. split; [lia|].
  refine (proj1 (proj2
            (@retrieve_items plain_runtime block_agent (str "a hypothesis") 2
               evidence eq_refl _))).
  lia.
Defined.

(** C9 as stated fails for a negative [k]: with [k = -1] the slice
    drops only the last of the three passages, and two items, more
    than [k], come back. *)
Lemma negative_k_returns_more :
  retrieve (R := plain_runtime) {| react_agent := Some block_agent |}
    (str "a hypothesis") (-1)
  = map evidence_item [PStr (str "first passage"); PStr (str "second passage")] /\
  (Z.of_nat (length (retrieve (R := plain_runtime)
                       {| react_agent := Some block_agent |}
                       (str "a hypothesis") (-1))) <=? -1)%Z = false.
Proof. split; vm_compute; reflexivity. Qed.

(** * Further properties *)

(** ** The rational model of the float confidence

    With at most five jurors the scaled quotient [100 * w / n] is an
    integer or a third away from one: its fractional part stays a
    tenth or more away from one half, far more than the error of a
    double, so rounding the double and rounding the rational agree. *)
Lemma quotient_far_from_tie (w n : nat) :
  1 <= w <= n -> n <= 5 ->
  let x := (Qmake (Z.of_nat w) (Pos.of_nat n) * 100)%Q in
  let frac := (x - inject_Z (Qfloor x))%Q in
  (frac <= 2 # 5)%Q \/ (3 # 5 <= frac)%Q.
Proof.
  intros Hw Hn.
  assert (En : n = 1 \/ n = 2 \/ n = 3 \/ n = 4 \/ n = 5) by lia.
  assert (Ew : w = 1 \/ w = 2 \/ w = 3 \/ w = 4 \/ w = 5) by lia.
  destruct En as [->|[->|[->|[->| ->]]]];
    destruct Ew as [->|[->|[->|[->| ->]]]];
    try lia;
    first [ left; vm_compute; discriminate | right; vm_compute; discriminate ].
Qed.

Lemma round_half_even_range (x : Q) (lo hi : Z) :
  (inject_Z lo <= x)%Q -> (x <= inject_Z hi)%Q ->
  (lo <= round_half_even x <= hi)%Z.
Proof.
  intros Hlo Hhi.
  assert (Hf1 : (lo <= Qfloor x)%Z).
  { rewrite <- (Qfloor_Z lo). apply Qfloor_resp_le. exact Hlo. }
  assert (Hf2 : (Qfloor x <= hi)%Z).
  { rewrite <- (Qfloor_Z hi). apply Qfloor_resp_le. exact Hhi. }
  pose proof (Qfloor_le x) as Hfl.
  assert (Hup : (inject_Z (Qfloor x) < x)%Q -> (Qfloor x + 1 <= hi)%Z).
  { intros H. assert (Hlt : (inject_Z (Qfloor x) < inject_Z hi)%Q) by lra.
    rewrite <- Zlt_Qlt in Hlt. lia. }
  unfold round_half_even.
  destruct (Qcompare (x - inject_Z (Qfloor x)) (1 # 2)) eqn:C.
  - apply Qeq_alt in C. destruct (Z.even (Qfloor x)); [lia|].
    split; [lia|]. apply Hup. lra.
  - lia.
  - apply Qgt_alt in C. split; [lia|]. apply Hup. lra.
Qed.

Lemma count_of_le key votes : count_of key votes <= length votes.
Proof. unfold count_of. apply filter_length_le. Qed.

Lemma quotient_scaled_range (c n : nat) :
  c <= n -> 0 < n ->
  (inject_Z 0 <= Qmake (Z.of_nat c) (Pos.of_nat n) * 100)%Q /\
  (Qmake (Z.of_nat c) (Pos.of_nat n) * 100 <= inject_Z 100)%Q.
Proof.
  intros Hc Hn.
  assert (En : Z.pos (Pos.of_nat n) = Z.of_nat n).
  { rewrite <- positive_nat_Z, Nat2Pos.id by lia. reflexivity. }
  unfold Qle, Qmult, inject_Z. cbn [Qnum Qden].
  rewrite ?Pos.mul_1_r, ?Z.mul_1_r, En. split; lia.
Qed.

Lemma round2_unit (q : Q) :
  (inject_Z 0 <= q * 100)%Q -> (q * 100 <= inject_Z 100)%Q ->
  (0 <= round2 q)%Q /\ (round2 q <= 1)%Q.
Proof.
  intros Q0 Q1. destruct (@round_half_even_range _ _ _ Q0 Q1) as [H0 H1].
  unfold round2, Qle. cbn [Qnum Qden]. lia.
Qed.

(** X1.  The confidence of every returned verdict lies between 0 and 1. *)
Theorem confidence_in_unit_interval {R : Runtime} (lm : LM) (rnd : nat -> nat)
    (question : pystr) (choices : list (pystr * pystr))
    (evidence_list : list pyval) (num_arbiters : Z) (v : Verdict) :
  synthesize lm rnd question choices evidence_list num_arbiters = Ok v ->
  (0 <= confidence v)%Q /\ (confidence v <= 1)%Q.
Proof.
  intros H.
  destruct (synthesize_inv _ _ _ _ _ _ H) as (txt & names & _ & _ & Ht).
  set (B := flat_map _ names) in Ht.
  destruct (votes_of B) as [|x r] eqn:E.
  - rewrite tally_empty in Ht. injection Ht as <-. simpl. split; lra.
  - destruct (@tally_nonempty (x :: r) B) as (w & Hw & Hin & _); [discriminate|].
    rewrite Hw in Ht. injection Ht as <-. cbn [confidence].
    pose proof (count_of_le w (x :: r)) as Hle.
    pose proof (@count_of_present _ _ Hin) as Hpos.
    destruct (@quotient_scaled_range (count_of w (x :: r)) (length (x :: r)))
      as [Q0 Q1]; [exact Hle | lia |].
    exact (@round2_unit _ Q0 Q1).
Qed.

Lemma confidence_in_unit_interval_witness :
  (0 <= confidence scripted_verdict)%Q /\ (confidence scripted_verdict <= 1)%Q.
Proof.
  exact (@confidence_in_unit_interval plain_runtime scripted_lm counting_rnd
           trial_question abcd trial_evidence 3 scripted_verdict scripted_trial).
Defined.

(** The scenario of the specification, on the tally alone: ballots B,
    B, A give verdict B, confidence 0.67 and breakdown B: 2, A: 1. *)
Theorem tally_of_B_B_A (logs : list Ballot) :
  tally [str "B"; str "B"; str "A"] logs =
    Ok {| final_verdict := Some (str "B");
          confidence := Qmake 67 100;
          vote_breakdown := [(str "B", 2); (str "A", 1)];
          juror_deliberations := logs |}.
Proof. reflexivity. Qed.

(** X2.  What the evidence formatting does on every element for which it
    returns: a string that is not JSON surfaces as itself, a JSON
    object surfaces its [contents] member or else the raw string, a
    mapping surfaces [contents], else [text], else its [str], any
    other element surfaces as the empty text; and the block lists the
    elements in order, each under its label. *)
Theorem evidence_fallback_chain {R : Runtime} :
  (forall s, Json.loads s = Json.JSONDecodeError ->
     evidence_content (PStr s) = Ok (PStr s)) /\
  (forall s d, Json.loads s = Json.Value (PDict d) ->
     evidence_content (PStr s) =
       Ok (match dict_lookup d (str "contents") with
           | Some c => c
           | None => PStr s
           end)) /\
  (forall d,
     evidence_content (PDict d) =
       Ok (match dict_lookup d (str "contents") with
           | Some c => c
           | None =>
               match dict_lookup d (str "text") with
               | Some t => t
               | None => PStr (py_str (PDict d))
               end
           end)) /\
  (forall ev,
     (forall s, ev <> PStr s) -> (forall d, ev <> PDict d) ->
     evidence_content ev = Ok (PStr [])) /\
  (forall evidence_list contents,
     map evidence_content evidence_list = map Ok contents ->
     format_evidence evidence_list =
       Ok ((newline :: str " Evidence - ")
           ++ concat (map (fun ic => document_line (fst ic) (snd ic))
                        (combine (seq 0 (length contents)) contents)))).
Proof.
  split; [exact evidence_content_not_json|].
  split; [exact evidence_content_json_object|].
  split; [exact evidence_content_mapping|].
  split.
  - intros ev Hs Hd. destruct ev; try reflexivity.
    + exfalso. eapply Hs. reflexivity.
    + exfalso. eapply Hd. reflexivity.
  - intros evidence_list contents Hmap. unfold format_evidence.
    generalize (newline :: str " Evidence - "). generalize 0.
    revert contents Hmap.
    induction evidence_list as [|ev rest IH]; intros [|c contents] Hmap i acc;
      try discriminate.
    + simpl. rewrite app_nil_r. reflexivity.
    + simpl in Hmap. injection Hmap as Hc Hrest.
      cbn [format_evidence_from]. rewrite Hc. cbn [bind].
      rewrite (IH _ Hrest). cbn [length seq combine map concat fst snd].
      rewrite <- app_assoc. reflexivity.
Qed.



(** ** When [synthesize] returns *)

Section OutcomeFacts.
Context {R : Runtime}.

(** An evidence element has a content exactly when it has no
    exception, and otherwise raises that exception. *)
Lemma evidence_content_outcome ev :
  match evidence_exception ev with
  | Some e => evidence_content ev = Raise e
  | None => exists c, evidence_content ev = Ok c
  end.
Proof.
  destruct ev as [| | | |s| |]; cbn [evidence_exception evidence_content];
    try (eexists; reflexivity).
  destruct (Json.loads s) as [[]| |e]; try reflexivity; eexists; reflexivity.
Qed.

Lemma format_evidence_from_outcome evidence_list : forall i acc,
  match first_exception evidence_list with
  | Some e => format_evidence_from i evidence_list acc = Raise e
  | None => exists txt, format_evidence_from i evidence_list acc = Ok txt
  end.
Proof.
  induction evidence_list as [|ev rest IH]; intros i acc;
    cbn [first_exception format_evidence_from].
  - eexists. reflexivity.
  - pose proof (evidence_content_outcome ev) as Hev.
    destruct (evidence_exception ev) as [e|].
    + rewrite Hev. reflexivity.
    + destruct Hev as [c Hc]. rewrite Hc. cbn [bind]. apply IH.
Qed.

Lemma format_evidence_from_good evidence_list :
  first_exception evidence_list = None ->
  forall i acc, exists txt, format_evidence_from i evidence_list acc = Ok txt.
Proof.
  intros H i acc. pose proof (format_evidence_from_outcome evidence_list i acc) as Ho.
  rewrite H in Ho. exact Ho.
Qed.




End OutcomeFacts.

(** The two limits of the decoder at work under [plain_runtime]: an
    integer of 4300 digits is read and one of 4301 is refused, the
    sign not counting; 900 nested arrays are read and 901 are not; of
    several errors the first in the text is the one raised; and
    [synthesize] raises what the decoder raised. *)
Example loads_integer_limit :
  (exists z, Json.loads (R := plain_runtime) (repeat 49%N 4300)
               = Json.Value (PInt z)) /\
  (exists z, Json.loads (R := plain_runtime) (45%N :: repeat 49%N 4300)
               = Json.Value (PInt z)) /\
  Json.loads (R := plain_runtime) (repeat 49%N 4301) = Json.Other ValueError /\
  Json.loads (R := plain_runtime) (45%N :: repeat 49%N 4301)
    = Json.Other ValueError.
Proof.
  split; [eexists; vm_compute; reflexivity|].
  split; [eexists; vm_compute; reflexivity|].
  split; vm_compute; reflexivity.
Qed.

Example loads_nesting_limit :
  (exists v, Json.loads (R := plain_runtime)
               (repeat 91%N 900 ++ repeat 93%N 900) = Json.Value v) /\
  Json.loads (R := plain_runtime) (repeat 91%N 901 ++ repeat 93%N 901)
    = Json.Other RecursionError /\
  Json.loads (R := plain_runtime) (repeat 91%N 2000) = Json.Other RecursionError.
Proof.
  split; [eexists; vm_compute; reflexivity|].
  split; vm_compute; reflexivity.
Qed.

Example loads_first_error :
  Json.loads (R := plain_runtime) (str "[" ++ repeat 49%N 4301 ++ str ", }")
    = Json.Other ValueError /\
  Json.loads (R := plain_runtime) (str "[} " ++ repeat 49%N 4301)
    = Json.JSONDecodeError.
Proof. split; vm_compute; reflexivity. Qed.

Example synthesize_decoder_exceptions :
  synthesize (R := plain_runtime) scripted_lm counting_rnd trial_question abcd
    [PStr (str "{" ++ [dquote] ++ str "n" ++ [dquote] ++ str ": "
           ++ repeat 49%N 4301 ++ str "}")] 3
    = Raise ValueError /\
  synthesize (R := plain_runtime) scripted_lm counting_rnd trial_question abcd
    [PStr (repeat 91%N 2000)] 3
    = Raise RecursionError.
Proof. split; vm_compute; reflexivity. Qed.




(** ** The transcript and the breakdown *)

Lemma ballot_vote_valid {R : Runtime} (lm : LM) (q o e : pystr)
    (choices : list (pystr * pystr)) name b k :
  In b (juror_ballot lm q o e choices name) -> vote b = Some k ->
  In k (map fst choices) /\ length k = 1.
Proof.
  unfold juror_ballot. destruct (dict_lookup LEGAL_PERSONAS name); [|intros []].
  destruct (lm _ _ _ _) as [|why raw]; [intros []|].
  intros [<-|[]] Hv. cbn [vote] in Hv. split.
  - eapply extract_vote_key. exact Hv.
  - destruct (extract_vote_char _ _ Hv) as (c & -> & _). reflexivity.
Qed.

Lemma synthesize_transcript {R : Runtime} (lm : LM) (rnd : nat -> nat)
    (question : pystr) (choices : list (pystr * pystr))
    (evidence_list : list pyval) (num_arbiters : Z) (v : Verdict) :
  synthesize lm rnd question choices evidence_list num_arbiters = Ok v ->
  exists evidence_text names,
    select_jury rnd num_arbiters = Ok names /\
    juror_deliberations v =
      flat_map (juror_ballot lm question (format_options choices)
                  evidence_text choices) names.
Proof.
  intros H. destruct (synthesize_inv _ _ _ _ _ _ H) as (txt & names & _ & Hs & Ht).
  exists txt, names. split; [exact Hs|].
  destruct (tally_total
              (votes_of (flat_map (juror_ballot lm question
                 (format_options choices) txt choices) names))
              (flat_map (juror_ballot lm question
                 (format_options choices) txt choices) names))
    as (v' & Hv' & Hlogs).
  rewrite Hv' in Ht. injection Ht as <-. exact Hlogs.
Qed.

(** X5.  In every returned verdict the transcript names each persona
    at most once, names only personas of the registry, has at most
    [min(num_arbiters, 5)] ballots, and every vote it records is a
    single character that is a key of [choices]. *)
Theorem transcript_invariants {R : Runtime} (lm : LM) (rnd : nat -> nat)
    (question : pystr) (choices : list (pystr * pystr))
    (evidence_list : list pyval) (num_arbiters : Z) (v : Verdict) :
  synthesize lm rnd question choices evidence_list num_arbiters = Ok v ->
  let logs := juror_deliberations v in
  NoDup (map persona logs) /\
  (forall b, In b logs -> In (persona b) (map fst LEGAL_PERSONAS)) /\
  (Z.of_nat (length logs) <= Z.min num_arbiters 5)%Z /\
  (forall b k, In b logs -> vote b = Some k ->
     In k (map fst choices) /\ length k = 1).
Proof.
  intros H logs.
  destruct (synthesize_transcript _ _ _ _ _ _ H) as (txt & names & Hs & Hlogs).
  destruct (select_jury_inv _ _ Hs) as (_ & Hlen & Hnd & Hincl).
  destruct (@ballots_of_survivors R lm question (format_options choices) txt
              choices names Hincl) as [_ Hpersonas].
  subst logs. rewrite Hlogs. split; [|split; [|split]].
  - rewrite Hpersonas. apply NoDup_filter. exact Hnd.
  - intros b Hb. apply Hincl.
    assert (Hp : In (persona b) (map persona (flat_map
               (juror_ballot lm question (format_options choices) txt choices)
               names))) by (apply in_map; exact Hb).
    rewrite Hpersonas in Hp. apply filter_In in Hp. apply Hp.
  - rewrite <- (length_map persona), Hpersonas.
    pose proof (filter_length_le
                  (fun n => negb (juror_fails lm question (format_options choices)
                                    txt n)) names).
    lia.
  - intros b k Hb Hk. apply in_flat_map in Hb. destruct Hb as (name & _ & Hb).
    eapply ballot_vote_valid; eassumption.
Qed.

Lemma transcript_invariants_witness :
  let logs := juror_deliberations scripted_verdict in
  NoDup (map persona logs) /\
  (forall b, In b logs -> In (persona b) (map fst LEGAL_PERSONAS)) /\
  (Z.of_nat (length logs) <= Z.min 3 5)%Z /\
  (forall b k, In b logs -> vote b = Some k ->
     In k (map fst abcd) /\ length k = 1).
Proof.
  exact (@transcript_invariants plain_runtime scripted_lm counting_rnd
           trial_question abcd trial_evidence 3 scripted_verdict scripted_trial).
Defined.

Lemma dict_lookup_counts (f : pystr -> nat) ks k :
  dict_lookup (map (fun x => (x, f x)) ks) k =
  if dict_mem (map (fun x => (x, tt)) ks) k then Some (f k) else None.
Proof.
  induction ks as [|x ks IH]; [reflexivity|].
  unfold dict_mem in *. cbn [map dict_lookup].
  destruct (str_eqb x k) eqn:E.
  - apply str_eqb_eq in E. subst. reflexivity.
  - exact IH.
Qed.

(** What [vote_breakdown.get(key)] gives after counting. *)
Lemma Counter_lookup votes k :
  dict_lookup (Counter votes) k =
  if count_of k votes =? 0 then None else Some (count_of k votes).
Proof.
  rewrite Counter_closed, dict_lookup_counts.
  destruct (dict_mem (map (fun x => (x, tt)) (first_occ votes)) k) eqn:E.
  - apply (proj1 (dict_mem_units _ _)) in E.
    apply (proj1 (first_occ_In _ _)) in E.
    apply count_of_present in E.
    destruct (count_of k votes); [lia | reflexivity].
  - assert (Hk : ~ In k votes).
    { intros Hin. apply (proj2 (first_occ_In _ _)) in Hin.
      apply (proj2 (dict_mem_units _ _)) in Hin. congruence. }
    rewrite (@count_of_absent k votes Hk). reflexivity.
Qed.

(** X6.  In every returned verdict [vote_breakdown] has one entry per
    distinct recorded vote: its keys are distinct keys of [choices],
    each count is at least 1 and is the number of ballots cast for
    that key, a key without ballots is absent, and the breakdown is
    empty exactly when there is no [final_verdict]. *)
Theorem vote_breakdown_structure {R : Runtime} (lm : LM) (rnd : nat -> nat)
    (question : pystr) (choices : list (pystr * pystr))
    (evidence_list : list pyval) (num_arbiters : Z) (v : Verdict) :
  synthesize lm rnd question choices evidence_list num_arbiters = Ok v ->
  let votes := votes_of (juror_deliberations v) in
  NoDup (map fst (vote_breakdown v)) /\
  (forall k c, In (k, c) (vote_breakdown v) ->
     In k (map fst choices) /\ 1 <= c /\ c = count_of k votes) /\
  (forall k, dict_lookup (vote_breakdown v) k =
             if count_of k votes =? 0 then None else Some (count_of k votes)) /\
  (vote_breakdown v = [] <-> final_verdict v = None).
Proof.
  intros H votes.
  pose proof (synthesize_logs _ _ _ _ _ _ H) as Hvalid. fold votes in Hvalid.
  destruct (synthesize_inv _ _ _ _ _ _ H) as (txt & names & _ & _ & Ht).
  set (B := flat_map _ names) in Ht.
  destruct (tally_total (votes_of B) B) as (v' & Hv' & Hlogs).
  rewrite Hv' in Ht. injection Ht as ->.
  subst votes. rewrite Hlogs in *.
  destruct (votes_of B) as [|x r] eqn:E.
  - rewrite tally_empty in Hv'. injection Hv' as <-. cbn.
    repeat split; try constructor; try tauto.
  - destruct (@tally_nonempty (x :: r) B) as (w & Hw & _); [discriminate|].
    rewrite Hw in Hv'. injection Hv' as <-.
    cbn [vote_breakdown final_verdict].
    split; [|split; [|split]].
    + rewrite Counter_closed, map_map, map_id. apply first_occ_NoDup.
    + intros k c Hin. rewrite Counter_closed in Hin. apply in_map_iff in Hin.
      destruct Hin as (k' & [= <- <-] & Hk).
      apply (proj1 (first_occ_In _ _)) in Hk.
      split; [|split; [|reflexivity]].
      * rewrite Forall_forall in Hvalid. apply Hvalid. exact Hk.
      * apply count_of_present. exact Hk.
    + apply Counter_lookup.
    + destruct (Counter_head x r) as [rest Hc]. rewrite Hc.
      split; discriminate.
Qed.

Lemma vote_breakdown_structure_witness :
  let votes := votes_of (juror_deliberations scripted_verdict) in
  NoDup (map fst (vote_breakdown scripted_verdict)) /\
  (forall k c, In (k, c) (vote_breakdown scripted_verdict) ->
     In k (map fst abcd) /\ 1 <= c /\ c = count_of k votes) /\
  (forall k, dict_lookup (vote_breakdown scripted_verdict) k =
             if count_of k votes =? 0 then None else Some (count_of k votes)) /\
  (vote_breakdown scripted_verdict = [] <-> final_verdict scripted_verdict = None).
Proof.
  exact (@vote_breakdown_structure plain_runtime scripted_lm counting_rnd
           trial_question abcd trial_evidence 3 scripted_verdict scripted_trial).
Defined.

(** ** Majorities *)

Lemma count_of_two w k votes :
  w <> k -> count_of w votes + count_of k votes <= length votes.
Proof.
  intros Hne. unfold count_of.
  induction votes as [|x r IH]; [simpl; lia|]. cbn [filter length].
  destruct (str_eqb w x) eqn:Ew; destruct (str_eqb k x) eqn:Ek;
    cbn [length]; try lia.
  apply str_eqb_eq in Ew, Ek. congruence.
Qed.

Lemma count_of_all k votes :
  (forall x, In x votes -> x = k) -> count_of k votes = length votes.
Proof.
  unfold count_of. induction votes as [|x r IH]; intros H; [reflexivity|].
  cbn [filter]. rewrite (H x (or_introl eq_refl)), str_eqb_refl. cbn [length].
  f_equal. apply IH. intros y Hy. apply H. right. exact Hy.
Qed.

Lemma first_occ_all k votes :
  votes <> [] -> (forall x, In x votes -> x = k) -> first_occ votes = [k].
Proof.
  destruct votes as [|x r]; [congruence|]. intros _ H. cbn [first_occ].
  rewrite (H x (or_introl eq_refl)). f_equal.
  assert (Hall : forall y, In y (first_occ r) -> y = k).
  { intros y Hy. apply H. right. apply first_occ_In. exact Hy. }
  induction (first_occ r) as [|y l IH]; [reflexivity|]. cbn [filter].
  rewrite (Hall y (or_introl eq_refl)), str_eqb_refl. cbn [negb].
  apply IH. intros z Hz. apply Hall. right. exact Hz.
Qed.

Lemma quotient_at_least_half (c n : nat) :
  n < 2 * c -> c <= n ->
  (inject_Z 50 <= Qmake (Z.of_nat c) (Pos.of_nat n) * 100)%Q.
Proof.
  intros Hc Hn.
  assert (En : Z.pos (Pos.of_nat n) = Z.of_nat n).
  { rewrite <- positive_nat_Z, Nat2Pos.id by lia. reflexivity. }
  unfold Qle, Qmult, inject_Z. cbn [Qnum Qden].
  rewrite ?Pos.mul_1_r, ?Z.mul_1_r, En. lia.
Qed.

(** X7.  A key that holds more than half of the recorded votes is the
    verdict, whatever the order of the ballots, and the confidence is
    then at least 0.5. *)
Theorem strict_majority_wins {R : Runtime} (lm : LM) (rnd : nat -> nat)
    (question : pystr) (choices : list (pystr * pystr))
    (evidence_list : list pyval) (num_arbiters : Z) (v : Verdict) (k : pystr) :
  synthesize lm rnd question choices evidence_list num_arbiters = Ok v ->
  length (votes_of (juror_deliberations v))
    < 2 * count_of k (votes_of (juror_deliberations v)) ->
  final_verdict v = Some k /\ (1 # 2 <= confidence v)%Q.
Proof.
  intros H Hmaj.
  destruct (synthesize_inv _ _ _ _ _ _ H) as (txt & names & _ & _ & Ht).
  set (B := flat_map _ names) in Ht.
  destruct (tally_total (votes_of B) B) as (v' & Hv' & Hlogs).
  rewrite Hv' in Ht. injection Ht as ->. rewrite Hlogs in Hmaj.
  assert (Hne : votes_of B <> []).
  { intros E. rewrite E in Hmaj. cbn in Hmaj. lia. }
  destruct (@tally_nonempty (votes_of B) B Hne) as (w & Hw & Hin & Hmax & _).
  rewrite Hw in Hv'. injection Hv' as <-. cbn [final_verdict confidence].
  assert (Ewk : w = k).
  { destruct (list_eq_dec N.eq_dec w k) as [E|E]; [exact E|].
    pose proof (count_of_two (votes_of B) E). specialize (Hmax k). lia. }
  subst w. split; [reflexivity|].
  pose proof (count_of_le k (votes_of B)) as Hle.
  pose proof (quotient_at_least_half Hmaj Hle) as Q0.
  destruct (@quotient_scaled_range (count_of k (votes_of B)) (length (votes_of B)))
    as [_ Q1]; [exact Hle | lia |].
  destruct (@round_half_even_range _ _ _ Q0 Q1) as [H0 _].
  unfold round2, Qle. cbn [Qnum Qden]. lia.
Qed.

Lemma strict_majority_wins_witness :
  length (votes_of (juror_deliberations scripted_verdict))
    < 2 * count_of (str "B") (votes_of (juror_deliberations scripted_verdict)) /\
  final_verdict scripted_verdict = Some (str "B") /\
  (1 # 2 <= confidence scripted_verdict)%Q.
Proof.
  assert (Hmaj : length (votes_of (juror_deliberations scripted_verdict))
                 < 2 * count_of (str "B")
                         (votes_of (juror_deliberations scripted_verdict)))
    by (vm_compute; lia).
  split; [exact Hmaj|].
  exact (@strict_majority_wins plain_runtime scripted_lm counting_rnd
           trial_question abcd trial_evidence 3 scripted_verdict (str "B")
           scripted_trial Hmaj).
Defined.

(** X8.  When every recorded vote is for the same key, that key is the
    verdict, the confidence is exactly 1.0 and the breakdown has the
    single entry of that key with the number of votes. *)
Theorem unanimous_verdict {R : Runtime} (lm : LM) (rnd : nat -> nat)
    (question : pystr) (choices : list (pystr * pystr))
    (evidence_list : list pyval) (num_arbiters : Z) (v : Verdict) (k : pystr) :
  synthesize lm rnd question choices evidence_list num_arbiters = Ok v ->
  votes_of (juror_deliberations v) <> [] ->
  (forall x, In x (votes_of (juror_deliberations v)) -> x = k) ->
  final_verdict v = Some k /\
  confidence v = Qmake 100 100 /\
  vote_breakdown v = [(k, length (votes_of (juror_deliberations v)))].
Proof.
  intros H Hne Hall.
  destruct (synthesize_inv _ _ _ _ _ _ H) as (txt & names & _ & _ & Ht).
  set (B := flat_map _ names) in Ht.
  destruct (tally_total (votes_of B) B) as (v' & Hv' & Hlogs).
  rewrite Hv' in Ht. injection Ht as ->. rewrite Hlogs in *.
  destruct (@tally_nonempty (votes_of B) B Hne) as (w & Hw & Hin & _).
  rewrite Hw in Hv'. injection Hv' as <-.
  cbn [final_verdict confidence vote_breakdown].
  rewrite (Hall w Hin). split; [reflexivity|]. split.
  - rewrite (count_of_all _ Hall). unfold round2. f_equal.
    set (n := length (votes_of B)).
    assert (Hn : 0 < n).
    { subst n. destruct (votes_of B); [congruence | cbn; lia]. }
    assert (En : Z.pos (Pos.of_nat n) = Z.of_nat n).
    { rewrite <- positive_nat_Z, Nat2Pos.id by lia. reflexivity. }
    assert (Q0 : (inject_Z 100 <= Qmake (Z.of_nat n) (Pos.of_nat n) * 100)%Q).
    { unfold Qle, Qmult, inject_Z. cbn [Qnum Qden].
      rewrite ?Pos.mul_1_r, ?Z.mul_1_r, En. lia. }
    assert (Q1 : (Qmake (Z.of_nat n) (Pos.of_nat n) * 100 <= inject_Z 100)%Q).
    { unfold Qle, Qmult, inject_Z. cbn [Qnum Qden].
      rewrite ?Pos.mul_1_r, ?Z.mul_1_r, En. lia. }
    pose proof (@round_half_even_range _ _ _ Q0 Q1). lia.
  - rewrite Counter_closed, (first_occ_all Hne Hall). cbn [map].
    rewrite (count_of_all _ Hall). reflexivity.
Qed.

Lemma unanimous_verdict_witness :
  let v := verdict_or_empty
             (synthesize (R := plain_runtime) (constant_lm (str " c"))
                counting_rnd trial_question abcd trial_evidence 4) in
  final_verdict v = Some (str "C") /\
  confidence v = Qmake 100 100 /\
  vote_breakdown v = [(str "C", length (votes_of (juror_deliberations v)))].
Proof.
  intros v.
  assert (Hv : synthesize (R := plain_runtime) (constant_lm (str " c"))
                 counting_rnd trial_question abcd trial_evidence 4 = Ok v)
    by (vm_compute; reflexivity).
  apply (@unanimous_verdict plain_runtime (constant_lm (str " c")) counting_rnd
           trial_question abcd trial_evidence 4 v (str "C") Hv).
  - vm_compute. discriminate.
  - vm_compute. intuition congruence.
Defined.

(** ** The order of the ballots *)

Lemma count_of_perm k votes votes' :
  Permutation votes votes' -> count_of k votes = count_of k votes'.
Proof.
  unfold count_of. induction 1 as [|x l l' _ IH|x y l|l l' l'' _ IH1 _ IH2];
    cbn [filter].
  - reflexivity.
  - destruct (str_eqb k x); cbn [length]; rewrite IH; reflexivity.
  - destruct (str_eqb k x); destruct (str_eqb k y); reflexivity.
  - rewrite IH1. exact IH2.
Qed.

(** X9.  Reordering the votes changes neither any count of the
    breakdown nor the confidence nor the number of votes of the
    winner; only which of several tied keys wins depends on the
    order. *)
Theorem tally_order_independent (votes votes' : list pystr)
    (logs logs' : list Ballot) (v v' : Verdict) :
  Permutation votes votes' ->
  tally votes logs = Ok v ->
  tally votes' logs' = Ok v' ->
  confidence v = confidence v' /\
  (forall k, dict_lookup (vote_breakdown v) k = dict_lookup (vote_breakdown v') k) /\
  (forall w w', final_verdict v = Some w -> final_verdict v' = Some w' ->
     count_of w votes = count_of w' votes) /\
  (final_verdict v = None <-> final_verdict v' = None).
Proof.
  intros Hperm Hv Hv'.
  destruct votes as [|x r] eqn:E.
  - apply Permutation_nil in Hperm. subst votes'.
    rewrite tally_empty in Hv, Hv'. injection Hv as <-. injection Hv' as <-.
    cbn. repeat split; intros; congruence.
  - rewrite <- E in *.
    assert (Hne : votes <> []) by (rewrite E; discriminate).
    assert (Hne' : votes' <> []).
    { intros E'. rewrite E' in Hperm. apply Permutation_sym, Permutation_nil in Hperm.
      congruence. }
    destruct (@tally_nonempty votes logs Hne) as (w & Hw & _ & Hmax & _).
    destruct (@tally_nonempty votes' logs' Hne') as (w' & Hw' & _ & Hmax' & _).
    rewrite Hw in Hv. injection Hv as <-. rewrite Hw' in Hv'. injection Hv' as <-.
    cbn [confidence vote_breakdown final_verdict].
    assert (Hcount : count_of w votes = count_of w' votes').
    { pose proof (Hmax w'). pose proof (Hmax' w).
      rewrite <- (count_of_perm w Hperm) in *.
      rewrite <- (count_of_perm w' Hperm) in *. lia. }
    split; [|split; [|split]].
    + rewrite Hcount, (Permutation_length Hperm). reflexivity.
    + intros k. rewrite !Counter_lookup, (count_of_perm k Hperm). reflexivity.
    + intros a b [= <-] [= <-]. rewrite Hcount.
      symmetry. apply count_of_perm. exact Hperm.
    + split; discriminate.
Qed.

Lemma tally_order_independent_witness :
  let votes := [str "A"; str "B"; str "B"; str "A"] in
  let votes' := [str "B"; str "A"; str "A"; str "B"] in
  let v := verdict_or_empty (tally votes []) in
  let v' := verdict_or_empty (tally votes' []) in
  Permutation votes votes' /\
  final_verdict v = Some (str "A") /\ final_verdict v' = Some (str "B") /\
  confidence v = confidence v' /\
  (forall k, dict_lookup (vote_breakdown v) k = dict_lookup (vote_breakdown v') k).
Proof.
  intros votes votes' v v'.
  assert (Hperm : Permutation votes votes').
  { subst votes votes'.
    apply perm_trans with (l' := [str "B"; str "A"; str "B"; str "A"]).
    - apply perm_swap.
    - apply perm_skip, perm_skip, perm_swap. }
  split; [exact Hperm|]. split; [reflexivity|]. split; [reflexivity|].
  destruct (@tally_order_independent votes votes' [] [] v v' Hperm eq_refl eq_refl)
    as (Hc & Hb & _).
  split; assumption.
Defined.

(** ** The size of the jury *)

Lemma Permutation_filter {A} (f : A -> bool) l l' :
  Permutation l l' -> Permutation (filter f l) (filter f l').
Proof.
  induction 1 as [|x l l' _ IH|x y l|l l' l'' _ IH1 _ IH2]; cbn [filter].
  - constructor.
  - destruct (f x); [apply perm_skip|]; exact IH.
  - destruct (f x); destruct (f y); try apply Permutation_refl. apply perm_swap.
  - eapply perm_trans; eassumption.
Qed.

(** X10.  With five or more arbiters the jury is the whole registry in
    some order: the transcript holds exactly one ballot for every
    persona whose predictor call returned. *)
Theorem full_jury {R : Runtime} (lm : LM) (rnd : nat -> nat)
    (question : pystr) (choices : list (pystr * pystr))
    (evidence_list : list pyval) (num_arbiters : Z) (v : Verdict) :
  (5 <= num_arbiters)%Z ->
  synthesize lm rnd question choices evidence_list num_arbiters = Ok v ->
  exists evidence_text names,
    format_evidence evidence_list = Ok evidence_text /\
    select_jury rnd num_arbiters = Ok names /\
    Permutation names (map fst LEGAL_PERSONAS) /\
    Permutation (map persona (juror_deliberations v))
      (filter (fun n => negb (juror_fails lm question (format_options choices)
                                evidence_text n))
              (map fst LEGAL_PERSONAS)).
Proof.
  intros Hn H.
  destruct (synthesize_inv _ _ _ _ _ _ H) as (txt & names & Hf & Hs & Ht).
  destruct (select_jury_inv _ _ Hs) as (_ & Hlen & Hnd & Hincl).
  assert (Hperm : Permutation names (map fst LEGAL_PERSONAS)).
  { apply NoDup_Permutation_bis; [exact Hnd | | exact Hincl].
    rewrite length_map, personas_count. lia. }
  exists txt, names. repeat split; try assumption.
  destruct (tally_total
              (votes_of (flat_map (juror_ballot lm question
                 (format_options choices) txt choices) names))
              (flat_map (juror_ballot lm question
                 (format_options choices) txt choices) names))
    as (v' & Hv' & Hlogs).
  rewrite Hv' in Ht. injection Ht as <-. rewrite Hlogs.
  destruct (@ballots_of_survivors R lm question (format_options choices) txt
              choices names Hincl) as [_ Hpersonas].
  rewrite Hpersonas. apply Permutation_filter. exact Hperm.
Qed.

Lemma full_jury_witness :
  (5 <= 7)%Z /\
  exists evidence_text names,
    format_evidence (R := plain_runtime) trial_evidence = Ok evidence_text /\
    select_jury counting_rnd 7 = Ok names /\
    Permutation names (map fst LEGAL_PERSONAS) /\
    Permutation
      (map persona
         (juror_deliberations
            (verdict_or_empty
               (synthesize (R := plain_runtime) scripted_lm counting_rnd
                  trial_question abcd trial_evidence 7))))
      (filter (fun n => negb (juror_fails scripted_lm trial_question
                                (format_options abcd) evidence_text n))
              (map fst LEGAL_PERSONAS)).
Proof.
  split; [lia|].
  apply (@full_jury plain_runtime scripted_lm counting_rnd trial_question abcd
           trial_evidence 7).
  - lia.
  - vm_compute. reflexivity.
Defined.

(** X11.  With [num_arbiters = 0] nobody is consulted: on evidence
    that prints and of which no element raises (no string on which
    [json.loads] raises [ValueError] or [RecursionError], none that
    decodes to JSON that is not an object), the result is the
    no-votes verdict with an empty transcript. *)
Theorem empty_jury {R : Runtime} (lm : LM) (rnd : nat -> nat)
    (question : pystr) (choices : list (pystr * pystr))
    (evidence_list : list pyval) :
  Forall (fun ev => prints ev = true) evidence_list ->
  first_exception evidence_list = None ->
  synthesize lm rnd question choices evidence_list 0 =
    Ok {| final_verdict := None; confidence := 0%Q;
          vote_breakdown := []; juror_deliberations := [] |}.
Proof.
  intros _ Hgood.
  destruct (format_evidence_from_good _ Hgood 0 (newline :: str " Evidence - "))
    as [txt Hf].
  unfold synthesize, format_evidence. rewrite Hf. reflexivity.
Qed.

Lemma empty_jury_witness :
  Forall (fun ev => prints (R := plain_runtime) ev = true) trial_evidence /\
  first_exception (R := plain_runtime) trial_evidence = None /\
  synthesize (R := plain_runtime) scripted_lm counting_rnd trial_question abcd
    trial_evidence 0 =
    Ok {| final_verdict := None; confidence := 0%Q;
          vote_breakdown := []; juror_deliberations := [] |}.
Proof.
  assert (Hprints : Forall (fun ev => prints (R := plain_runtime) ev = true)
                      trial_evidence).
  { apply Forall_cons; [reflexivity | apply Forall_nil]. }
  split; [exact Hprints|]. split; [reflexivity|].
  exact (@empty_jury plain_runtime scripted_lm counting_rnd trial_question abcd
           trial_evidence Hprints eq_refl).
Defined.

(** ** Extraction again *)

(** X12.  Vote extraction is idempotent on letters: when the vote
    extracted from a raw text is a letter A to Z, extracting from
    that vote gives the same vote. *)
Theorem extract_vote_idempotent {R : Runtime} (choices : list (pystr * pystr))
    (raw : pystr) (c : N) :
  extract_vote choices raw = Some [c] ->
  (65 <= c <= 90)%N ->
  extract_vote choices [c] = Some [c].
Proof.
  intros H Hc. unfold extract_vote in *.
  apply first_valid_some in H.
  destruct H as (pre & c' & post & _ & [= <-] & Hmem & _).
  assert (Hsp : is_space c = false).
  { unfold is_space.
    repeat match goal with
           | |- context [(?a <=? ?b)%N] =>
               destruct (N.leb_spec a b); try lia
           | |- context [(?a =? ?b)%N] =>
               destruct (N.eqb_spec a b); try lia
           end;
      reflexivity. }
  assert (Hstrip : strip [c] = [c]).
  { unfold strip, rstrip. cbn [lstrip rev app]. rewrite Hsp.
    cbn [rev app lstrip]. rewrite Hsp. reflexivity. }
  assert (Hup : upper [c] = [c]).
  { unfold upper, upper_char. cbn [flat_map]. unfold is_ascii_lower.
    replace (97 <=? c)%N with false by (symmetry; apply N.leb_gt; lia).
    cbn [andb].
    replace (c <? 128)%N with true by (symmetry; apply N.ltb_lt; lia).
    reflexivity. }
  rewrite Hstrip, Hup. cbn [first_valid]. rewrite Hmem. reflexivity.
Qed.

Lemma extract_vote_idempotent_witness :
  extract_vote (R := plain_runtime) abcd (str "  b) because...") = Some [66%N] /\
  (65 <= 66 <= 90)%N /\
  extract_vote (R := plain_runtime) abcd [66%N] = Some [66%N].
Proof.
  split; [reflexivity|]. split; [lia|].
  apply (@extract_vote_idempotent plain_runtime abcd (str "  b) because...") 66%N).
  - reflexivity.
  - lia.
Defined.

(** ** The options block *)

Lemma split_on_whole sep p : ~ In sep p -> split_on sep p = [p].
Proof.
  induction p as [|c r IH]; intros H; [reflexivity|]. cbn [split_on].
  destruct (N.eqb_spec c sep) as [->|Hc]; [exfalso; apply H; left; reflexivity|].
  rewrite IH by (intros Hin; apply H; right; exact Hin). reflexivity.
Qed.

Lemma split_on_app sep p rest :
  ~ In sep p -> split_on sep (p ++ sep :: rest) = p :: split_on sep rest.
Proof.
  induction p as [|c r IH]; intros H; cbn [app split_on].
  - rewrite N.eqb_refl. reflexivity.
  - destruct (N.eqb_spec c sep) as [->|Hc]; [exfalso; apply H; left; reflexivity|].
    rewrite IH by (intros Hin; apply H; right; exact Hin). reflexivity.
Qed.

(** Splitting what was joined gives the parts back. *)
Lemma split_on_join_inverse sep parts :
  parts <> [] -> Forall (fun p => ~ In sep p) parts ->
  split_on sep (join [sep] parts) = parts.
Proof.
  induction parts as [|p rest IH]; [congruence|]. intros _ Hall.
  apply Forall_cons_iff in Hall. destruct Hall as [Hp Hrest].
  destruct rest as [|p' rest'].
  - cbn [join]. apply split_on_whole. exact Hp.
  - change (join [sep] (p :: p' :: rest'))
      with (p ++ sep :: join [sep] (p' :: rest')).
    rewrite split_on_app by exact Hp. f_equal.
    apply IH; [discriminate | exact Hrest].
Qed.

(** X13.  The options block shown to the jurors has exactly one line
    per choice, in the order of the mapping, each the key, a colon
    and a space, and the answer text, provided no key or text holds
    a newline; for an empty mapping the block is empty. *)
Theorem options_block_lines (choices : list (pystr * pystr)) :
  (forall k t, In (k, t) choices -> ~ In newline k /\ ~ In newline t) ->
  (choices <> [] ->
   split_on newline (format_options choices)
     = map (fun kt => fst kt ++ str ": " ++ snd kt) choices) /\
  (choices = [] -> format_options choices = []).
Proof.
  intros Hclean. split.
  - intros Hne. unfold format_options. apply split_on_join_inverse.
    + destruct choices; [congruence | discriminate].
    + apply Forall_forall. intros line Hline. apply in_map_iff in Hline.
      destruct Hline as ([k t] & <- & Hin). cbn [fst snd].
      destruct (Hclean k t Hin) as [Hk Ht].
      intros Hnl. apply in_app_or in Hnl. destruct Hnl as [Hnl|Hnl]; [tauto|].
      apply in_app_or in Hnl. destruct Hnl as [Hnl|Hnl]; [|tauto].
      cbn in Hnl. unfold newline in Hnl. intuition discriminate.
  - intros ->. reflexivity.
Qed.

Lemma options_block_lines_witness :
  split_on newline (format_options abcd)
    = [ str "A: Involuntary manslaughter";
        str "B: Voluntary manslaughter";
        str "C: Murder";
        str "D: None of the above" ].
Proof.
  refine (proj1 (@options_block_lines abcd _) _).
  - intros k t [[= <- <-]|[[= <- <-]|[[= <- <-]|[[= <- <-]|[]]]]];
      split; vm_compute; intuition discriminate.
  - discriminate.
Defined.

(** ** From the advocate to the jury *)







(** ** The retrieval tools *)

Lemma join_length sep parts :
  length (join sep parts) =
  list_sum (map (@length N) parts) + length sep * (length parts - 1).
Proof.
  induction parts as [|p rest IH]; [simpl; lia|].
  destruct rest as [|p' rest'].
  - simpl. lia.
  - change (join sep (p :: p' :: rest')) with (p ++ sep ++ join sep (p' :: rest')).
    rewrite !length_app, IH. simpl. lia.
Qed.

Lemma tagged_preview_length tag text :
  length (tagged_preview tag text) = length tag + Nat.min 300 (length text) + 3.
Proof.
  unfold tagged_preview. rewrite !length_app, length_firstn.
  change (length (str "...")) with 3. lia.
Qed.

Lemma previews_length tag texts :
  list_sum (map (@length N) (map (tagged_preview tag) texts))
  <= (length tag + 303) * length texts.
Proof.
  induction texts as [|t rest IH]; [simpl; lia|].
  simpl map. simpl list_sum. simpl length.
  rewrite tagged_preview_length. simpl in IH. lia.
Qed.

(** X16.  When the search returns, a retrieval tool answers with one
    block per hit (the tag, at most the first 300 characters of the
    hit, three dots), the blocks separated by an empty line: the
    answer is never longer than 312 characters per hit for the
    keyword tool and 313 for the dense tool, it is empty when there
    is no hit, and hits of at most 300 characters are shown whole. *)
Theorem search_tools_bounded (searcher : Searcher) (query : pystr)
    (hits : list pystr) :
  searcher query 3%Z = SearchHits hits ->
  length (_bm25_tool (Some searcher) query) <= 312 * length hits /\
  length (_dense_tool (Some searcher) query) <= 313 * length hits /\
  (hits = [] ->
   _bm25_tool (Some searcher) query = [] /\
   _dense_tool (Some searcher) query = []) /\
  (Forall (fun t => length t <= 300) hits ->
   _bm25_tool (Some searcher) query =
     join [newline; newline]
       (map (fun t => str "[BM25] " ++ t ++ str "...") hits) /\
   _dense_tool (Some searcher) query =
     join [newline; newline]
       (map (fun t => str "[Dense] " ++ t ++ str "...") hits)).
Proof.
  intros Hs. unfold _bm25_tool, _dense_tool. rewrite Hs.
  split; [|split; [|split]].
  - rewrite join_length, length_map.
    pose proof (previews_length (str "[BM25] ") hits) as H.
    cbn [length str map list_ascii_of_string] in *. lia.
  - rewrite join_length, length_map.
    pose proof (previews_length (str "[Dense] ") hits) as H.
    cbn [length str map list_ascii_of_string] in *. lia.
  - intros ->. split; reflexivity.
  - intros Hshort. split; f_equal; apply map_ext_in; intros t Ht;
      unfold tagged_preview; rewrite firstn_all2; try reflexivity;
      rewrite Forall_forall in Hshort; apply Hshort; exact Ht.
Qed.

Lemma search_tools_bounded_witness :
  let searcher : Searcher :=
    fun _ _ => SearchHits [str "a short passage"; repeat 120%N 400] in
  length (_bm25_tool (Some searcher) (str "eviction")) <= 312 * 2 /\
  length (_dense_tool (Some searcher) (str "eviction")) <= 313 * 2.
Proof.
  intros searcher.
  destruct (@search_tools_bounded searcher (str "eviction")
              [str "a short passage"; repeat 120%N 400] eq_refl)
    as (Hb & Hd & _).
  split; assumption.
Defined.

(** ** The least confidence of a verdict *)

Lemma counts_sum_bound (f : pystr -> nat) (w : nat) ks :
  (forall k, f k <= w) ->
  list_sum (map snd (map (fun k => (k, f k)) ks)) <= w * length ks.
Proof.
  intros Hw. induction ks as [|k ks IH]; [simpl; lia|].
  pose proof (Hw k) as Hk. simpl in *. rewrite Nat.mul_succ_r. lia.
Qed.

Lemma quotient_at_least_fifth (c n : nat) :
  1 <= c -> n <= 5 ->
  (inject_Z 20 <= Qmake (Z.of_nat c) (Pos.of_nat n) * 100)%Q.
Proof.
  intros Hc Hn.
  destruct n as [|n].
  - unfold Qle, Qmult, inject_Z. cbn [Qnum Qden Pos.of_nat]. lia.
  - assert (En : Z.pos (Pos.of_nat (S n)) = Z.of_nat (S n)).
    { rewrite <- positive_nat_Z, Nat2Pos.id by lia. reflexivity. }
    unfold Qle, Qmult, inject_Z. cbn [Qnum Qden].
    rewrite ?Pos.mul_1_r, ?Z.mul_1_r, En. lia.
Qed.

(** X17.  A verdict is never reached with a confidence below 0.2: the
    confidence is 0 exactly when there is no [final_verdict], and
    otherwise the winner holds at least the average share of the
    votes over the keys of [vote_breakdown], and, the jury having at
    most five members, at least a fifth of them. *)
Theorem confidence_floor {R : Runtime} (lm : LM) (rnd : nat -> nat)
    (question : pystr) (choices : list (pystr * pystr))
    (evidence_list : list pyval) (num_arbiters : Z) (v : Verdict) :
  synthesize lm rnd question choices evidence_list num_arbiters = Ok v ->
  let votes := votes_of (juror_deliberations v) in
  (final_verdict v = None <-> (confidence v == 0)%Q) /\
  (forall w, final_verdict v = Some w ->
     length votes <= count_of w votes * length (vote_breakdown v) /\
     length votes <= 5 /\
     (1 # 5 <= confidence v)%Q).
Proof.
  intros H votes.
  destruct (synthesize_inv _ _ _ _ _ _ H) as (txt & names & _ & Hs & Ht).
  destruct (select_jury_inv _ _ Hs) as (_ & Hlen & _ & Hincl).
  destruct (@ballots_of_survivors R lm question (format_options choices) txt
              choices names Hincl) as [_ Hpersonas].
  set (B := flat_map _ names) in *.
  assert (Hfive : length (votes_of B) <= 5).
  { rewrite votes_of_length.
    pose proof (filter_length_le has_vote B) as H1.
    assert (H2 : length B <= length names).
    { rewrite <- (length_map persona), Hpersonas. apply filter_length_le. }
    lia. }
  destruct (tally_total (votes_of B) B) as (v' & Hv' & Hlogs).
  rewrite Hv' in Ht. injection Ht as ->. subst votes. rewrite Hlogs.
  destruct (votes_of B) as [|x r] eqn:E.
  - rewrite tally_empty in Hv'. injection Hv' as <-. cbn.
    split; [split; reflexivity | discriminate].
  - rewrite <- E in *.
    assert (Hne : votes_of B <> []) by (rewrite E; discriminate).
    destruct (@tally_nonempty (votes_of B) B Hne) as (w & Hw & Hin & Hmax & _).
    rewrite Hw in Hv'. injection Hv' as <-.
    cbn [final_verdict confidence vote_breakdown].
    pose proof (count_of_le w (votes_of B)) as Hle.
    pose proof (@count_of_present _ _ Hin) as Hpos.
    pose proof (@quotient_at_least_fifth (count_of w (votes_of B))
                  (length (votes_of B)) Hpos Hfive) as Q0.
    destruct (@quotient_scaled_range (count_of w (votes_of B))
                (length (votes_of B))) as [_ Q1].
    { exact Hle. }
    { destruct (votes_of B); [congruence | cbn [length]; lia]. }
    destruct (@round_half_even_range _ _ _ Q0 Q1) as [H0 _].
    split.
    + split; [discriminate|]. unfold round2, Qeq. cbn [Qnum Qden]. lia.
    + intros w' [= <-]. split; [|split; [exact Hfive|]].
      * rewrite <- (Counter_sum (votes_of B)) at 1.
        rewrite Counter_closed, !length_map.
        rewrite <- (length_map (fun k => (k, count_of k (votes_of B)))
                      (first_occ (votes_of B))) at 1.
        rewrite length_map.
        apply counts_sum_bound. exact Hmax.
      * unfold round2, Qle. cbn [Qnum Qden]. lia.
Qed.

Lemma confidence_floor_witness :
  let votes := votes_of (juror_deliberations scripted_verdict) in
  (final_verdict scripted_verdict = None <-> (confidence scripted_verdict == 0)%Q) /\
  (forall w, final_verdict scripted_verdict = Some w ->
     length votes <= count_of w votes * length (vote_breakdown scripted_verdict) /\
     length votes <= 5 /\
     (1 # 5 <= confidence scripted_verdict)%Q).
Proof.
  exact (@confidence_floor plain_runtime scripted_lm counting_rnd
           trial_question abcd trial_evidence 3 scripted_verdict scripted_trial).
Defined.

(** ** Keys that are not single characters *)

(** X18.  The extraction looks at one character at a time, so a key
    of [choices] that is not a single character can never be voted
    for: when no key is a single character, every ballot records no
    vote and the verdict is the no-votes verdict, whatever the jurors
    answer. *)
Theorem long_keys_never_win {R : Runtime} (lm : LM) (rnd : nat -> nat)
    (question : pystr) (choices : list (pystr * pystr))
    (evidence_list : list pyval) (num_arbiters : Z) (v : Verdict) :
  (forall k, In k (map fst choices) -> length k <> 1) ->
  synthesize lm rnd question choices evidence_list num_arbiters = Ok v ->
  (forall b, In b (juror_deliberations v) -> vote b = None) /\
  final_verdict v = None /\ confidence v = 0%Q /\ vote_breakdown v = [].
Proof.
  intros Hlong H.
  destruct (synthesize_transcript _ _ _ _ _ _ H) as (txt & names & _ & Hlogs).
  assert (Hnone : forall b, In b (juror_deliberations v) -> vote b = None).
  { intros b Hb. destruct (vote b) as [k|] eqn:Ek; [|reflexivity]. exfalso.
    rewrite Hlogs in Hb. apply in_flat_map in Hb. destruct Hb as (name & _ & Hb).
    assert (Hk : In k (map fst choices) /\ length k = 1)
      by (eapply ballot_vote_valid; eassumption).
    destruct Hk as [Hin Hone]. exact (Hlong k Hin Hone). }
  split; [exact Hnone|].
  destruct (synthesize_inv _ _ _ _ _ _ H) as (txt' & names' & _ & _ & Ht).
  set (B := flat_map _ names') in Ht.
  destruct (tally_total (votes_of B) B) as (v' & Hv' & Hl').
  rewrite Hv' in Ht. injection Ht as ->.
  assert (Hempty : votes_of B = []).
  { rewrite <- Hl'. clear - Hnone. unfold votes_of.
    induction (juror_deliberations v) as [|b logs IH]; [reflexivity|].
    cbn [flat_map]. rewrite (Hnone b (or_introl eq_refl)). cbn [app].
    apply IH. intros b' Hb'. apply Hnone. right. exact Hb'. }
  rewrite Hempty, tally_empty in Hv'. injection Hv' as <-. cbn. auto.
Qed.

Lemma long_keys_never_win_witness :
  let choices := [(str "A)", str "Murder"); (str "B)", str "Manslaughter")] in
  let v := verdict_or_empty
             (synthesize (R := plain_runtime) (constant_lm (str "A) Murder"))
                counting_rnd trial_question choices trial_evidence 3) in
  length (juror_deliberations v) = 3 /\
  (forall b, In b (juror_deliberations v) -> vote b = None) /\
  final_verdict v = None /\ confidence v = 0%Q /\ vote_breakdown v = [].
Proof.
  intros choices v. split; [reflexivity|].
  apply (@long_keys_never_win plain_runtime (constant_lm (str "A) Murder"))
           counting_rnd trial_question choices trial_evidence 3 v).
  - intros k [<-|[<-|[]]]; discriminate.
  - vm_compute. reflexivity.
Defined.

(** ** Which juries can be drawn *)

Section SamplingRange.
Variable A : Type.

(** The loop reads the generator from its own turn on. *)
Lemma sample_loop_ext (rnd rnd' : nat -> nat) n steps :
  forall i (pool : list A),
    (forall m, i <= m -> rnd m = rnd' m) ->
    sample_loop rnd n i steps pool = sample_loop rnd' n i steps pool.
Proof.
  induction steps as [|steps IH]; intros i pool Hext; [reflexivity|].
  cbn [sample_loop]. rewrite (Hext i (Nat.le_refl i)).
  destruct (nth_error pool (rnd' i mod (n - i))) as [x|]; [|reflexivity].
  destruct (nth_error pool (n - i - 1)) as [y|]; [|reflexivity].
  f_equal. apply IH. intros m Hm. apply Hext. lia.
Qed.

Lemma firstn_In_nth (l : list A) m x :
  In x (firstn m l) -> exists j, j < m /\ nth_error l j = Some x.
Proof.
  revert m; induction l as [|a l IH]; intros [|m]; cbn [firstn];
    [intros [] | intros [] | intros [] |].
  intros [->|H].
  - exists 0. split; [lia | reflexivity].
  - destruct (IH m H) as (j & Hj & Hn). exists (S j). split; [lia | exact Hn].
Qed.

(** Every arrangement of distinct members of the live prefix of the
    pool is drawn by some generator. *)
Lemma sample_loop_reaches n steps :
  forall i (pool target : list A),
    length pool = n -> i + steps <= n -> NoDup (firstn (n - i) pool) ->
    length target = steps -> NoDup target ->
    incl target (firstn (n - i) pool) ->
    exists rnd, sample_loop rnd n i steps pool = target.
Proof.
  induction steps as [|steps IH]; intros i pool target Hlen Hi Hnd Ht Hndt Hincl.
  - destruct target; [|discriminate]. exists (fun _ => 0). reflexivity.
  - destruct target as [|x t]; [discriminate|]. injection Ht as Ht.
    apply NoDup_cons_iff in Hndt. destruct Hndt as [Hx Hndt].
    destruct (@firstn_In_nth pool (n - i) x) as (j & Hj & Ex).
    { apply Hincl. left. reflexivity. }
    destruct (nth_error pool (n - i - 1)) as [y|] eqn:Ey.
    2:{ apply nth_error_None in Ey. lia. }
    pose proof (pool_turn pool Hj Ex Ey) as Hperm.
    assert (Hnd' : NoDup (x :: firstn (n - i - 1) (list_set pool j y))).
    { eapply Permutation_NoDup; [exact Hperm | exact Hnd]. }
    apply NoDup_cons_iff in Hnd'. destruct Hnd' as [_ Hrest].
    destruct (IH (S i) (list_set pool j y) t) as [rnd0 Hrnd0].
    + rewrite list_set_length. exact Hlen.
    + lia.
    + replace (n - S i) with (n - i - 1) by lia. exact Hrest.
    + exact Ht.
    + exact Hndt.
    + replace (n - S i) with (n - i - 1) by lia. intros z Hz.
      assert (Hin : In z (x :: firstn (n - i - 1) (list_set pool j y))).
      { eapply Permutation_in; [exact Hperm|]. apply Hincl. right. exact Hz. }
      destruct Hin as [<-|Hin]; [contradiction | exact Hin].
    + exists (fun m => if m =? i then j else rnd0 m).
      cbn [sample_loop]. rewrite Nat.eqb_refl, (Nat.mod_small j (n - i) Hj), Ex, Ey.
      f_equal. rewrite <- Hrnd0. apply sample_loop_ext.
      intros m Hm. destruct (Nat.eqb_spec m i); [lia | reflexivity].
Qed.

End SamplingRange.

(** X19.  Every jury can be drawn: each arrangement of
    [min(num_arbiters, 5)] distinct personas of the registry is the
    selection for some run of the random generator.  With the
    distinctness of every selection, the selections that can occur
    are exactly these arrangements. *)
Theorem every_jury_can_be_drawn (num_arbiters : Z) (names : list pystr) :
  (0 <= num_arbiters)%Z ->
  NoDup names ->
  incl names (map fst LEGAL_PERSONAS) ->
  Z.of_nat (length names) = Z.min num_arbiters 5 ->
  exists rnd, select_jury rnd num_arbiters = Ok names.
Proof.
  intros Hn Hnd Hincl Hlen.
  destruct (@sample_loop_reaches pystr 5 (length names) 0
              (map fst LEGAL_PERSONAS) names) as [rnd Hrnd].
  - reflexivity.
  - lia.
  - exact personas_distinct.
  - reflexivity.
  - exact Hnd.
  - exact Hincl.
  - exists rnd. unfold select_jury, random_sample.
    rewrite length_map, personas_count.
    replace ((0 <=? Z.min num_arbiters (Z.of_nat 5))
             && (Z.min num_arbiters (Z.of_nat 5) <=? Z.of_nat 5))%Z with true
      by (symmetry; apply andb_true_iff; split; apply Z.leb_le; lia).
    replace (Z.to_nat (Z.min num_arbiters (Z.of_nat 5))) with (length names)
      by lia.
    f_equal. exact Hrnd.
Qed.

Lemma every_jury_can_be_drawn_witness :
  exists rnd,
    select_jury rnd 2 = Ok [str "The Precedent Loyalist"; str "The Devil's Advocate"].
Proof.
  apply (@every_jury_can_be_drawn 2
           [str "The Precedent Loyalist"; str "The Devil's Advocate"]).
  - lia.
  - repeat constructor; simpl; intuition discriminate.
  - intros x [<-|[<-|[]]]; vm_compute; tauto.
  - reflexivity.
Defined.

(** ** What follows the vote *)

Lemma lstrip_app_live s tail : lstrip s <> [] -> lstrip (s ++ tail) = lstrip s ++ tail.
Proof.
  induction s as [|c r IH]; cbn [lstrip app]; [congruence|].
  destruct (is_space c); [exact IH | reflexivity].
Qed.

Lemma lstrip_app_blank s tail :
  lstrip s = [] -> lstrip (s ++ tail) = lstrip tail.
Proof.
  induction s as [|c r IH]; cbn [lstrip app]; [reflexivity|].
  destruct (is_space c); [exact IH | discriminate].
Qed.

Lemma lstrip_suffix s : exists ws, s = ws ++ lstrip s.
Proof.
  induction s as [|c r [ws IH]]; [exists []; reflexivity|]. cbn [lstrip].
  destruct (is_space c).
  - exists (c :: ws). cbn [app]. f_equal. exact IH.
  - exists []. reflexivity.
Qed.

(** Stripping a text that goes on after a live part keeps the stripped
    live part at the front. *)
Lemma strip_app_live s tail :
  strip s <> [] -> exists rest, strip (s ++ tail) = strip s ++ rest.
Proof.
  unfold strip, rstrip. intros Hlive.
  assert (Hl : lstrip s <> []).
  { intros E. rewrite E in Hlive. apply Hlive. reflexivity. }
  rewrite (@lstrip_app_live s tail Hl). set (a := lstrip s) in *.
  rewrite rev_app_distr.
  assert (Ha : lstrip (rev a) <> []).
  { intros E. rewrite E in Hlive. apply Hlive. reflexivity. }
  destruct (lstrip (rev tail)) as [|c r] eqn:Et.
  - rewrite (@lstrip_app_blank (rev tail) (rev a) Et). exists []. rewrite app_nil_r. reflexivity.
  - rewrite lstrip_app_live by congruence. rewrite Et, rev_app_distr, rev_involutive.
    destruct (lstrip_suffix (rev a)) as [ws Hws].
    exists (rev ws ++ rev (c :: r)).
    rewrite app_assoc, <- rev_app_distr, <- Hws, rev_involutive. reflexivity.
Qed.

Lemma first_valid_app choices s rest v :
  first_valid choices s = Some v -> first_valid choices (s ++ rest) = Some v.
Proof.
  induction s as [|c r IH]; cbn [first_valid app]; [discriminate|].
  destruct (dict_mem choices [c]); [tauto | exact IH].
Qed.

(** X20.  Only the text up to the first valid letter counts: once a
    vote is extracted from a raw answer, the same vote is extracted
    from that answer followed by anything else (an explanation,
    other letters, whitespace). *)
Theorem text_after_vote_is_ignored {R : Runtime}
    (choices : list (pystr * pystr)) (raw tail : pystr) (v : pystr) :
  extract_vote choices raw = Some v ->
  extract_vote choices (raw ++ tail) = Some v.
Proof.
  unfold extract_vote. intros H.
  assert (Hlive : strip raw <> []).
  { intros E. rewrite E in H. discriminate. }
  destruct (@strip_app_live raw tail Hlive) as [rest ->].
  unfold upper. rewrite flat_map_app. apply first_valid_app. exact H.
Qed.

Lemma text_after_vote_is_ignored_witness :
  extract_vote (R := plain_runtime) abcd (str " b") = Some (str "B") /\
  extract_vote (R := plain_runtime) abcd (str " b" ++ str ", not A or C.  ")
    = Some (str "B").
Proof.
  split; [reflexivity|].
  exact (@text_after_vote_is_ignored plain_runtime abcd (str " b")
           (str ", not A or C.  ") (str "B") eq_refl).
Defined.

(** * The baseline script *)

(** ** What [query] returns *)

Lemma answer_of_chat_body data answer :
  answer_of data = Some answer <->
  exists content, chat_body data content /\ answer = strip content.
Proof.
  unfold answer_of, chat_body, subscript, first_item. split.
  - destruct data as [| | | | |l|d]; try discriminate.
    destruct (dict_lookup d (str "choices")) as [choices|] eqn:Ec; [|discriminate].
    destruct choices as [| | | |[|c s]|[|choice others]|]; try discriminate.
    destruct choice as [| | | | | |ch]; try discriminate.
    destruct (dict_lookup ch (str "message")) as [message|] eqn:Em; [|discriminate].
    destruct message as [| | | | | |m]; try discriminate.
    destruct (dict_lookup m (str "content")) as [[| | | |content| |]|] eqn:Et;
      try discriminate.
    intros [= <-]. exists content. split; [|reflexivity].
    exists d, ch, others, m. auto.
  - intros (content & (d & ch & others & m & -> & Ec & Em & Et) & ->).
    rewrite Ec, Em, Et. reflexivity.
Qed.

Lemma rstrip_prefix s : exists ws, s = rstrip s ++ ws.
Proof.
  unfold rstrip. destruct (lstrip_suffix (rev s)) as [ws Hws].
  exists (rev ws). rewrite <- rev_app_distr, <- Hws, rev_involutive. reflexivity.
Qed.

(** A stripped text neither starts nor ends with whitespace. *)
Lemma strip_clean s c r :
  strip s = c :: r ->
  is_space c = false /\ is_space (last (c :: r) c) = false.
Proof.
  unfold strip. intros H. split.
  - destruct (rstrip_prefix (lstrip s)) as [ws Hws]. rewrite H in Hws.
    cbn [app] in Hws. eapply lstrip_head. exact Hws.
  - unfold rstrip in H.
    destruct (lstrip (rev (lstrip s))) as [|y l] eqn:E; [discriminate|].
    apply lstrip_head in E. rewrite <- H. cbn [rev].
    rewrite last_last. exact E.
Qed.

(** X21.  [query] passes no exception on: when the service answers
    with a body of the shape of a chat completion it returns the
    stripped content of the first choice, which then neither starts
    nor ends with whitespace; in every other case (the request
    raises, or the body has another shape) it returns a text that
    starts with "Error: ". *)
Theorem query_answer_or_error (exception_text : pyval -> pystr) (api : Api)
    (question : pyval) :
  match api question with
  | HttpRaised e => query exception_text api question = str "Error: " ++ e
  | HttpJson data =>
      (forall content, chat_body data content ->
         query exception_text api question = strip content /\
         (forall c r, strip content = c :: r ->
            is_space c = false /\ is_space (last (c :: r) c) = false)) /\
      ((forall content, ~ chat_body data content) ->
         query exception_text api question
           = str "Error: " ++ exception_text data)
  end.
Proof.
  unfold query. destruct (api question) as [e|data]; [reflexivity|]. split.
  - intros content Hbody.
    assert (Ha : answer_of data = Some (strip content)).
    { apply answer_of_chat_body. exists content. auto. }
    rewrite Ha. split; [reflexivity|]. intros c r. apply strip_clean.
  - intros Hno. destruct (answer_of data) as [answer|] eqn:Ea; [|reflexivity].
    apply answer_of_chat_body in Ea. destruct Ea as (content & Hbody & _).
    exfalso. exact (Hno content Hbody).
Qed.

(** ** The encoder against the decoder *)

Section EncoderFacts.
Import Json.

Lemma scan_string_close acc r : scan_string acc (34%N :: r) = Some (rev acc, r).
Proof. reflexivity. Qed.

Lemma scan_string_raw c acc r :
  c <> 34%N -> c <> 92%N -> (32 <= c)%N ->
  scan_string acc (c :: r) = scan_string (c :: acc) r.
Proof.
  intros H1 H2 H3. cbn [scan_string].
  rewrite (proj2 (N.eqb_neq c 34) H1), (proj2 (N.eqb_neq c 92) H2).
  rewrite (proj2 (N.ltb_ge c 32) H3). reflexivity.
Qed.

Lemma scan_string_simple e x acc r :
  e <> 117%N -> simple_escape e = Some x ->
  scan_string acc (92%N :: e :: r) = scan_string (x :: acc) r.
Proof.
  intros H1 H2. cbn [scan_string]. change (92 =? 34)%N with false.
  change (92 =? 92)%N with true. cbn iota.
  rewrite (proj2 (N.eqb_neq e 117) H1), H2. reflexivity.
Qed.

Lemma hex_digit_char d : (d < 16)%N -> hex_digit (hex_char d) = Some d.
Proof.
  intros Hd. unfold hex_digit, hex_char, is_digit.
  destruct (N.ltb_spec d 10).
  - replace (48 <=? 48 + d)%N with true by (symmetry; apply N.leb_le; lia).
    replace (48 + d <=? 57)%N with true by (symmetry; apply N.leb_le; lia).
    cbn [andb]. f_equal. lia.
  - replace (87 + d <=? 57)%N with false by (symmetry; apply N.leb_gt; lia).
    rewrite andb_false_r.
    replace (97 <=? 87 + d)%N with true by (symmetry; apply N.leb_le; lia).
    replace (87 + d <=? 102)%N with true by (symmetry; apply N.leb_le; lia).
    cbn [andb]. f_equal. lia.
Qed.

Lemma scan_string_control c acc r :
  (c < 32)%N ->
  scan_string acc (92 :: 117 :: 48 :: 48 :: hex_char (c / 16) :: hex_char (c mod 16) :: r)%N
  = scan_string (c :: acc) r.
Proof.
  intros Hc.
  assert (Hq : (c / 16 < 16)%N).
  { apply N.Div0.div_lt_upper_bound. lia. }
  assert (Hm : (c mod 16 < 16)%N) by (apply N.mod_lt; lia).
  assert (Hx : hex4 48 48 (hex_char (c / 16)) (hex_char (c mod 16)) = Some c).
  { unfold hex4. rewrite (hex_digit_char Hq), (hex_digit_char Hm).
    change (hex_digit 48) with (Some 0%N). cbn iota. f_equal.
    pose proof (N.div_mod c 16). lia. }
  cbn [scan_string]. change (92 =? 34)%N with false.
  change (92 =? 92)%N with true. change (117 =? 117)%N with true. cbn iota.
  rewrite Hx. unfold is_high_surrogate.
  replace (55296 <=? c)%N with false by (symmetry; apply N.leb_gt; lia).
  reflexivity.
Qed.

(** The decoder reads an escaped character back. *)
Lemma scan_string_escaped c acc r :
  scan_string acc (escape_char c ++ r) = scan_string (c :: acc) r.
Proof.
  unfold escape_char.
  destruct (N.eqb_spec c 34) as [->|H34];
    [apply scan_string_simple; [discriminate | reflexivity]|].
  destruct (N.eqb_spec c 92) as [->|H92];
    [apply scan_string_simple; [discriminate | reflexivity]|].
  destruct (N.eqb_spec c 10) as [->|H10];
    [apply scan_string_simple; [discriminate | reflexivity]|].
  destruct (N.eqb_spec c 13) as [->|H13];
    [apply scan_string_simple; [discriminate | reflexivity]|].
  destruct (N.eqb_spec c 9) as [->|H9];
    [apply scan_string_simple; [discriminate | reflexivity]|].
  destruct (N.eqb_spec c 8) as [->|H8];
    [apply scan_string_simple; [discriminate | reflexivity]|].
  destruct (N.eqb_spec c 12) as [->|H12];
    [apply scan_string_simple; [discriminate | reflexivity]|].
  destruct (N.ltb_spec c 32) as [Hlt|Hge].
  - apply scan_string_control. exact Hlt.
  - apply scan_string_raw; assumption.
Qed.

(** The decoder reads the body of an encoded string back, up to its
    closing quote. *)
Lemma scan_string_encoded s : forall acc r,
  scan_string acc (flat_map escape_char s ++ 34%N :: r) = Some (rev acc ++ s, r).
Proof.
  induction s as [|c s IH]; intros acc r.
  - cbn [flat_map app]. rewrite app_nil_r. apply scan_string_close.
  - cbn [flat_map]. rewrite <- app_assoc, scan_string_escaped, IH.
    cbn [rev]. rewrite <- app_assoc. reflexivity.
Qed.

End EncoderFacts.

(** ** Integers in decimal *)

Section DecimalText.
Import Json.

Local Abbreviation chars d := (str (NilEmpty.string_of_uint d)).

Lemma chars_digits d rest :
  match rest with c :: _ => is_digit c = false | [] => True end ->
  span_digits (chars d ++ rest) = (chars d, rest).
Proof.
  intros Hrest.
  induction d as [|d IHd|d IHd|d IHd|d IHd|d IHd|d IHd|d IHd|d IHd|d IHd|d IHd];
    [ destruct rest as [|c r]; [reflexivity|]; simpl; rewrite Hrest; reflexivity
    | simpl; change (is_digit _) with true; cbn iota;
      fold (str (NilEmpty.string_of_uint d)); rewrite IHd; reflexivity .. ].
Qed.

Lemma chars_value d : forall acc,
  fold_left (fun a c => (a * 10 + Z.of_N (c - 48))%Z) (chars d) (Z.of_nat acc)
  = Z.of_nat (Nat.of_uint_acc d acc).
Proof.
  induction d as [|d IHd|d IHd|d IHd|d IHd|d IHd|d IHd|d IHd|d IHd|d IHd|d IHd]; intros acc;
    [ reflexivity
    | simpl; fold (str (NilEmpty.string_of_uint d));
      rewrite <- IHd; f_equal; rewrite Nat.tail_mul_spec; lia .. ].
Qed.

Lemma decimal_value n : digits_value (decimal n) = Z.of_nat n.
Proof.
  unfold digits_value, decimal.
  change 0%Z with (Z.of_nat 0). rewrite chars_value.
  change (Nat.of_uint_acc (Nat.to_uint n) 0) with (Nat.of_uint (Nat.to_uint n)).
  rewrite DecimalNat.Unsigned.of_to. reflexivity.
Qed.

Lemma to_uint_normal n : Decimal.unorm (Nat.to_uint n) = Nat.to_uint n.
Proof.
  rewrite <- (DecimalNat.Unsigned.of_to n) at 2.
  rewrite DecimalNat.Unsigned.to_of. reflexivity.
Qed.

(** The decimal text of a natural number is "0", or starts with a
    digit from 1 to 9. *)
Lemma decimal_head n :
  decimal n = [48%N] \/
  exists c r, decimal n = c :: r /\ (49 <= c <= 57)%N.
Proof.
  unfold decimal. pose proof (to_uint_normal n) as Hn.
  destruct (Nat.to_uint n) as [|d|d|d|d|d|d|d|d|d|d];
    try (right; eexists; eexists; split; [reflexivity | simpl; lia]).
  - exfalso. eapply DecimalFacts.unorm_nonnil. exact Hn.
  - left. unfold Decimal.unorm in Hn. rewrite DecimalFacts.nzhead_D0 in Hn.
    destruct (Decimal.nzhead d) eqn:E;
      try (exfalso; eapply DecimalFacts.nzhead_nonzero; rewrite E; exact Hn).
    injection Hn as <-. reflexivity.
Qed.

Lemma decimal_digits n rest :
  match rest with c :: _ => is_digit c = false | [] => True end ->
  span_digits (decimal n ++ rest) = (decimal n, rest).
Proof. apply chars_digits. Qed.

End DecimalText.

Section NumberFacts.
Import Json.

Lemma closes_no_digit rest :
  closes rest -> match rest with c :: _ => is_digit c = false | [] => True end.
Proof.
  destruct rest as [|c r]; [trivial|]. intros [->|[->| ->]]; reflexivity.
Qed.

Lemma scan_int_part_decimal n rest :
  closes rest -> scan_int_part (decimal n ++ rest) = Some (decimal n, rest).
Proof.
  intros Hrest. destruct (decimal_head n) as [E|(c & r & E & Hc)].
  - rewrite E. reflexivity.
  - unfold scan_int_part.
    pose proof (@decimal_digits n rest (@closes_no_digit rest Hrest)) as Hspan.
    rewrite E in *. cbn [app] in *.
    replace (c =? 48)%N with false by (symmetry; apply N.eqb_neq; lia).
    unfold is_digit at 1.
    replace (48 <=? c)%N with true by (symmetry; apply N.leb_le; lia).
    replace (c <=? 57)%N with true by (symmetry; apply N.leb_le; lia).
    cbn [andb]. rewrite Hspan. reflexivity.
Qed.

Lemma scan_frac_closed rest : closes rest -> scan_frac rest = None.
Proof.
  destruct rest as [|c r]; [reflexivity|]. intros [->|[->| ->]]; reflexivity.
Qed.

Lemma scan_exp_closed rest : closes rest -> scan_exp rest = None.
Proof.
  destruct rest as [|c r]; [reflexivity|]. intros [->|[->| ->]]; reflexivity.
Qed.

Lemma scan_number_unsigned (neg : bool) n rest :
  closes rest ->
  match scan_int_part (decimal n ++ rest) with
  | None => None
  | Some (ids, r1) =>
      let sign (z : Z) := if neg then (- z)%Z else z in
      let '(fds, r2, has_frac) :=
        match scan_frac r1 with
        | Some (fds, r2) => (fds, r2, true)
        | None => ([], r1, false)
        end in
      let '(ex, r3, has_exp) :=
        match scan_exp r2 with
        | Some (ex, r3) => (ex, r3, true)
        | None => (0%Z, r2, false)
        end in
      if has_frac || has_exp then
        Some (PFloat (FNum (scale10 (sign (digits_value (ids ++ fds)))
                                    (ex - Z.of_nat (length fds)))), r3)
      else Some (PInt (sign (digits_value ids)), r3)
  end = Some (PInt (if neg then (- Z.of_nat n)%Z else Z.of_nat n), rest).
Proof.
  intros Hrest. rewrite (@scan_int_part_decimal n rest Hrest).
  rewrite (@scan_frac_closed rest Hrest), (@scan_exp_closed rest Hrest).
  cbv beta iota zeta. cbn [orb]. rewrite decimal_value. reflexivity.
Qed.

(** The decoder reads the decimal text of an [int] back. *)
Lemma scan_number_int z rest :
  closes rest -> scan_number (decimal_Z z ++ rest) = Some (PInt z, rest).
Proof.
  intros Hrest. unfold decimal_Z.
  destruct (Z.ltb_spec z 0) as [Hneg|Hpos].
  - assert (Hz : z = (- Z.of_nat (Z.to_nat (- z)))%Z) by lia.
    set (m := Z.to_nat (- z)) in *. clearbody m. rewrite Hz.
    exact (@scan_number_unsigned true m rest Hrest).
  - assert (Hz : z = Z.of_nat (Z.to_nat z)) by lia.
    set (m := Z.to_nat z) in *. clearbody m. rewrite Hz.
    assert (Hhead : exists c r, decimal m ++ rest = c :: r /\ (c =? 45)%N = false).
    { destruct (decimal_head m) as [E0|(c & r & E0 & Hc)]; rewrite E0.
      - exists 48%N, rest. split; reflexivity.
      - exists c, (r ++ rest). split; [reflexivity|]. apply N.eqb_neq. lia. }
    destruct Hhead as (c & r & E & Hc).
    rewrite <- (@scan_number_unsigned false m rest Hrest).
    unfold scan_number. rewrite E, Hc. reflexivity.
Qed.

(** Where the text of an [int] starts. *)
Lemma decimal_Z_head z :
  exists c r, decimal_Z z = c :: r /\ (c = 45%N \/ (48 <= c <= 57)%N).
Proof.
  unfold decimal_Z. destruct (Z.ltb_spec z 0).
  - eexists. eexists. split; [reflexivity | left; reflexivity].
  - destruct (decimal_head (Z.to_nat z)) as [E|(c & r & E & Hc)]; rewrite E;
      eexists; eexists; (split; [reflexivity | right; lia]).
Qed.

End NumberFacts.

(** ** Values *)

(** Induction on a value that reaches inside lists and dicts. *)
Lemma pyval_nested_ind (P : pyval -> Prop) :
  P PNone -> (forall b, P (PBool b)) -> (forall z, P (PInt z)) ->
  (forall x, P (PFloat x)) -> (forall s, P (PStr s)) ->
  (forall l, Forall P l -> P (PList l)) ->
  (forall d, Forall (fun kv => P (snd kv)) d -> P (PDict d)) ->
  forall v, P v.
Proof.
  intros HN HB HI HF HS HL HD. fix IH 1.
  intros [|b|z|x|s|l|d].
  - exact HN.
  - apply HB.
  - apply HI.
  - apply HF.
  - apply HS.
  - apply HL. induction l as [|a l IHl]; constructor; [apply IH | exact IHl].
  - apply HD. induction d as [|[k a] d IHd]; constructor; [apply IH | exact IHd].
Qed.

Lemma str_eqb_false a b : a <> b -> str_eqb a b = false.
Proof.
  intros H. destruct (str_eqb a b) eqn:E; [|reflexivity].
  apply str_eqb_eq in E. contradiction.
Qed.

Lemma distinct_keys_NoDup keys : distinct_keys keys = true -> NoDup keys.
Proof.
  induction keys as [|k rest IH]; [constructor|]. cbn [distinct_keys].
  intros H. apply andb_true_iff in H. destruct H as [Hk Hrest].
  constructor; [|apply IH; exact Hrest].
  intros Hin. apply negb_true_iff in Hk.
  assert (Hex : existsb (str_eqb k) rest = true).
  { apply existsb_exists. exists k. split; [exact Hin | apply str_eqb_refl]. }
  congruence.
Qed.

(** Setting a key that the dict does not hold appends it. *)
Lemma dict_set_fresh {V} (d : list (pystr * V)) key v :
  ~ In key (map fst d) -> dict_set d key v = d ++ [(key, v)].
Proof.
  induction d as [|[k w] d IH]; intros H; [reflexivity|]. cbn [dict_set app].
  rewrite str_eqb_false by (intros ->; apply H; left; reflexivity).
  f_equal. apply IH. intros Hin. apply H. right. exact Hin.
Qed.

Ltac measure_text :=
  repeat first [ progress rewrite !length_app in *
               | progress cbn [length] in * ];
  lia.

Section RoundTrip.
Context {R : Runtime}.
Import Json.

Local Abbreviation member :=
  (fun kv : pystr * pyval =>
     match kv with (k, x) => encode_basestring k ++ str ": " ++ dumps x end).

(** The text of data starts with a character that is neither
    whitespace nor a closing bracket. *)
Lemma dumps_head v :
  json_data v = true ->
  exists c r, dumps v = c :: r /\ is_json_ws c = false /\ c <> 93%N.
Proof.
  destruct v as [|[|]|z|[q| |[|]]|s|l|d]; try discriminate; intros _;
    try (eexists; eexists; split; [reflexivity | split; [reflexivity | discriminate]]).
  destruct (decimal_Z_head z) as (c & r & E & Hc). exists c, r. split; [exact E|].
  split; [|lia]. unfold is_json_ws.
  repeat match goal with
         | |- context [(?a =? ?b)%N] => destruct (N.eqb_spec a b); try lia
         end; reflexivity.
Qed.

Lemma skip_ws_dumps v rest :
  json_data v = true -> skip_ws (dumps v ++ rest) = dumps v ++ rest.
Proof.
  intros H. destruct (dumps_head v H) as (c & r & -> & Hc & _).
  cbn [app skip_ws]. rewrite Hc. reflexivity.
Qed.

Local Abbreviation reads_back v :=
  (json_data v = true ->
   forall fuel room rest, closes rest -> readable room v = true ->
     2 * length (dumps v ++ rest) < fuel ->
     parse fuel room MValue (dumps v ++ rest) = Good v rest).

Lemma strip_prefix_head p0 p c r :
  p0 <> c -> strip_prefix (p0 :: p) (c :: r) = None.
Proof.
  intros H. cbn [strip_prefix].
  rewrite (proj2 (N.eqb_neq p0 c) H). reflexivity.
Qed.

Lemma scan_atom_int z rest :
  closes rest -> scan_atom (decimal_Z z ++ rest) = Some (PInt z, rest).
Proof.
  intros Hrest. pose proof (@scan_number_int z rest Hrest) as Hnum.
  destruct (decimal_Z_head z) as (c & r & E & Hc). rewrite E in *.
  cbn [app] in *. unfold scan_atom.
  change (str "null") with [110; 117; 108; 108]%N.
  change (str "true") with [116; 114; 117; 101]%N.
  change (str "false") with [102; 97; 108; 115; 101]%N.
  rewrite !strip_prefix_head by lia. rewrite Hnum. reflexivity.
Qed.

(** The digits counted on the text of an [int] are those of its
    absolute value. *)
Lemma literal_digits_decimal z rest :
  literal_digits (decimal_Z z ++ rest) rest = length (decimal (Z.abs_nat z)).
Proof.
  unfold literal_digits, decimal_Z. destruct (Z.ltb_spec z 0) as [Hneg|Hpos].
  - replace (Z.abs_nat z) with (Z.to_nat (- z)) by lia.
    cbn [app length]. change (45 =? 45)%N with true. cbv iota.
    rewrite length_app. lia.
  - replace (Z.abs_nat z) with (Z.to_nat z) by lia.
    destruct (decimal_head (Z.to_nat z)) as [E|(c & r & E & Hc)]; rewrite E.
    + cbn [app length]. change (48 =? 45)%N with false. cbv iota. lia.
    + cbn [app]. replace (c =? 45)%N with false by (symmetry; apply N.eqb_neq; lia).
      cbv iota. cbn [length]. rewrite length_app. lia.
Qed.

Lemma reads_back_int z : reads_back (PInt z).
Proof.
  intros _ fuel room rest Hrest Hread Hfuel. cbn [dumps readable] in *.
  pose proof (@scan_atom_int z rest Hrest) as Hatom.
  pose proof (literal_digits_decimal z rest) as Hdigits.
  destruct (decimal_Z_head z) as (c & r & E & Hc). rewrite E in *.
  cbn [app] in *. destruct fuel as [|f]; [lia|]. cbn [parse].
  replace (c =? 34)%N with false by (symmetry; apply N.eqb_neq; lia).
  replace (c =? 123)%N with false by (symmetry; apply N.eqb_neq; lia).
  replace (c =? 91)%N with false by (symmetry; apply N.eqb_neq; lia).
  rewrite Hatom, Hdigits. apply negb_true_iff in Hread. rewrite Hread.
  reflexivity.
Qed.

Lemma reads_back_str s : reads_back (PStr s).
Proof.
  intros _ fuel room rest Hrest _ Hfuel. cbn [dumps] in *.
  unfold encode_basestring in *.
  destruct fuel as [|f]; [lia|].
  change ((dquote :: flat_map escape_char s ++ [dquote]) ++ rest)
    with (34%N :: ((flat_map escape_char s ++ [34%N]) ++ rest)).
  rewrite <- app_assoc. cbn [parse app]. change (34 =? 34)%N with true. cbv iota.
  rewrite scan_string_encoded. reflexivity.
Qed.

Lemma reads_back_constant v :
  match v with
  | PNone | PBool _ | PFloat FNaN | PFloat (FInf _) => True
  | _ => False
  end -> reads_back v.
Proof.
  destruct v as [|[|]|z|[q| |[|]]|s|l|d]; intros [] _ fuel room rest _ _ Hfuel;
    (destruct fuel as [|f]; [cbn [dumps] in Hfuel; lia|]); reflexivity.
Qed.

Lemma join_two sep a b rest :
  join sep (a :: b :: rest) = a ++ sep ++ join sep (b :: rest).
Proof. reflexivity. Qed.

Lemma comma_space r : str ", " ++ r = 44%N :: 32%N :: r.
Proof. reflexivity. Qed.

Lemma skip_ws_space r : skip_ws (32%N :: r) = skip_ws r.
Proof. reflexivity. Qed.

Lemma skip_ws_items l rest :
  forallb json_data l = true -> l <> [] ->
  skip_ws (join (str ", ") (map dumps l) ++ rest)
  = join (str ", ") (map dumps l) ++ rest.
Proof.
  destruct l as [|x l]; [congruence|]. intros H _.
  cbn [forallb] in H. apply andb_true_iff in H. destruct H as [Hx _].
  destruct l as [|y l]; cbn [map].
  - cbn [join]. apply skip_ws_dumps. exact Hx.
  - rewrite join_two, <- app_assoc. apply skip_ws_dumps. exact Hx.
Qed.

(** The decoder reads the items of an encoded list back. *)
Lemma parse_elements l :
  Forall (fun v => reads_back v) l -> forallb json_data l = true -> l <> [] ->
  forall fuel room acc rest,
    forallb (readable room) l = true ->
    2 * length (join (str ", ") (map dumps l) ++ 93%N :: rest) + 1 < fuel ->
    parse fuel room (MElems acc) (join (str ", ") (map dumps l) ++ 93%N :: rest)
    = Good (PList (rev acc ++ l)) rest.
Proof.
  induction l as [|x l IH]; [congruence|].
  intros Hall Hdata _ fuel room acc rest Hread Hfuel.
  apply Forall_cons_iff in Hall. destruct Hall as [Hx Hall].
  cbn [forallb] in Hdata. apply andb_true_iff in Hdata. destruct Hdata as [Dx Dl].
  cbn [forallb] in Hread. apply andb_true_iff in Hread. destruct Hread as [Rx Rl].
  destruct fuel as [|f]; [lia|].
  destruct l as [|y l].
  - cbn [map join] in *. cbn [parse].
    rewrite (Hx Dx f room (93%N :: rest));
      [| right; left; reflexivity | exact Rx | lia].
    reflexivity.
  - cbn [map] in Hfuel |- *. rewrite join_two in Hfuel |- *.
    rewrite <- !app_assoc in Hfuel |- *. rewrite comma_space in Hfuel |- *.
    cbn [parse]. rewrite (Hx Dx f room); [| left; reflexivity | exact Rx | lia].
    change (skip_ws (44%N :: ?r)) with (44%N :: r).
    cbv iota. change (44 =? 93)%N with false. change (44 =? 44)%N with true.
    cbv iota. rewrite skip_ws_space.
    change (dumps y :: map dumps l) with (map dumps (y :: l)) in Hfuel |- *.
    rewrite (@skip_ws_items (y :: l) (93%N :: rest) Dl) by discriminate.
    rewrite (IH Hall Dl ltac:(discriminate) f room (x :: acc) rest Rl).
    + cbn [rev]. rewrite <- app_assoc. reflexivity.
    + measure_text.
Qed.

Lemma reads_back_list l :
  Forall (fun v => reads_back v) l -> reads_back (PList l).
Proof.
  intros Hall Hdata fuel room rest Hrest Hread Hfuel. cbn [json_data] in Hdata.
  destruct room as [|room']; [discriminate|]. cbn [readable] in Hread.
  cbn [dumps] in *. change (str "[") with [91%N] in *.
  change (str "]") with [93%N] in *. rewrite <- !app_assoc in *. cbn [app] in *.
  destruct fuel as [|f]; [lia|]. cbn [parse].
  change (91 =? 34)%N with false. change (91 =? 123)%N with false.
  change (91 =? 91)%N with true. cbv iota.
  destruct l as [|x l].
  - reflexivity.
  - rewrite (@skip_ws_items (x :: l) (93%N :: rest) Hdata) by discriminate.
    pose proof (@parse_elements (x :: l) Hall Hdata) as Hel.
    assert (Hshape : exists c1 r1,
               join (str ", ") (map dumps (x :: l)) ++ 93%N :: rest = c1 :: r1 /\
               (c1 =? 93)%N = false).
    { destruct (dumps_head x) as (c & r & E & _ & Hc).
      { cbn [forallb] in Hdata. apply andb_true_iff in Hdata. apply Hdata. }
      exists c. destruct l as [|y l]; cbn [map].
      - cbn [join]. rewrite E. eexists. split; [reflexivity|].
        apply N.eqb_neq. exact Hc.
      - rewrite join_two, E. eexists. split; [reflexivity|].
        apply N.eqb_neq. exact Hc. }
    destruct Hshape as (c1 & r1 & E & Hc1). rewrite E. rewrite Hc1, <- E.
    apply (Hel ltac:(discriminate) f room' [] rest Hread). cbn [length] in *. lia.
Qed.

Local Abbreviation values_data d :=
  (forallb (fun kv : pystr * pyval => match kv with (_, x) => json_data x end) d).

Local Abbreviation values_readable room d :=
  (forallb (fun kv : pystr * pyval => match kv with (_, x) => readable room x end)
     d).

Lemma member_shape k x :
  member (k, x) = 34%N :: flat_map escape_char k ++ 34%N :: 58%N :: 32%N :: dumps x.
Proof.
  unfold encode_basestring. cbn [app]. rewrite <- app_assoc. reflexivity.
Qed.

Lemma members_head (d : list (pystr * pyval)) :
  d <> [] -> exists body, join (str ", ") (map member d) = 34%N :: body.
Proof.
  destruct d as [|[k x] d]; [congruence|]. intros _.
  destruct d as [|kv d]; cbn [map].
  - cbn [join]. rewrite member_shape. eauto.
  - rewrite join_two, member_shape. cbn [app]. eauto.
Qed.

(** The decoder reads the members of an encoded dict back. *)
Lemma parse_members (d : list (pystr * pyval)) :
  Forall (fun kv => reads_back (snd kv)) d -> values_data d = true -> d <> [] ->
  forall fuel room acc rest body,
    values_readable room d = true ->
    join (str ", ") (map member d) = 34%N :: body ->
    NoDup (map fst acc ++ map fst d) ->
    2 * length (body ++ 125%N :: rest) + 1 < fuel ->
    parse fuel room (MMembers acc) (body ++ 125%N :: rest)
    = Good (PDict (acc ++ d)) rest.
Proof.
  induction d as [|[k x] d IH]; [congruence|].
  intros Hall Hdata _ fuel room acc rest body Hread Hbody Hnd Hfuel.
  apply Forall_cons_iff in Hall. destruct Hall as [Hx Hall]. cbn [snd] in Hx.
  cbn [forallb] in Hdata. apply andb_true_iff in Hdata. destruct Hdata as [Dx Dd].
  cbn [forallb] in Hread. apply andb_true_iff in Hread. destruct Hread as [Rx Rd].
  cbn [map fst] in Hnd.
  assert (Hfresh : ~ In k (map fst acc)).
  { apply NoDup_remove_2 in Hnd. intros Hin. apply Hnd.
    apply in_or_app. left. exact Hin. }
  destruct fuel as [|f]; [lia|].
  destruct d as [|kv d].
  - cbn [map join] in Hbody. rewrite member_shape in Hbody.
    injection Hbody as <-. rewrite <- !app_assoc in Hfuel |- *.
    cbn [app] in Hfuel |- *. cbn [parse].
    rewrite scan_string_encoded. cbn [rev app].
    change (skip_ws (58%N :: ?r)) with (58%N :: r). cbv iota.
    change (58 =? 58)%N with true. cbv iota.
    rewrite skip_ws_space, (@skip_ws_dumps x _ Dx).
    rewrite (Hx Dx f room (125%N :: rest)).
    + change (skip_ws (125%N :: ?r)) with (125%N :: r). cbv iota.
      change (125 =? 125)%N with true. cbv iota.
      rewrite (@dict_set_fresh _ acc k x Hfresh). reflexivity.
    + right. right. reflexivity.
    + exact Rx.
    + measure_text.
  - destruct (@members_head (kv :: d)) as [body' Hbody']; [discriminate|].
    cbn [map] in Hbody, Hbody'. rewrite join_two, member_shape in Hbody.
    set (J := join (str ", ") _) in Hbody, Hbody'.
    rewrite Hbody' in Hbody. cbn [app] in Hbody. injection Hbody as <-.
    subst J.
    rewrite <- !app_assoc in Hfuel |- *. cbn [app] in Hfuel |- *.
    cbn [parse]. rewrite scan_string_encoded. cbn [rev app].
    change (skip_ws (58%N :: ?r)) with (58%N :: r). cbv iota.
    change (58 =? 58)%N with true. cbv iota.
    rewrite skip_ws_space, (@skip_ws_dumps x _ Dx).
    rewrite (Hx Dx f room).
    + change (skip_ws (44%N :: ?r)) with (44%N :: r). cbv iota.
      change (44 =? 125)%N with false. change (44 =? 44)%N with true. cbv iota.
      rewrite skip_ws_space.
      change (skip_ws (34%N :: ?r)) with (34%N :: r). cbv iota.
      change (34 =? 34)%N with true. cbv iota.
      rewrite (@dict_set_fresh _ acc k x Hfresh).
      rewrite (IH Hall Dd ltac:(discriminate) f room (acc ++ [(k, x)]) rest body'
                 Rd Hbody').
      * rewrite <- app_assoc. reflexivity.
      * rewrite map_app, <- app_assoc. exact Hnd.
      * measure_text.
    + left. reflexivity.
    + exact Rx.
    + measure_text.
Qed.

Lemma reads_back_dict (d : list (pystr * pyval)) :
  Forall (fun kv => reads_back (snd kv)) d -> reads_back (PDict d).
Proof.
  intros Hall Hdata fuel room rest Hrest Hread Hfuel. cbn [json_data] in Hdata.
  apply andb_true_iff in Hdata. destruct Hdata as [Hkeys Hvalues].
  destruct room as [|room']; [discriminate|]. cbn [readable] in Hread.
  cbn [dumps] in *. change (str "{") with [123%N] in *.
  change (str "}") with [125%N] in *. rewrite <- !app_assoc in *. cbn [app] in *.
  destruct fuel as [|f]; [lia|]. cbn [parse].
  change (123 =? 34)%N with false. change (123 =? 123)%N with true. cbv iota.
  destruct d as [|kv d].
  - reflexivity.
  - destruct (@members_head (kv :: d)) as [body Hbody]; [discriminate|].
    rewrite Hbody in Hfuel |- *. cbn [app] in Hfuel |- *.
    change (skip_ws (34%N :: ?r)) with (34%N :: r). cbv iota.
    change (34 =? 125)%N with false. change (34 =? 34)%N with true. cbv iota.
    apply (@parse_members (kv :: d) Hall Hvalues ltac:(discriminate) f room' []
             rest body Hread Hbody).
    + cbn [map app]. apply distinct_keys_NoDup. exact Hkeys.
    + cbn [length] in *. lia.
Qed.

(** The decoder reads every encoded value back, whatever follows it
    inside a JSON text. *)
Lemma dumps_reads_back v : reads_back v.
Proof.
  induction v using pyval_nested_ind.
  - apply reads_back_constant. exact I.
  - apply reads_back_constant. exact I.
  - apply reads_back_int.
  - destruct x as [q| |neg].
    + discriminate.
    + apply reads_back_constant. exact I.
    + apply reads_back_constant. exact I.
  - apply reads_back_str.
  - apply reads_back_list. assumption.
  - apply reads_back_dict. assumption.
Qed.

(** [json.loads(json.dumps(v, ensure_ascii=False)) == v], within the
    limits of the decoder. *)
Lemma loads_dumps v :
  json_data v = true -> readable recursion_room v = true ->
  loads (dumps v) = Value v.
Proof.
  intros Hdata Hread. unfold loads.
  assert (Hs : skip_ws (dumps v) = dumps v ++ []).
  { rewrite <- (app_nil_r (dumps v)) at 1. apply skip_ws_dumps. exact Hdata. }
  rewrite Hs.
  rewrite (@dumps_reads_back v Hdata (fuel_for (dumps v ++ [])) recursion_room
             [] I Hread).
  - reflexivity.
  - unfold fuel_for. lia.
Qed.

End RoundTrip.

(** ** The lines of the output file *)

Ltac all_chars :=
  repeat (apply Forall_cons;
          [cbv beta; first [lia | unfold dquote; lia | (cbv; discriminate)]|]);
  try apply Forall_nil.

Ltac text_chars := simpl; all_chars.

Lemma join_Forall (P : N -> Prop) sep parts :
  Forall P sep -> Forall (Forall P) parts -> Forall P (join sep parts).
Proof.
  intros Hsep. induction parts as [|p rest IH]; intros Hparts; [constructor|].
  apply Forall_cons_iff in Hparts. destruct Hparts as [Hp Hrest].
  destruct rest as [|q rest]; [exact Hp|].
  rewrite join_two. apply Forall_app. split; [exact Hp|].
  apply Forall_app. split; [exact Hsep | apply IH; exact Hrest].
Qed.

Lemma join_In sep parts (p : pystr) x :
  In p parts -> In x p -> In x (join sep parts).
Proof.
  induction parts as [|q rest IH]; intros Hp Hx; [destruct Hp|].
  destruct rest as [|q' rest].
  - destruct Hp as [->|[]]. exact Hx.
  - rewrite join_two. apply in_or_app. destruct Hp as [->|Hp]; [left; exact Hx|].
    right. apply in_or_app. right. apply IH; assumption.
Qed.

Lemma escape_char_printable c : Forall (fun x => (32 <= x)%N) (escape_char c).
Proof.
  unfold escape_char, hex_char.
  generalize (c / 16)%N (c mod 16)%N. intros hi lo.
  repeat match goal with
         | |- context [(?a =? ?b)%N] => destruct (N.eqb_spec a b)
         | |- context [(?a <? ?b)%N] => destruct (N.ltb_spec a b)
         end;
    all_chars.
Qed.

Lemma encode_basestring_printable s :
  Forall (fun x => (32 <= x)%N) (encode_basestring s).
Proof.
  unfold encode_basestring. apply Forall_cons; [unfold dquote; lia|].
  apply Forall_app. split; [|all_chars].
  apply Forall_flat_map. apply Forall_forall. intros c _.
  apply escape_char_printable.
Qed.

Lemma decimal_printable n : Forall (fun x => (32 <= x)%N) (decimal n).
Proof.
  unfold decimal.
  induction (Nat.to_uint n)
    as [|d IHd|d IHd|d IHd|d IHd|d IHd|d IHd|d IHd|d IHd|d IHd|d IHd];
    [ apply Forall_nil
    | simpl; fold (str (NilEmpty.string_of_uint d));
      apply Forall_cons; [first [lia | (cbv; discriminate)] | exact IHd] .. ].
Qed.

Lemma decimal_Z_printable z : Forall (fun x => (32 <= x)%N) (decimal_Z z).
Proof.
  unfold decimal_Z. destruct (z <? 0)%Z; [apply Forall_cons; [cbv beta; lia|]|];
    apply decimal_printable.
Qed.

Lemma surrogate_escapes c : is_surrogate c = true -> escape_char c = [c].
Proof.
  unfold is_surrogate, escape_char. intros H. apply andb_true_iff in H.
  destruct H as [H1 H2]. apply N.leb_le in H1.
  repeat match goal with
         | |- context [(?a =? ?b)%N] => destruct (N.eqb_spec a b); try lia
         | |- context [(?a <? ?b)%N] => destruct (N.ltb_spec a b); try lia
         end.
  reflexivity.
Qed.

Section LineFacts.
Context {R : Runtime}.

Local Abbreviation member :=
  (fun kv : pystr * pyval =>
     match kv with (k, x) => encode_basestring k ++ str ": " ++ dumps x end).

(** The text of data holds no control character: no line break in
    particular. *)
Lemma dumps_printable v :
  json_data v = true -> Forall (fun x => (32 <= x)%N) (dumps v).
Proof.
  induction v as [|b|z|x|s|l IHl|d IHd] using pyval_nested_ind; intros Hdata.
  - text_chars.
  - destruct b; text_chars.
  - apply decimal_Z_printable.
  - destruct x as [q| |[|]]; [discriminate| | |]; text_chars.
  - apply encode_basestring_printable.
  - cbn [dumps]. cbn [json_data] in Hdata.
    apply Forall_app. split; [text_chars|].
    apply Forall_app. split; [|text_chars].
    apply join_Forall; [text_chars|].
    apply Forall_map. rewrite Forall_forall in *. intros x Hx.
    apply IHl; [exact Hx|]. rewrite forallb_forall in Hdata. apply Hdata. exact Hx.
  - cbn [dumps]. cbn [json_data] in Hdata.
    apply andb_true_iff in Hdata. destruct Hdata as [_ Hdata].
    apply Forall_app. split; [text_chars|].
    apply Forall_app. split; [|text_chars].
    apply join_Forall; [text_chars|].
    apply Forall_map. rewrite Forall_forall in *. intros [k x] Hx.
    apply Forall_app. split; [apply encode_basestring_printable|].
    apply Forall_app. split; [text_chars|].
    apply (IHd (k, x) Hx). rewrite forallb_forall in Hdata.
    apply (Hdata (k, x) Hx).
Qed.

Lemma dumps_one_line v : json_data v = true -> ~ In newline (dumps v).
Proof.
  intros Hdata Hin. pose proof (dumps_printable v Hdata) as Hp.
  rewrite Forall_forall in Hp. specialize (Hp newline Hin). unfold newline in Hp. lia.
Qed.

Lemma result_of_data i row model_response :
  row_data row = true -> json_data (result_of i row model_response) = true.
Proof.
  unfold row_data. intros H. apply andb_true_iff in H. destruct H as [Hq Ha].
  unfold result_of. cbn [json_data forallb map fst].
  rewrite Hq, Ha. reflexivity.
Qed.

(** A surrogate in the model response makes the line of the record
    one that UTF-8 refuses. *)
Lemma surrogate_line i row model_response c :
  In c model_response -> is_surrogate c = true ->
  utf8_encodable (line_of (result_of i row model_response)) = false.
Proof.
  intros Hin Hc.
  destruct (utf8_encodable (line_of (result_of i row model_response))) eqn:E;
    [|reflexivity].
  unfold utf8_encodable in E. rewrite forallb_forall in E.
  specialize (E c). rewrite Hc in E. cbn [negb] in E.
  assert (Hline : In c (line_of (result_of i row model_response))).
  { unfold line_of, result_of. apply in_or_app. left. cbn [dumps map].
    apply in_or_app. right. apply in_or_app. left.
    apply (@join_In (str ", ") _
             (encode_basestring (str "model_response") ++ str ": "
              ++ encode_basestring model_response) c).
    - right. right. right. left. reflexivity.
    - apply in_or_app. right. apply in_or_app. right.
      unfold encode_basestring. right. apply in_or_app. left.
      apply in_flat_map. exists c. split; [exact Hin|].
      rewrite (surrogate_escapes c Hc). left. reflexivity. }
  specialize (E Hline). discriminate.
Qed.

End LineFacts.

(** ** The loop over the dataset *)

Section BaselineFacts.
Context {R : Runtime}.
Variable exception_text : pyval -> pystr.
Variable api : nat -> Api.

Local Abbreviation records := (records_from exception_text api).
Local Abbreviation run := (main_loop exception_text api).
Local Abbreviation encodable :=
  (fun r : pyval => utf8_encodable (line_of r) = true).

Lemma records_length rows : forall i, length (records i rows) = length rows.
Proof.
  induction rows as [|row rows IH]; intros i; [reflexivity|].
  cbn [records_from length]. rewrite IH. reflexivity.
Qed.

Lemma records_ids rows : forall i,
  map (fun r => subscript r (str "id")) (records i rows)
  = map (fun n => Some (PInt (Z.of_nat n))) (seq i (length rows)).
Proof.
  induction rows as [|row rows IH]; intros i; [reflexivity|].
  cbn [records_from length seq map]. rewrite IH. reflexivity.
Qed.

Lemma records_data rows : forall i,
  Forall (fun row => row_data row = true) rows ->
  Forall (fun r => json_data r = true) (records i rows).
Proof.
  induction rows as [|row rows IH]; intros i H; [constructor|].
  apply Forall_cons_iff in H. destruct H as [Hrow Hrows].
  cbn [records_from]. constructor; [|apply IH; exact Hrows].
  apply result_of_data. exact Hrow.
Qed.

(** What a run leaves behind, whichever way it ends. *)
Lemma main_loop_inv rows : forall i st st' ending,
  run i rows st = (st', ending) ->
  match ending with
  | None =>
      Forall encodable (records i rows) /\
      results st' = results st ++ records i rows /\
      output_file st' = output_file st ++ concat (map line_of (records i rows))
  | Some j =>
      exists n record,
        j = i + n /\ nth_error (records i rows) n = Some record /\
        utf8_encodable (line_of record) = false /\
        Forall encodable (firstn n (records i rows)) /\
        results st' = results st ++ firstn (S n) (records i rows) /\
        output_file st' =
          output_file st ++ concat (map line_of (firstn n (records i rows)))
  end.
Proof.
  induction rows as [|row rows IH]; intros i st st' ending H.
  - cbn [main_loop] in H. injection H as <- <-. cbn [records_from map concat].
    rewrite !app_nil_r. auto.
  - cbn [main_loop] in H. cbn [records_from].
    set (record := result_of i row _) in *.
    fold (line_of record) in H.
    destruct (utf8_encodable (line_of record)) eqn:E.
    + apply IH in H. cbn [results output_file] in H.
      destruct ending as [j|].
      * destruct H as (n & r & -> & Hn & Hr & Hall & Hres & Hout).
        exists (S n), r. split; [lia|]. split; [exact Hn|]. split; [exact Hr|].
        split; [cbn [firstn]; constructor; assumption|]. split.
        -- rewrite Hres, <- app_assoc. reflexivity.
        -- rewrite Hout, <- app_assoc. reflexivity.
      * destruct H as (Hall & Hres & Hout).
        split; [constructor; assumption|]. split.
        -- rewrite Hres, <- app_assoc. reflexivity.
        -- rewrite Hout, <- app_assoc. reflexivity.
    + injection H as <- <-. exists 0, record.
      split; [lia|]. split; [reflexivity|]. split; [exact E|].
      split; [constructor|]. cbn [firstn map concat results output_file].
      rewrite app_nil_r. auto.
Qed.

(** A run whose lines can all be written goes through every row. *)
Lemma main_loop_runs rows : forall i st,
  Forall encodable (records i rows) ->
  run i rows st =
    ({| results := results st ++ records i rows;
        output_file := output_file st ++ concat (map line_of (records i rows)) |},
     None).
Proof.
  induction rows as [|row rows IH]; intros i st Hall.
  - cbn [main_loop records_from map concat]. rewrite !app_nil_r.
    destruct st; reflexivity.
  - cbn [records_from] in Hall. apply Forall_cons_iff in Hall.
    destruct Hall as [Hrow Hrows].
    cbn [main_loop records_from]. set (record := result_of i row _) in *.
    fold (line_of record). rewrite Hrow. rewrite (IH (S i) _ Hrows).
    cbn [results output_file map concat]. rewrite <- !app_assoc. reflexivity.
Qed.

(** Cutting what was appended at the line breaks gives the texts of
    the records, and an empty rest after the last break. *)
Lemma lines_of_records (rs : list pyval) :
  Forall (fun r => json_data r = true) rs ->
  split_on newline (concat (map line_of rs)) = map dumps rs ++ [[]].
Proof.
  induction rs as [|r rs IH]; intros H; [reflexivity|].
  apply Forall_cons_iff in H. destruct H as [Hr Hrs].
  cbn [map concat app]. unfold line_of at 1. rewrite <- app_assoc. cbn [app].
  rewrite split_on_app by (apply dumps_one_line; exact Hr).
  rewrite (IH Hrs). reflexivity.
Qed.

Lemma records_nth rows : forall i n row,
  nth_error rows n = Some row ->
  nth_error (records i rows) n =
    Some (result_of (i + n) row
            (query exception_text (api (i + n))
               (dict_get row (str "question") (PStr [])))).
Proof.
  induction rows as [|r rows IH]; intros i [|n] row Hrow; try discriminate.
  - injection Hrow as ->. cbn [records_from nth_error].
    rewrite Nat.add_0_r. reflexivity.
  - cbn [records_from nth_error]. cbn [nth_error] in Hrow.
    replace (i + S n) with (S i + n) by lia. apply IH. exact Hrow.
Qed.

Lemma firstn_holds {A} (l : list A) m n x :
  m < n -> nth_error l m = Some x -> In x (firstn n l).
Proof.
  intros Hlt Hx. apply (nth_error_In _ m). rewrite nth_error_firstn.
  replace (m <? n) with true by (symmetry; apply Nat.ltb_lt; exact Hlt).
  exact Hx.
Qed.

(** A run stops at the first record whose line cannot be written. *)
Lemma main_loop_stops rows i st n record :
  nth_error (records i rows) n = Some record ->
  utf8_encodable (line_of record) = false ->
  Forall encodable (firstn n (records i rows)) ->
  exists st', run i rows st = (st', Some (i + n)).
Proof.
  intros Hrec Hbad Hbefore.
  destruct (run i rows st) as [st' [j|]] eqn:Hrun.
  - exists st'. f_equal. f_equal.
    apply main_loop_inv in Hrun.
    destruct Hrun as (m & r & -> & Hm & Hr & Hall & _).
    destruct (Nat.lt_trichotomy m n) as [Hlt|[->|Hgt]]; [|reflexivity|]; exfalso.
    + rewrite Forall_forall in Hbefore.
      rewrite (Hbefore r (firstn_holds _ Hlt Hm)) in Hr. discriminate.
    + rewrite Forall_forall in Hall.
      rewrite (Hall record (firstn_holds _ Hgt Hrec)) in Hbad. discriminate.
  - apply main_loop_inv in Hrun. destruct Hrun as (Hall & _).
    rewrite Forall_forall in Hall.
    rewrite (Hall _ (nth_error_In _ _ Hrec)) in Hbad. discriminate.
Qed.

End BaselineFacts.

(** X22.  When the question and the answer of every row are data and
    every line can be written, the loop goes through all the rows:
    [results] gains one record per row, numbered from the first
    index on in the order of the rows, and the file keeps what it
    held and gains exactly one line per record, the JSON text of
    that record, even when a question or a response holds line
    breaks. *)
Theorem one_line_per_row {R : Runtime} (exception_text : pyval -> pystr)
    (api : nat -> Api) (i : nat) (rows : list Row) (st : Session) :
  Forall (fun row => row_data row = true) rows ->
  let records := records_from exception_text api i rows in
  Forall (fun r => utf8_encodable (line_of r) = true) records ->
  exists added,
    main_loop exception_text api i rows st
      = ({| results := results st ++ records;
            output_file := output_file st ++ added |}, None) /\
    length records = length rows /\
    map (fun r => subscript r (str "id")) records
      = map (fun n => Some (PInt (Z.of_nat n))) (seq i (length rows)) /\
    split_on newline added = map dumps records ++ [[]].
Proof.
  intros Hrows records Hlines. exists (concat (map line_of records)).
  split; [apply main_loop_runs; exact Hlines|].
  split; [apply records_length|]. split; [apply records_ids|].
  apply lines_of_records. apply records_data. exact Hrows.
Qed.

Lemma one_line_per_row_witness :
  let records := records_from key_error_text flaky_api 0 (firstn 2 bar_rows) in
  exists added,
    main_loop (R := plain_runtime) key_error_text flaky_api 0 (firstn 2 bar_rows)
      fresh_session
      = ({| results := results fresh_session ++ records;
            output_file := output_file fresh_session ++ added |}, None) /\
    length records = 2 /\
    map (fun r => subscript r (str "id")) records
      = [Some (PInt 0); Some (PInt 1)] /\
    split_on newline added = map (dumps (R := plain_runtime)) records ++ [[]].
Proof.
  apply (@one_line_per_row plain_runtime key_error_text flaky_api 0
           (firstn 2 bar_rows) fresh_session).
  - repeat constructor.
  - repeat constructor.
Defined.

(** X23.  The output file can be read back: when the question and
    the answer of every row are data and the loop runs to its end,
    decoding a line it appended with [json.loads] gives the record
    of [results] at the same place, for every record that is within
    the limits of the decoder (no integer of more digits than the
    interpreter converts, containers nested no deeper than the
    recursion limit leaves room for); when all records are, decoding
    the lines gives the records, in order. *)
Theorem lines_read_back {R : Runtime} (exception_text : pyval -> pystr)
    (api : nat -> Api) (i : nat) (rows : list Row) (st st' : Session) :
  Forall (fun row => row_data row = true) rows ->
  main_loop exception_text api i rows st = (st', None) ->
  exists added new,
    output_file st' = output_file st ++ added /\
    results st' = results st ++ new /\
    length new = length rows /\
    Forall2 (fun line record =>
               readable recursion_room record = true ->
               Json.loads line = Json.Value record)
      (removelast (split_on newline added)) new /\
    (Forall (fun record => readable recursion_room record = true) new ->
     map Json.loads (removelast (split_on newline added)) = map Json.Value new).
Proof.
  intros Hrows Hrun. apply main_loop_inv in Hrun.
  destruct Hrun as (_ & Hres & Hout).
  exists (concat (map line_of (records_from exception_text api i rows))),
         (records_from exception_text api i rows).
  split; [exact Hout|]. split; [exact Hres|]. split; [apply records_length|].
  pose proof (records_data exception_text api i Hrows) as Hdata.
  rewrite (lines_of_records Hdata), removelast_last.
  set (new := records_from exception_text api i rows) in *. clearbody new.
  clear Hres Hout. split.
  - induction new as [|r new IH]; [constructor|].
    apply Forall_cons_iff in Hdata. destruct Hdata as [Hr Hnew].
    cbn [map]. constructor; [|apply IH; exact Hnew].
    intros Hread. apply loads_dumps; assumption.
  - intros Hread. rewrite map_map. apply map_ext_in. intros r Hr.
    rewrite Forall_forall in Hdata, Hread. apply loads_dumps; auto.
Qed.

Lemma lines_read_back_witness :
  let st' := fst (main_loop (R := plain_runtime) key_error_text flaky_api 0
                    (firstn 2 bar_rows) fresh_session) in
  exists added new,
    output_file st' = output_file fresh_session ++ added /\
    results st' = results fresh_session ++ new /\
    length new = 2 /\
    map (Json.loads (R := plain_runtime)) (removelast (split_on newline added))
      = map Json.Value new.
Proof.
  intros st'.
  destruct (@lines_read_back plain_runtime key_error_text flaky_api 0
              (firstn 2 bar_rows) fresh_session st')
    as (added & new & Hout & Hres & Hlen & _ & Hfile).
  - repeat constructor.
  - vm_compute. reflexivity.
  - exists added, new. split; [exact Hout|]. split; [exact Hres|].
    split; [exact Hlen|]. apply Hfile.
    cbn [results fresh_session app] in Hres. rewrite <- Hres.
    vm_compute. repeat constructor.
Defined.

(** X24.  The loop stops at the first record whose line UTF-8 refuses
    (the write raises): the records before it have their lines in
    the file, the refused record is the last of [results] and has no
    line.  A model response that holds a surrogate code point gives
    such a record, so the run stops at the first row answered with
    one when the lines before it could be written. *)
Theorem unencodable_line_stops_run {R : Runtime}
    (exception_text : pyval -> pystr) (api : nat -> Api) (i : nat)
    (rows : list Row) (st : Session) :
  let records := records_from exception_text api i rows in
  (forall st' j,
     main_loop exception_text api i rows st = (st', Some j) ->
     exists n record,
       j = i + n /\ nth_error records n = Some record /\
       utf8_encodable (line_of record) = false /\
       Forall (fun r => utf8_encodable (line_of r) = true) (firstn n records) /\
       results st' = results st ++ firstn (S n) records /\
       output_file st' =
         output_file st ++ concat (map line_of (firstn n records))) /\
  (forall n row c,
     nth_error rows n = Some row ->
     In c (query exception_text (api (i + n))
             (dict_get row (str "question") (PStr []))) ->
     is_surrogate c = true ->
     Forall (fun r => utf8_encodable (line_of r) = true) (firstn n records) ->
     exists st', main_loop exception_text api i rows st = (st', Some (i + n))).
Proof.
  intros records. split.
  - intros st' j Hrun. exact (main_loop_inv _ _ _ _ _ Hrun).
  - intros n row c Hrow Hin Hc Hbefore.
    apply (@main_loop_stops R exception_text api rows i st n
             (result_of (i + n) row
                (query exception_text (api (i + n))
                   (dict_get row (str "question") (PStr []))))).
    + apply records_nth. exact Hrow.
    + exact (surrogate_line (i + n) row _ c Hin Hc).
    + exact Hbefore.
Qed.

Lemma unencodable_line_stops_run_witness :
  let records := records_from key_error_text flaky_api 0 bar_rows in
  exists st',
    main_loop (R := plain_runtime) key_error_text flaky_api 0 bar_rows
      fresh_session = (st', Some 2) /\
    results st' = records /\
    output_file st' =
      output_file fresh_session
      ++ concat (map (line_of (R := plain_runtime)) (firstn 2 records)).
Proof.
  intros records.
  destruct (proj2 (@unencodable_line_stops_run plain_runtime key_error_text
                     flaky_api 0 bar_rows fresh_session)
              2 (nth 2 bar_rows []) 55357%N eq_refl)
    as [st' Hrun].
  - vm_compute. auto.
  - reflexivity.
  - repeat constructor.
  - exists st'. split; [exact Hrun|].
    vm_compute in Hrun. injection Hrun as <-. split; reflexivity.
Defined.
